(** * NyaaySahayak retrieval core: chunker, dual vector stores, hybrid search

    A shallow embedding of
      - [backend/chunking/legal_chunker.py]   (LegalChunker)
      - [backend/vectorstore/faiss_store.py]  (FAISSVectorStore)
      - [backend/vectorstore/postgres_store.py] (PostgresVectorStore)
      - [backend/vectorstore/vector_manager.py] (VectorManager)
      - [backend/db/models.py]                (Document, Chunk, QueryLog)
      - [backend/rag/pipeline.py]             (LegalRAGPipeline)
      - [backend/rag/generator.py]            (LegalLLM.generate)
    followed by the properties of the retrieval subsystem.

    Conventions.  A Python [str] is a [list ascii] (code points 0..255);
    Python [int]s are [Z] where the sign matters (slice bounds, [top_k])
    and [nat] where the code only ever produces a length.  Python [dict]s
    that are shared by reference live in a heap of [gmap string pyval]
    objects addressed by [ref]. *)

From Stdlib Require Import ZArith Ascii String List Bool Lia.
From stdpp Require Import base option list gmap strings.

Import ListNotations.
#[local] Open Scope list_scope.

(** ** Python strings *)

Module Py.

Abbreviation str := (list ascii).

(** A literal, written as a Rocq string. *)
Definition s (lit : string) : str := list_ascii_of_string lit.

Definition NL : ascii := ascii_of_nat 10.

(** [str.isspace] on one character, which is also the regular-expression
    class [\s] for [str] patterns; restricted to code points below 256. *)
Definition is_space (c : ascii) : bool :=
  let n := nat_of_ascii c in
  ((9 <=? n) && (n <=? 13)) || ((28 <=? n) && (n <=? 32))
  || (n =? 133) || (n =? 160).

(** The class [\d]: below 256 the only decimal digits are [0-9]. *)
Definition is_digit (c : ascii) : bool :=
  let n := nat_of_ascii c in (48 <=? n) && (n <=? 57).

(** The class [\w] (alphanumeric or underscore), below 128. *)
Definition is_word (c : ascii) : bool :=
  let n := nat_of_ascii c in
  is_digit c || ((65 <=? n) && (n <=? 90)) || ((97 <=? n) && (n <=? 122))
  || (n =? 95).

Fixpoint lstrip (t : str) : str :=
  match t with
  | c :: t' => if is_space c then lstrip t' else t
  | [] => []
  end.

Definition rstrip (t : str) : str := rev (lstrip (rev t)).

(** [t.strip()] *)
Definition strip (t : str) : str := lstrip (rstrip t).

(** No whitespace in front. *)
Definition no_lead (t : str) : Prop :=
  match t with
  | c :: _ => is_space c = false
  | [] => True
  end.

(** No whitespace at the end. *)
Definition no_trail (t : str) : Prop := no_lead (rev t).

(** Truth value of a string: non-empty. *)
Definition truthy (t : str) : bool :=
  match t with [] => false | _ :: _ => true end.

(** [t[i:]] for an arbitrary Python integer [i]: a negative [i] counts
    from the end, and both directions clamp to the string. *)
Definition slice_from (i : Z) (t : str) : str :=
  if (i <? 0)%Z
  then drop (length t - Z.to_nat (- i)) t
  else drop (Z.to_nat i) t.

(** [t[:i]] on a list, for an arbitrary Python integer [i]. *)
Definition slice_to {A} (i : Z) (l : list A) : list A :=
  if (i <? 0)%Z
  then take (length l - Z.to_nat (- i)) l
  else take (Z.to_nat i) l.

End Py.

(** ** Shared Python objects

    A metadata [dict] is passed around by reference; [ref] is its address
    in the heap of dictionaries (see [Heap] below).  A chunk is the
    two-key dictionary [{"text": ..., "metadata": ...}] the chunker
    builds; callers of the stores also pass chunks with no ["metadata"]
    key, hence the option. *)

Definition ref := nat.

Module ChunkDict.
Record t := mk {
  text : Py.str;
  metadata : option ref
}.
End ChunkDict.

Abbreviation chunk := ChunkDict.t.

(** ** [legal_chunker.py] *)

Module LegalChunker.
Import Py.

(** The object state set by [__init__]; [tokenizer] stands for
    [tiktoken]'s [encode], any deterministic map from text to token ids. *)
Record t := mk {
  chunk_size : Z;
  chunk_overlap : Z;
  tokenizer : str -> list nat
}.

Definition _count_tokens (self : t) (txt : str) : nat :=
  length (tokenizer self txt).

(** *** The pattern
    [(SECTION\s+\d+|Section\s+\d+|CLAUSE\s+\d+|Clause\s+\d+)] *)

Definition keywords : list str :=
  [s "SECTION"; s "Section"; s "CLAUSE"; s "Clause"].

(** [strip_prefix p t]: the rest of [t] after the literal [p]. *)
Fixpoint strip_prefix (p t : str) : option str :=
  match p, t with
  | [], _ => Some t
  | a :: p', b :: t' => if Ascii.eqb a b then strip_prefix p' t' else None
  | _ :: _, [] => None
  end.

(** Longest prefix of characters in a class, and the rest. *)
Fixpoint span (f : ascii -> bool) (t : str) : str * str :=
  match t with
  | c :: t' => if f c then let '(a, b) := span f t' in (c :: a, b) else ([], t)
  | [] => ([], [])
  end.

(** One alternative [kw\s+\d+] anchored at the start of [t]: the matched
    text and what follows it.  Both repetitions are greedy; the classes
    [\s] and [\d] are disjoint, so no shorter repetition can succeed
    where the longest fails. *)
Definition match_alt (kw t : str) : option (str * str) :=
  match strip_prefix kw t with
  | None => None
  | Some r =>
      let '(ws, r1) := span is_space r in
      let '(ds, r2) := span is_digit r1 in
      if truthy ws && truthy ds then Some (kw ++ ws ++ ds, r2) else None
  end.

(** The alternation, tried left to right, anchored at the start of [t]. *)
Fixpoint match_alts (kws : list str) (t : str) : option (str * str) :=
  match kws with
  | [] => None
  | kw :: kws' =>
      match match_alt kw t with
      | Some r => Some r
      | None => match_alts kws' t
      end
  end.

Definition match_pattern (t : str) : option (str * str) :=
  match_alts keywords t.

(** [re.match(pattern, part)] as a truth value. *)
Definition re_match (part : str) : bool :=
  match match_pattern part with Some _ => true | None => false end.

(** [re.split(pattern, text)] with the pattern's single capturing group:
    the pieces between matches alternate with the matched markers.  The
    scan goes left to right; [gap] is the text since the last match.
    Every step consumes a character, so [fuel] above the length of [t] is
    never exhausted. *)
Fixpoint re_split_from (fuel : nat) (gap t : str) : list str :=
  match fuel with
  | O => [gap ++ t]
  | S fuel' =>
      match t with
      | [] => [gap]
      | c :: t' =>
          match match_pattern t with
          | Some (m, rest) => gap :: m :: re_split_from fuel' [] rest
          | None => re_split_from fuel' (gap ++ [c]) t'
          end
      end
  end.

Definition re_split (txt : str) : list str :=
  re_split_from (S (length txt)) [] txt.

(** *** [_split_by_sections] *)

(** The [for part in splits] loop, on the pair [(sections, buffer)]. *)
Fixpoint split_loop (splits : list str) (sections : list str) (buffer : str)
  : list str * str :=
  match splits with
  | [] => (sections, buffer)
  | part :: rest =>
      if re_match part then
        let sections' :=
          if truthy (strip buffer) then sections ++ [strip buffer]
          else sections in
        split_loop rest sections' part
      else
        split_loop rest sections (buffer ++ [NL] ++ part)
  end.

Definition _split_by_sections (txt : str) : list str :=
  let splits := re_split txt in
  let '(sections, buffer) := split_loop splits [] [] in
  if truthy (strip buffer) then sections ++ [strip buffer] else sections.

(** *** [chunk_text] *)

(** State of the packing loop: [chunks], [current_chunk],
    [current_tokens]. *)
Record pack_state := mk_pack {
  chunks : list chunk;
  current_chunk : str;
  current_tokens : nat
}.

Definition pack_init : pack_state := mk_pack [] [] 0.

(** One iteration of [for section in sections]. *)
Definition pack_step (self : t) (md : ref) (st : pack_state)
  (section : str) : pack_state :=
  let section_tokens := _count_tokens self section in
  if (Z.of_nat (current_tokens st + section_tokens) <=? chunk_size self)%Z then
    mk_pack (chunks st)
      (if truthy (current_chunk st)
       then current_chunk st ++ [NL; NL] ++ section
       else section)
      (current_tokens st + section_tokens)
  else
    mk_pack
      (if truthy (strip (current_chunk st))
       then chunks st ++ [ChunkDict.mk (strip (current_chunk st)) (Some md)]
       else chunks st)
      section
      section_tokens.

(** The chunks before overlap: the loop, then the flush after it. *)
Definition pack (self : t) (md : ref) (sections : list str)
  : list chunk :=
  let st := fold_left (pack_step self md) sections pack_init in
  if truthy (strip (current_chunk st))
  then chunks st ++ [ChunkDict.mk (strip (current_chunk st)) (Some md)]
  else chunks st.

(** One iteration of [for i, chunk in enumerate(chunks)] on
    [final_chunks]; [final_chunks[-1]] is its last element. *)
Definition overlap_step (self : t) (md : ref)
  (final_chunks : list chunk) (i : nat) (c : chunk) : list chunk :=
  if (i =? 0)%nat then final_chunks ++ [c]
  else
    let prev_text := ChunkDict.text (List.last final_chunks c) in
    let overlap_text := slice_from (- chunk_overlap self) prev_text in
    let merged_text := overlap_text ++ [NL; NL] ++ ChunkDict.text c in
    final_chunks ++ [ChunkDict.mk merged_text (Some md)].

Fixpoint overlap_loop (self : t) (md : ref)
  (final_chunks : list chunk) (i : nat) (cs : list chunk) : list chunk :=
  match cs with
  | [] => final_chunks
  | c :: cs' =>
      overlap_loop self md (overlap_step self md final_chunks i c) (S i) cs'
  end.

Definition chunk_text (self : t) (txt : str) (md : ref) : list chunk :=
  let sections := _split_by_sections txt in
  let chunks := pack self md sections in
  overlap_loop self md [] 0 chunks.

End LegalChunker.

(** ** Values, vectors and the embedding port *)

Inductive pyval :=
  | PStr (v : Py.str)
  | PInt (z : Z).

(** A metadata dictionary: string keys, scalar values. *)
Abbreviation dict := (gmap string pyval).

Definition uuid := nat.

(** The numeric side of the stores is kept abstract: components of an
    embedding, the two similarity measures ([IndexFlatIP]'s inner product
    and pgvector's cosine distance) and the order on their values. *)
Class Numeric := {
  scalar : Type;
  inner_product : list scalar -> list scalar -> scalar;
  cosine_distance : list scalar -> list scalar -> scalar;
  scalar_ltb : scalar -> scalar -> bool
}.

Definition vector `{Numeric} := list scalar.

(** [SentenceTransformer.encode] on one text, with
    [normalize_embeddings=True]. *)
Class Encoder `{Numeric} := { encode : Py.str -> vector }.

(** *** [embedder.py] *)
Module EmbeddingModel.
Section Embedder.
Context `{Encoder}.

Definition embed_documents (texts : list Py.str) : list vector :=
  match texts with
  | [] => []
  | _ => map (fun t => encode (Py.s "passage: " ++ t)) texts
  end.

Definition embed_query (query : Py.str) : vector :=
  encode (Py.s "query: " ++ query).

End Embedder.
End EmbeddingModel.

(** ** [models.py]: the relational rows *)

Module Models.
Section Rows.
Context `{Numeric}.

(** Dimension of the [embedding] column, [Vector(1024)]. *)
Definition D : nat := 1024.

(** [id] is [None] until the row is flushed ([default=uuid.uuid4]);
    [created_at] is not read anywhere and is left out. *)
Record Document := mkDocument {
  doc_id : option uuid;
  filename : option pyval;
  source_type : option pyval;
  language : option pyval;
  jurisdiction : option pyval
}.

Record Chunk := mkChunk {
  id : option uuid;
  document_id : option uuid;
  text : Py.str;
  metadata_json : option dict;
  embedding : option vector;
  faiss_index_id : option Z
}.

Inductive row :=
  | RDocument (d : Document)
  | RChunk (c : Chunk).

End Rows.
End Models.

(** ** The process state and the monad of the stores *)

Inductive exn :=
  | IntegrityError   (* NOT NULL or foreign key violated *)
  | ValueError       (* wrong vector dimension, NUL in a string, bad shape *)
  | DataError        (* integer out of range *)
  | AssertionError   (* faiss argument checks *)
  | ProgrammingError (* negative LIMIT *)
  | KeyError.

Inductive outcome (A : Type) :=
  | Ok (a : A)
  | Raise (e : exn).
Arguments Ok {A} a.
Arguments Raise {A} e.

Section State.
Context `{Numeric}.

(** [faiss.IndexFlatIP(d)]: the stored vectors, in insertion order. *)
Record faiss_index := mk_index {
  d : nat;
  xb : list vector
}.

Definition ntotal (ix : faiss_index) : nat := length (xb ix).

(** The fields of a [FAISSVectorStore] object. *)
Record faiss_store := mk_faiss_store {
  embedding_dim : nat;
  index_path : option string;
  index : faiss_index
}.

Record world := mk_world {
  documents : list Models.Document;      (* table [documents] *)
  chunks : list Models.Chunk;            (* table [chunks] *)
  uuid_next : uuid;                      (* supply of fresh ids *)
  session : list Models.row;             (* pending rows of the open session *)
  heap : gmap ref dict;                  (* the metadata dictionaries *)
  user_store : faiss_store;              (* the process's FAISSVectorStore *)
  files : gmap string faiss_index        (* index snapshots on disk *)
}.

Definition M (A : Type) : Type := world -> world * outcome A.

Definition ret {A} (a : A) : M A := fun w => (w, Ok a).

Definition bind {A B} (m : M A) (k : A -> M B) : M B :=
  fun w => match m w with
           | (w', Ok a) => k a w'
           | (w', Raise e) => (w', Raise e)
           end.

Definition raise {A} (e : exn) : M A := fun w => (w, Raise e).

Definition get : M world := fun w => (w, Ok w).
Definition put (w : world) : M unit := fun _ => (w, Ok tt).

(** [try: body except Exception as e: handler(e)] *)
Definition try_except {A} (body : M A) (handler : exn -> M A) : M A :=
  fun w => match body w with
           | (w', Ok a) => (w', Ok a)
           | (w', Raise e) => handler e w'
           end.

(** [try: body finally: fin] *)
Definition try_finally {A} (body : M A) (fin : M unit) : M A :=
  fun w => match body w with
           | (w', r) =>
               match fin w' with
               | (w'', Ok _) => (w'', r)
               | (w'', Raise e) => (w'', Raise e)
               end
           end.

#[export] Instance M_ret : MRet M := @ret.
#[export] Instance M_bind : MBind M := fun A B k m => bind m k.

(** A [for] loop run for its effects. *)
Fixpoint for_each {A} (l : list A) (body : A -> M unit) : M unit :=
  match l with
  | [] => ret tt
  | x :: l' => body x ;; for_each l' body
  end.

End State.


(** Stable insertion sort: [before y x] says that [y], although later in
    the input, must come out ahead of [x]. *)
Fixpoint insert_by {A} (before : A -> A -> bool) (x : A) (l : list A) : list A :=
  match l with
  | [] => [x]
  | y :: l' => if before y x then y :: insert_by before x l' else x :: y :: l'
  end.

Definition sort_by {A} (before : A -> A -> bool) (l : list A) : list A :=
  foldr (insert_by before) [] l.

(** [enumerate(l)] *)
Definition enumerate {A} (l : list A) : list (nat * A) :=
  imap (fun i x => (i, x)) l.

(** What a search returns: the ephemeral store's
    [{"text", "document_id"}] and the persistent store's
    [{"text", "metadata"}]. *)
Inductive result :=
  | UserResult (text : Py.str) (document_id : option uuid)
  | GeneralResult (text : Py.str) (metadata : dict).

Section Stores.
Context `{Encoder}.
Import Models.

Definition set_tables (docs : list Document) (cks : list Chunk) (next : uuid)
  (w : world) : world :=
  mk_world docs cks next (session w) (heap w) (user_store w) (files w).

Definition set_session (p : list row) (w : world) : world :=
  mk_world (documents w) (chunks w) (uuid_next w) p (heap w) (user_store w)
    (files w).

Definition set_heap (h : gmap ref dict) (w : world) : world :=
  mk_world (documents w) (chunks w) (uuid_next w) (session w) h (user_store w)
    (files w).

Definition set_user_store (st : faiss_store) (w : world) : world :=
  mk_world (documents w) (chunks w) (uuid_next w) (session w) (heap w) st
    (files w).

Definition set_files (fs : gmap string faiss_index) (w : world) : world :=
  mk_world (documents w) (chunks w) (uuid_next w) (session w) (heap w)
    (user_store w) fs.

Definition lift {A} (r : outcome A) : M A := fun w => (w, r).

Definition modify (f : world -> world) : M unit := fun w => (f w, Ok tt).

(** *** Dictionaries by reference *)

Definition deref (r : ref) : M dict :=
  fun w => match heap w !! r with
           | Some dct => (w, Ok dct)
           | None => (w, Raise KeyError)
           end.

(** [r[key] = v] *)
Definition dict_setitem (r : ref) (key : string) (v : pyval) : M unit :=
  dct ← deref r;
  modify (fun w => set_heap (<[r := <[key := v]> dct]> (heap w)) w).

(** *** The SQLAlchemy session over the two tables

    [SessionLocal] has [autocommit=False] and [autoflush=False]: rows
    added to the session stay pending until [commit], which writes all of
    them in one transaction or none. *)

Definition SessionLocal : M unit := fun w => (set_session [] w, Ok tt).

Definition session_add (r : row) : M unit :=
  fun w => (set_session (session w ++ [r]) w, Ok tt).

Definition session_rollback : M unit := fun w => (set_session [] w, Ok tt).

Definition session_close : M unit := fun w => (set_session [] w, Ok tt).

Definition has_nul (t : Py.str) : bool := existsb (Ascii.eqb Ascii.zero) t.

(** A string column takes any text without the NUL character. *)
Definition column_ok (v : option pyval) : bool :=
  match v with
  | Some (PStr t) => negb (has_nul t)
  | _ => true
  end.

(** [documents]: [filename] is [nullable=False]. *)
Definition check_document (doc : Document) : outcome unit :=
  match filename doc with
  | None => Raise IntegrityError
  | Some _ =>
      if column_ok (filename doc) && column_ok (source_type doc)
         && column_ok (language doc) && column_ok (jurisdiction doc)
      then Ok tt else Raise ValueError
  end.

Definition int32 (z : Z) : bool :=
  ((- 2147483648 <=? z) && (z <=? 2147483647))%Z.

(** [chunks]: [embedding] is [Vector(1024)], [document_id] references
    [documents.id], [faiss_index_id] is a 32-bit [Integer]. *)
Definition check_chunk (docs : list Document) (c : Chunk) : outcome unit :=
  if negb (match embedding c with
           | Some v => (length v =? D)%nat
           | None => true
           end) then Raise ValueError
  else if has_nul (text c) then Raise ValueError
  else if negb (match faiss_index_id c with
                | Some z => int32 z
                | None => true
                end) then Raise DataError
  else if negb (match document_id c with
                | Some i =>
                    existsb (fun doc => bool_decide (doc_id doc = Some i)) docs
                | None => true
                end) then Raise IntegrityError
  else Ok tt.

(** The flush of a commit: every pending row gets its id where it has
    none, is checked against its table's constraints and inserted; the
    first refusal aborts the whole flush. *)
Fixpoint flush (pending : list row) (docs : list Document)
  (cks : list Chunk) (next : uuid) (done : list row)
  : outcome (list Document * list Chunk * uuid * list row) :=
  match pending with
  | [] => Ok (docs, cks, next, done)
  | RDocument doc :: rest =>
      let '(doc', next') :=
        match doc_id doc with
        | Some _ => (doc, next)
        | None =>
            (mkDocument (Some next) (filename doc) (source_type doc)
               (language doc) (jurisdiction doc), S next)
        end in
      match check_document doc' with
      | Raise e => Raise e
      | Ok _ => flush rest (docs ++ [doc']) cks next' (done ++ [RDocument doc'])
      end
  | RChunk c :: rest =>
      let '(c', next') :=
        match id c with
        | Some _ => (c, next)
        | None =>
            (mkChunk (Some next) (document_id c) (text c) (metadata_json c)
               (embedding c) (faiss_index_id c), S next)
        end in
      match check_chunk docs c' with
      | Raise e => Raise e
      | Ok _ => flush rest docs (cks ++ [c']) next' (done ++ [RChunk c'])
      end
  end.

(** [session.commit()]; the result is the rows as written, which is what
    [session.refresh] reads back. *)
Definition session_commit : M (list row) :=
  fun w =>
    match flush (session w) (documents w) (chunks w) (uuid_next w) [] with
    | Raise e => (w, Raise e)
    | Ok (docs, cks, next, rows) =>
        (set_session [] (set_tables docs cks next w), Ok rows)
    end.

(** [session.refresh(document)] after a commit of that one document. *)
Definition refreshed (rows : list row) : M Document :=
  match rows with
  | RDocument doc :: _ => mret doc
  | _ => raise KeyError
  end.

(** [Document(filename=md.get("filename"), ...,
    jurisdiction=md.get("jurisdiction", "Unknown"))] *)
Definition new_document (md : dict) : Document :=
  mkDocument None (md !! "filename"%string) (md !! "source_type"%string)
    (md !! "language"%string)
    (Some (default (PStr (Py.s "Unknown")) (md !! "jurisdiction"%string))).

(** *** The faiss index *)

(** [index.add(x)]: [x] must have shape [(n, d)]; the empty array that
    [embed_documents] returns for no texts has shape [(0,)]. *)
Definition index_add (embeddings : list vector) : M unit :=
  fun w =>
    let st := user_store w in
    let ix := index st in
    match embeddings with
    | [] => (w, Raise ValueError)
    | _ =>
        if forallb (fun v => (length v =? d ix)%nat) embeddings
        then (set_user_store
                (mk_faiss_store (embedding_dim st) (index_path st)
                   (mk_index (d ix) (xb ix ++ embeddings))) w, Ok tt)
        else (w, Raise AssertionError)
    end.

(** Positions of the stored vectors, most similar to [q] first, ties in
    insertion order. *)
Definition ranked (ix : faiss_index) (q : vector) : list nat :=
  map fst
    (sort_by (fun y x => scalar_ltb (snd x) (snd y))
       (enumerate (map (inner_product q) (xb ix)))).

(** [index.search(q, k)[1][0]]: the [k] best positions, padded with [-1]
    when the index holds fewer than [k] vectors. *)
Definition index_search (ix : faiss_index) (q : vector) (k : Z)
  : outcome (list Z) :=
  if negb (length q =? d ix)%nat then Raise AssertionError
  else if (k <=? 0)%Z then Raise AssertionError
  else
    let ids := map Z.of_nat (take (Z.to_nat k) (ranked ix q)) in
    Ok (ids ++ replicate (Z.to_nat k - length ids) (-1)%Z).

End Stores.

(** ** [faiss_store.py] *)

Module FAISSVectorStore.
Section Methods.
Context `{Encoder}.
Import Models EmbeddingModel.

(** The [Chunk] rows of step 4, one per chunk, numbered from
    [start_index]. *)
Definition chunk_records (document : Document) (start_index : nat)
  (chunks : list chunk) : list row :=
  map (fun '(i, c) =>
         RChunk (mkChunk None (doc_id document) (ChunkDict.text c) None None
                   (Some (Z.of_nat (start_index + i)))))
      (enumerate chunks).

Definition add_document_chunks (chunks : list chunk)
  (document_metadata : ref) : M unit :=
  SessionLocal ;;
  (* 1. Create Document record *)
  md ← deref document_metadata;
  session_add (RDocument (new_document md)) ;;
  rows ← session_commit;
  document ← refreshed rows;
  (* 2. Embed chunks *)
  let texts := map ChunkDict.text chunks in
  let embeddings := embed_documents texts in
  (* 3. Add to FAISS *)
  w ← get;
  let start_index := ntotal (index (user_store w)) in
  index_add embeddings ;;
  (* 4. Store chunk records with FAISS index mapping *)
  for_each (chunk_records document start_index chunks) session_add ;;
  session_commit ;;
  session_close.

(** [db.query(Chunk).filter(Chunk.faiss_index_id == idx).first()] *)
Definition first_by_faiss_index_id (cks : list Chunk) (idx : Z)
  : option Chunk :=
  List.find (fun c => bool_decide (faiss_index_id c = Some idx)) cks.

(** The [for idx in indices[0]] loop on [results]. *)
Fixpoint collect (cks : list Chunk) (indices : list Z) (results : list result)
  : list result :=
  match indices with
  | [] => results
  | idx :: rest =>
      match first_by_faiss_index_id cks idx with
      | Some c =>
          collect cks rest
            (results ++ [UserResult (Models.text c) (document_id c)])
      | None => collect cks rest results
      end
  end.

Definition similarity_search (query : Py.str) (top_k : Z) : M (list result) :=
  SessionLocal ;;
  let query_embedding := embed_query query in
  w ← get;
  indices ← lift (index_search (index (user_store w)) query_embedding top_k);
  let results := collect (chunks w) indices [] in
  session_close ;;
  mret results.

(** [save_path = path or self.index_path], written when it is truthy. *)
Definition save_index (path : option string) : M unit :=
  w ← get;
  let truthy p := match p with Some ""%string | None => false | _ => true end in
  let save_path := if truthy path then path else index_path (user_store w) in
  match save_path with
  | Some p =>
      if truthy save_path
      then modify (set_files (<[p := index (user_store w)]> (files w)))
      else mret tt
  | None => mret tt
  end.

(** [os.path.exists(path)] and [faiss.read_index(path)] on the snapshots
    [save_index] wrote; the empty path names no file. *)
Definition read_index (w : world) (path : string) : option faiss_index :=
  match path with
  | ""%string => None
  | _ => files w !! path
  end.

Definition load_index (path : string) : M unit :=
  w ← get;
  match read_index w path with
  | Some ix =>
      modify (set_user_store
                (mk_faiss_store (embedding_dim (user_store w)) (Some path) ix))
  | None => mret tt
  end.

(** The constructor, which makes the process's store: the snapshot at
    [index_path] when there is one, an empty [IndexFlatIP(embedding_dim)]
    otherwise. *)
Definition __init__ (embedding_dim : nat) (index_path : option string)
  : M unit :=
  w ← get;
  let fresh := mk_index embedding_dim [] in
  let ix :=
    match index_path with
    | Some p => default fresh (read_index w p)
    | None => fresh
    end in
  modify (set_user_store (mk_faiss_store embedding_dim index_path ix)).

End Methods.
End FAISSVectorStore.

(** ** [postgres_store.py] *)

Module PostgresVectorStore.
Section Methods.
Context `{Encoder}.
Import Models.

Definition add_document_chunks (chunks : list Py.str)
  (embeddings : list vector) (document_metadata : ref) : M unit :=
  SessionLocal ;;
  try_finally
    (try_except
       ((* 1. Create Document record *)
        md ← deref document_metadata;
        session_add (RDocument (new_document md)) ;;
        rows ← session_commit;
        document ← refreshed rows;
        (* 2. Add Chunks *)
        for_each (zip chunks embeddings)
          (fun '(chunk_text, emb) =>
             session_add
               (RChunk (mkChunk None (doc_id document) chunk_text (Some md)
                          (Some emb) None))) ;;
        session_commit ;;
        mret tt)
       (fun e => session_rollback ;; raise e))
    session_close.

(** [ORDER BY embedding <=> q]: ascending distance, rows without an
    embedding last. *)
Definition nearer (q : vector) (y x : Chunk) : bool :=
  match embedding y, embedding x with
  | Some vy, Some vx =>
      scalar_ltb (cosine_distance vy q) (cosine_distance vx q)
  | Some _, None => true
  | None, _ => false
  end.

Definition similarity_search (query_embedding : vector) (top_k : Z)
  : M (list result) :=
  SessionLocal ;;
  try_finally
    (w ← get;
     if negb (length query_embedding =? D)%nat then raise ValueError
     else if (top_k <? 0)%Z then raise ProgrammingError
     else
       let results :=
         take (Z.to_nat top_k) (sort_by (nearer query_embedding) (chunks w)) in
       mret (map (fun r => GeneralResult (Models.text r)
                             (default ∅ (metadata_json r))) results))
    session_close.

End Methods.
End PostgresVectorStore.

(** ** [vector_manager.py] *)

Module VectorManager.
Section Methods.
Context `{Encoder}.
Import EmbeddingModel.

(** [c["text"] if isinstance(c, dict) else c] *)
Definition text_of (c : chunk + Py.str) : Py.str :=
  match c with
  | inl c => ChunkDict.text c
  | inr t => t
  end.

Definition add_general_documents (chunks : list (chunk + Py.str))
  (metadata : ref) : M unit :=
  dict_setitem metadata "source" (PStr (Py.s "general")) ;;
  let texts := map text_of chunks in
  let embeddings := embed_documents texts in
  PostgresVectorStore.add_document_chunks texts embeddings metadata.

Definition add_user_documents (chunks : list chunk) (metadata : ref) : M unit :=
  dict_setitem metadata "source" (PStr (Py.s "user")) ;;
  FAISSVectorStore.add_document_chunks chunks metadata ;;
  FAISSVectorStore.save_index None.

Definition search (query : Py.str) (top_k : Z) : M (list result) :=
  let query_emb := embed_query query in
  (* Search User FAISS first *)
  user_results ← FAISSVectorStore.similarity_search query top_k;
  (* Search General Postgres *)
  general_results ← PostgresVectorStore.similarity_search query_emb top_k;
  (* Merge results, prioritizing user docs *)
  let combined := user_results ++ general_results in
  mret (Py.slice_to top_k combined).

(** The constructor: the user store is a [FAISSVectorStore] of the
    default dimension at a fixed path. *)
Definition user_index_path : string := "data/indexes/faiss_user.index".

Definition __init__ : M unit :=
  FAISSVectorStore.__init__ 1024 (Some user_index_path).

End Methods.
End VectorManager.

(** What the pattern of [legal_chunker.py] matches, said without the
    matcher: one of the four keywords as written, whitespace, digits. *)
Module Markers.
Import Py LegalChunker.

Definition marker (m : str) : Prop :=
  exists kw ws ds,
    In kw keywords /\ m = kw ++ ws ++ ds
    /\ ws <> [] /\ forallb is_space ws = true
    /\ ds <> [] /\ forallb is_digit ds = true.

Definition starts_digit (t : str) : bool :=
  match t with
  | c :: _ => is_digit c
  | [] => false
  end.

(** No marker starts at the beginning of [t]. *)
Definition no_marker_at (t : str) : Prop :=
  forall m r, t = m ++ r -> ~ marker m.

(** [splits t g0 ms]: [t] is [g0] followed by the markers of [ms], each
    with the text after it; the markers are the leftmost ones, taken as
    long as possible, and no marker starts inside a gap. *)
Inductive splits : str -> str -> list (str * str) -> Prop :=
  | splits_end g :
      (forall a b, g = a ++ b -> b <> [] -> no_marker_at b) ->
      splits g g []
  | splits_marker g0 m rest g1 ms :
      (forall a b, g0 = a ++ b -> b <> [] -> no_marker_at (b ++ m ++ rest)) ->
      marker m ->
      starts_digit rest = false ->
      splits rest g1 ms ->
      splits (g0 ++ m ++ rest) g0 ((m, g1) :: ms).

(** A buffer as a section: stripped, and dropped when blank. *)
Definition emit (buffer : str) : list str :=
  if truthy (strip buffer) then [strip buffer] else [].

(** The pieces [re.split] returns for such a decomposition. *)
Definition pieces (g0 : str) (ms : list (str * str)) : list str :=
  g0 :: concat (map (fun '(m, g) => [m; g]) ms).

End Markers.

(** ** Specification-side definitions *)

(** The section split as the specification words it: the keywords
    [SECTION] and [CLAUSE] in any letter case, a word boundary before the
    keyword, whitespace and one or more digits after it. *)
Module SectionSpec.
Import Py.

Definition upper (c : ascii) : ascii :=
  let n := nat_of_ascii c in
  if (97 <=? n) && (n <=? 122) then ascii_of_nat (n - 32) else c.

Fixpoint strip_prefix_ci (p t : str) : option str :=
  match p, t with
  | [], _ => Some t
  | a :: p', b :: t' =>
      if Ascii.eqb (upper a) (upper b) then strip_prefix_ci p' t' else None
  | _ :: _, [] => None
  end.

Definition match_kw (kw t : str) : option (str * str) :=
  match strip_prefix_ci kw t with
  | None => None
  | Some r =>
      let '(ws, r1) := LegalChunker.span is_space r in
      let '(ds, r2) := LegalChunker.span is_digit r1 in
      if truthy ws && truthy ds
      then Some (take (length kw + length ws + length ds) t, r2)
      else None
  end.

(** [prev] is the character before the candidate position. *)
Definition match_marker (prev : option ascii) (t : str) : option (str * str) :=
  if match prev with Some c => is_word c | None => false end then None
  else
    match match_kw (s "SECTION") t with
    | Some r => Some r
    | None => match_kw (s "CLAUSE") t
    end.

(** The text before the first marker, then each marker with the text
    that follows it. *)
Fixpoint scan (fuel : nat) (prev : option ascii) (gap t : str)
  : str * list (str * str) :=
  match fuel with
  | O => (gap ++ t, [])
  | S fuel' =>
      match t with
      | [] => (gap, [])
      | c :: t' =>
          match match_marker prev t with
          | Some (m, rest) =>
              let '(g, ms) := scan fuel' (List.last (map Some m) None) [] rest in
              (gap, (m, g) :: ms)
          | None => scan fuel' (Some c) (gap ++ [c]) t'
          end
      end
  end.

Definition split_by_sections (txt : str) : list str :=
  let '(g0, ms) := scan (S (length txt)) None [] txt in
  (if truthy (strip g0) then [strip g0] else [])
  ++ map (fun '(m, g) => strip (m ++ [NL] ++ g)) ms.

End SectionSpec.

(** The packing loop again, keeping the sections of each chunk apart
    instead of joining them: the bookkeeping behind the statements about
    what a chunk is made of. *)
Module Packing.
Import Py LegalChunker.

(** [current] joined the way the loop joins it. *)
Fixpoint join (g : list str) : str :=
  match g with
  | [] => []
  | [x] => x
  | x :: g' => x ++ [NL; NL] ++ join g'
  end.

Definition tokens (self : LegalChunker.t) (g : list str) : nat :=
  list_sum (map (_count_tokens self) g).

Definition flush (done : list (list str)) (current : list str)
  : list (list str) :=
  match current with
  | [] => done
  | _ => done ++ [current]
  end.

Fixpoint groups_from (self : LegalChunker.t) (sections : list str)
  (done : list (list str)) (current : list str) : list (list str) :=
  match sections with
  | [] => flush done current
  | x :: rest =>
      if (Z.of_nat (tokens self current + _count_tokens self x)
          <=? chunk_size self)%Z
      then groups_from self rest done (current ++ [x])
      else groups_from self rest (flush done current) [x]
  end.

Definition groups (self : LegalChunker.t) (sections : list str)
  : list (list str) :=
  groups_from self sections [] [].

(** A section as [_split_by_sections] yields them. *)
Definition clean (x : str) : Prop := x <> [] /\ strip x = x.

(** The flush that ends [pack], on any state of the loop. *)
Definition finish (md : ref) (st : pack_state) : list chunk :=
  if truthy (strip (current_chunk st))
  then chunks st ++ [ChunkDict.mk (strip (current_chunk st)) (Some md)]
  else chunks st.

(** A group of two or more sections was accepted under the budget. *)
Definition within_budget (self : LegalChunker.t) (g : list str) : Prop :=
  g <> [] /\ (2 <= length g -> (Z.of_nat (tokens self g) <= chunk_size self)%Z).

End Packing.

(** The overlap loop after its first iteration, as a recursion on the
    text of the chunk appended last. *)
Fixpoint stitch (self : LegalChunker.t) (md : ref) (prev : Py.str)
  (cs : list chunk) : list chunk :=
  match cs with
  | [] => []
  | c :: cs' =>
      let merged :=
        Py.slice_from (- LegalChunker.chunk_overlap self) prev
        ++ [Py.NL; Py.NL] ++ ChunkDict.text c in
      ChunkDict.mk merged (Some md) :: stitch self md merged cs'
  end.

(** The overlap law as the specification states it: every chunk after the
    first starts with the last [chunk_overlap] characters of the
    preceding chunk's pre-overlap text and a blank line; the first chunk
    is the first packed chunk.  [packed] are the chunks before overlap,
    [final] the chunks returned. *)
Definition overlap_law (self : LegalChunker.t) (packed final : list chunk)
  : Prop :=
  final !! 0%nat = packed !! 0%nat
  /\ forall j p f,
       packed !! j = Some p ->
       final !! S j = Some f ->
       exists rest,
         ChunkDict.text f
         = Py.slice_from (- LegalChunker.chunk_overlap self) (ChunkDict.text p)
           ++ [Py.NL; Py.NL] ++ rest.

(** An operation that leaves the metadata dictionaries alone, whatever
    its outcome. *)
Definition keeps_heap `{Numeric} {A} (m : M A) : Prop :=
  forall w, heap (fst (m w)) = heap w.

(** What a caller sees through a chunk's ["metadata"] entry. *)
Definition metadata_of `{Numeric} (w : world) (c : chunk) : option dict :=
  match ChunkDict.metadata c with
  | Some r => heap w !! r
  | None => None
  end.

Definition is_user_result (r : result) : Prop :=
  match r with UserResult _ _ => True | GeneralResult _ _ => False end.

Definition is_general_result (r : result) : Prop :=
  match r with UserResult _ _ => False | GeneralResult _ _ => True end.

(** The entry of the result list for one position id, if its row
    exists. *)
Definition row_result `{Numeric} (cks : list Models.Chunk) (idx : Z)
  : option result :=
  match FAISSVectorStore.first_by_faiss_index_id cks idx with
  | Some c => Some (UserResult (Models.text c) (Models.document_id c))
  | None => None
  end.

(** The ephemeral add as a single logical unit: after a call, either the
    vectors were appended and a row was inserted for every chunk, or the
    index and the [chunks] table are as they were. *)
Definition add_is_atomic `{Encoder} (cs : list chunk) (md : ref) (w : world)
  : Prop :=
  let w' := fst (FAISSVectorStore.add_document_chunks cs md w) in
  let embeddings :=
    EmbeddingModel.embed_documents (map ChunkDict.text cs) in
  (xb (index (user_store w')) = xb (index (user_store w)) ++ embeddings
   /\ exists rows, chunks w' = chunks w ++ rows /\ length rows = length cs)
  \/ (xb (index (user_store w')) = xb (index (user_store w))
      /\ chunks w' = chunks w).

(** ** States of the two stores *)

Module Invariants.
Section Defs.
Context `{Numeric}.
Import Models.

(** A row as a flush wrote it: the pending row with an id. *)
Definition written_as (c r : Chunk) : Prop :=
  id r <> None
  /\ document_id r = document_id c
  /\ text r = text c
  /\ metadata_json r = metadata_json c
  /\ embedding r = embedding c
  /\ faiss_index_id r = faiss_index_id c.

(** The [Document] row as committed: the id it was given, the fields of
    the constructor call. *)
Definition with_id (i : uuid) (doc : Document) : Document :=
  mkDocument (Some i) (filename doc) (source_type doc) (language doc)
    (jurisdiction doc).

(** The row the persistent add makes of a text and its embedding. *)
Definition pending_chunk (doc : Document) (md : dict)
  (p : Py.str * vector) : Chunk :=
  mkChunk None (doc_id doc) (fst p) (Some md) (Some (snd p)) None.

(** Every position a row carries is a position of the index. *)
Definition positions_in_range (w : world) : Prop :=
  Forall (fun r => match faiss_index_id r with
                   | Some z => (0 <= z < Z.of_nat (ntotal (index (user_store w))))%Z
                   | None => True
                   end) (chunks w).

(** The index and the [chunks] table are in step: the positions of the
    rows are positions of the index, and every position of the index has
    a row. *)
Definition in_step (w : world) : Prop :=
  positions_in_range w
  /\ forall i, i < ntotal (index (user_store w)) ->
               row_result (chunks w) (Z.of_nat i) <> None.

(** Every chunk row points to a row of [documents]. *)
Definition references_documents (w : world) : Prop :=
  Forall (fun r => match document_id r with
                   | Some i =>
                       exists doc, In doc (documents w) /\ doc_id doc = Some i
                   | None => True
                   end) (chunks w).

(** The snapshot on disk is the index in memory. *)
Definition snapshot_current (w : world) : Prop :=
  match index_path (user_store w) with
  | Some p => FAISSVectorStore.read_index w p = Some (index (user_store w))
  | None => False
  end.

End Defs.
End Invariants.

(** ** [models.py]: the query log

    [id] and [timestamp] are not read anywhere and are left out. *)

Module QueryLog.
Record t := mk {
  query_text : Py.str;
  language : Py.str
}.
End QueryLog.

(** ** [generator.py] *)

Module LegalLLM.
Import Py.

(** [generator] stands for the [transformers] text-generation pipeline:
    the generated text it returns for a prompt, or [None] when the call
    raises. *)
Record t := mk { generator : str -> option str }.

Definition generate (self : t) (prompt : str) : str :=
  match generator self prompt with
  | Some generated_text =>
      (* Extract only the new generation (remove prompt) *)
      match LegalChunker.strip_prefix prompt generated_text with
      | Some rest => strip rest
      | None => generated_text
      end
  | None =>
      s "I apologize, but I encountered an error. Please consult a legal professional."
  end.

End LegalLLM.

(** ** [pipeline.py] *)

Module LegalRAGPipeline.
Section Methods.
Context `{Encoder}.
Import Py.

Record t := mk {
  llm : LegalLLM.t;
  system_prompt : str
}.

(** The process state together with the [query_logs] table. *)
Record state := mk_state {
  stores : world;
  query_logs : list QueryLog.t
}.

(** [chunk["text"]] on either kind of result. *)
Definition text_of (r : result) : str :=
  match r with
  | UserResult t _ => t
  | GeneralResult t _ => t
  end.

(** ["\n\n".join([chunk["text"] for chunk in retrieved_chunks])] *)
Definition _build_context (retrieved_chunks : list result) : str :=
  Packing.join (map text_of retrieved_chunks).

Definition _build_prompt (self : t) (query context : str) : str :=
  [NL] ++ system_prompt self ++ [NL; NL; NL]
  ++ s "Context:" ++ [NL] ++ context ++ [NL; NL; NL]
  ++ s "User Question:" ++ [NL] ++ query ++ [NL; NL; NL]
  ++ s "Answer:" ++ [NL].

Definition answer_query (self : t) (query language : str) (st : state)
  : state * outcome str :=
  (* 1. Retrieve relevant chunks *)
  match VectorManager.search query 5 (stores st) with
  | (w, Raise e) => (mk_state w (query_logs st), Raise e)
  | (w, Ok []) =>
      (mk_state w (query_logs st),
       Ok (s "No relevant legal information found."))
  | (w, Ok retrieved_chunks) =>
      (* 2. Build context *)
      let context := _build_context retrieved_chunks in
      (* 3. Build prompt *)
      let prompt := _build_prompt self query context in
      (* 4. Generate answer *)
      let response := LegalLLM.generate (llm self) prompt in
      (* 5. Log query: the commit refuses a NUL character *)
      if has_nul query || has_nul language
      then (mk_state w (query_logs st), Raise ValueError)
      else (mk_state w (query_logs st ++ [QueryLog.mk query language]),
            Ok response)
  end.

End Methods.
End LegalRAGPipeline.

(** [re.search(pattern, t) is not None] for the pattern of
    [legal_chunker.py]: a marker starts somewhere in [t]. *)
Module Pattern.
Import Py LegalChunker.

Fixpoint has_marker (t : str) : bool :=
  re_match t || match t with [] => false | _ :: t' => has_marker t' end.

End Pattern.

(** ** Instances used in the examples *)

Module Examples.
Import Py.

(** One token per character. *)
Definition chars : str -> list nat := map nat_of_ascii.

(** Three short sections, the middle one shorter than the overlap. *)
Definition lease : str :=
  s "SECTION 1 Rent is due monthly. SECTION 2 Ok. SECTION 3 No pets.".

(** Every section is its own chunk; twenty characters of overlap. *)
Definition one_per_section : LegalChunker.t := LegalChunker.mk 1 20 chars.

(** A long section between two short ones, with a budget of 14. *)
Definition statute : str :=
  s "SECTION 1 a SECTION 2 this one is long SECTION 3 b".

Definition budget14 : LegalChunker.t := LegalChunker.mk 14 20 chars.

(** Two sections of twelve tokens each, with a budget of 24. *)
Definition two_short : str := s "SECTION 1 a SECTION 2 b".

Definition budget24 : LegalChunker.t := LegalChunker.mk 24 20 chars.

(** Integer components, exact arithmetic. *)
Definition dot (a b : list Z) : Z := foldr Z.add 0%Z (zip_with Z.mul a b).

Definition ZNum : Numeric := {|
  scalar := Z;
  inner_product := dot;
  cosine_distance := fun a b => (1 - dot a b)%Z;
  scalar_ltb := Z.ltb
|}.

(** An encoder stub of dimension 1024: the first component counts the
    letter [e] in the text, the second is 1. *)
Definition count_e (t : str) : Z :=
  Z.of_nat (length (filter (fun c => c = "e"%char) t)).

Definition stub_encode (t : str) : list Z :=
  count_e t :: 1%Z :: replicate 1022 0%Z.

Definition stub : @Encoder ZNum := @Build_Encoder ZNum stub_encode.

Definition md0 : dict :=
  {[ "filename"%string := PStr (s "lease.txt") ]}.

(** A fresh process: empty tables, one metadata dictionary at address 1,
    an empty index of dimension 1024. *)
Definition w0 : @world ZNum :=
  mk_world [] [] 0 [] {[ 1 := md0 ]}
    (mk_faiss_store 1024 (Some "data/indexes/faiss_user.index"%string)
       (mk_index 1024 []))
    ∅.

(** Two uploads in a row, of two and of three chunks. *)
Definition upload1 : list chunk :=
  [ChunkDict.mk (s "Rent is due monthly.") None;
   ChunkDict.mk (s "No pets.") None].

Definition upload2 : list chunk :=
  [ChunkDict.mk (s "Deposit is one month.") None;
   ChunkDict.mk (s "Notice is sixty days.") None;
   ChunkDict.mk (s "Keys on exit.") None].

Definition w1 : @world ZNum :=
  Eval vm_compute in
    fst (@FAISSVectorStore.add_document_chunks ZNum stub upload1 1 w0).

Definition w2 : @world ZNum :=
  Eval vm_compute in
    fst (@FAISSVectorStore.add_document_chunks ZNum stub upload2 1 w1).

(** A chunk whose text holds a NUL character, which no string column
    takes. *)
Definition nul_chunk : chunk := ChunkDict.mk (s "Rent" ++ [Ascii.zero]) None.

(** The state after an add of the chunk with the NUL character. *)
Definition w_nul : @world ZNum :=
  Eval vm_compute in
    fst (@FAISSVectorStore.add_document_chunks ZNum stub [nul_chunk] 1 w0).

(** One uploaded chunk that has little in common with the query
    ["eviction"], and two general chunks that have a lot. *)
Definition w_hybrid : @world ZNum :=
  Eval vm_compute in
  fst ((@VectorManager.add_user_documents ZNum stub
          [ChunkDict.mk (s "A dog.") None] 1 ;;
        @VectorManager.add_general_documents ZNum stub
          [inr (s "eviction needs notice"); inr (s "see the decree")] 1)
         w0).

(** The state after the first upload with the row of position 0 gone. *)
Definition w_gap : @world ZNum :=
  Eval vm_compute in
  mk_world (documents w1) (drop 1 (chunks w1)) (uuid_next w1) [] (heap w1)
    (user_store w1) (files w1).

End Examples.

(** Further inputs: a blank text, and prose with no section marker that
    is longer than the budget of 14. *)
Module Cases.
Import Py.

Definition blank : str := s "  " ++ [NL; ascii_of_nat 9] ++ s " ".

Definition prose : str := s " The tenant shall pay the rent monthly. ".

(** No overlap asked for. *)
Definition no_overlap : LegalChunker.t := LegalChunker.mk 1 0 Examples.chars.

Import Examples.

(** A fresh process whose metadata dictionary has no ["filename"]. *)
Definition w_anon : @world ZNum :=
  mk_world [] [] 0 [] {[ 1 := ∅ ]}
    (mk_faiss_store 1024 (Some "data/indexes/faiss_user.index"%string)
       (mk_index 1024 []))
    ∅.

(** The state after the first upload through the manager. *)
Definition w_saved : @world ZNum :=
  Eval vm_compute in
    fst (@VectorManager.add_user_documents ZNum stub upload1 1 w0).

(** The state after a second upload through the manager, of the chunk
    with the NUL character, which raises. *)
Definition w_broken : @world ZNum :=
  Eval vm_compute in
    fst (@VectorManager.add_user_documents ZNum stub [nul_chunk] 1 w_saved).

(** A persistent add of two texts with one embedding. *)
Definition w_general : @world ZNum :=
  Eval vm_compute in
    fst (@PostgresVectorStore.add_document_chunks ZNum [s "a"; s "b"]
           [stub_encode (s "passage: a")] 1 w0).

(** A pipeline whose model repeats the prompt and then answers. *)
Definition rag : LegalRAGPipeline.t :=
  LegalRAGPipeline.mk
    (LegalLLM.mk (fun prompt => Some (prompt ++ s " Thirty days. ")))
    (s "You are a legal assistant.").

(** A persistent add with an embedding of dimension 3. *)
Definition w_failed : @world ZNum :=
  Eval vm_compute in
    fst (@PostgresVectorStore.add_document_chunks ZNum [s "Rent is due."]
           [[1; 2; 3]%Z] 1 w0).

End Cases.
(** * Properties *)

(** Closes an equation between closed terms by evaluating both sides. *)
Ltac by_evaluation :=
  match goal with
  | |- ?a = ?b => vm_cast_no_check (@eq_refl _ b)
  end.

(** ** Stripping *)

Module StripFacts.
Import Py.

Lemma lstrip_no_lead t : no_lead (lstrip t).
Proof.
  induction t as [|c t IH]; simpl; [exact I|].
  destruct (is_space c) eqn:E; [exact IH | exact E].
Qed.

Lemma lstrip_id t : no_lead t -> lstrip t = t.
Proof. destruct t as [|c t]; simpl; [reflexivity|]. intros ->. reflexivity. Qed.

Lemma lstrip_suffix t : exists p, t = p ++ lstrip t.
Proof.
  induction t as [|c t [p IH]]; simpl.
  - exists []. reflexivity.
  - destruct (is_space c).
    + exists (c :: p). simpl. congruence.
    + exists []. reflexivity.
Qed.

Lemma no_lead_app_l a b : a <> [] -> no_lead (a ++ b) <-> no_lead a.
Proof. destruct a; [congruence | reflexivity]. Qed.

Lemma rstrip_no_trail t : no_trail (rstrip t).
Proof. unfold no_trail, rstrip. rewrite rev_involutive. apply lstrip_no_lead. Qed.

Lemma rstrip_id t : no_trail t -> rstrip t = t.
Proof.
  unfold no_trail, rstrip. intros Hn. rewrite lstrip_id by exact Hn.
  apply rev_involutive.
Qed.

Lemma lstrip_keeps_no_trail t : no_trail t -> no_trail (lstrip t).
Proof.
  unfold no_trail. intros Hn.
  destruct (lstrip_suffix t) as [p Hp].
  destruct (lstrip t) as [|c u] eqn:E; [exact I|].
  rewrite Hp, rev_app_distr in Hn.
  apply no_lead_app_l in Hn; [exact Hn|].
  simpl. destruct (rev u); discriminate.
Qed.

Lemma strip_no_lead t : no_lead (strip t).
Proof. apply lstrip_no_lead. Qed.

Lemma strip_no_trail t : no_trail (strip t).
Proof. apply lstrip_keeps_no_trail, rstrip_no_trail. Qed.

Lemma strip_id t : no_lead t -> no_trail t -> strip t = t.
Proof.
  intros Hl Ht. unfold strip. rewrite (rstrip_id t Ht). apply lstrip_id, Hl.
Qed.

Lemma strip_idem t : strip (strip t) = strip t.
Proof. apply strip_id; [apply strip_no_lead | apply strip_no_trail]. Qed.

Lemma strip_fixed t : strip t = t -> no_lead t /\ no_trail t.
Proof.
  intros E. rewrite <- E. split; [apply strip_no_lead | apply strip_no_trail].
Qed.

Lemma truthy_true (t : str) : truthy t = true <-> t <> [].
Proof. destruct t; simpl; split; congruence. Qed.

Lemma truthy_false (t : str) : truthy t = false <-> t = [].
Proof. destruct t; simpl; split; congruence. Qed.

Lemma no_trail_app_r a b : b <> [] -> no_trail (a ++ b) <-> no_trail b.
Proof.
  intros Hb. unfold no_trail. rewrite rev_app_distr.
  apply no_lead_app_l. intros E. apply Hb.
  apply (f_equal (@rev ascii)) in E. rewrite rev_involutive in E. exact E.
Qed.

(** Text that starts and ends with visible characters keeps both ends
    when something is put in between. *)
Lemma strip_sandwich a m b :
  a <> [] -> b <> [] -> no_lead a -> no_trail b ->
  strip (a ++ m ++ b) = a ++ m ++ b.
Proof.
  intros Ha Hb Hl Ht. apply strip_id.
  - apply no_lead_app_l; assumption.
  - rewrite app_assoc. apply no_trail_app_r; assumption.
Qed.

(** Stripping on the right leaves alone what precedes a visible
    character. *)
Lemma rstrip_app_visible a b :
  no_trail a -> rstrip (a ++ b) = a ++ rstrip b.
Proof.
  intros Ht. unfold rstrip. rewrite rev_app_distr.
  assert (Hgen : forall x, lstrip (x ++ rev a) = lstrip x ++ rev a).
  { induction x as [|c x IH]; simpl.
    - apply lstrip_id. exact Ht.
    - destruct (is_space c); [exact IH | reflexivity]. }
  rewrite Hgen, rev_app_distr, rev_involutive. reflexivity.
Qed.

End StripFacts.

(** ** The pattern and [re.split] *)

Module SplitFacts.
Import Py LegalChunker Markers StripFacts.

Lemma strip_prefix_Some p t r : strip_prefix p t = Some r <-> t = p ++ r.
Proof.
  revert t. induction p as [|a p IH]; intros t; simpl.
  - split; congruence.
  - destruct t as [|b t]; [split; discriminate|].
    destruct (Ascii.eqb_spec a b) as [->|Hne].
    + rewrite IH. split; congruence.
    + split; [discriminate | congruence].
Qed.

Lemma span_app_eq f t : t = fst (span f t) ++ snd (span f t).
Proof.
  induction t as [|c t IH]; simpl; [reflexivity|].
  destruct (f c); [|reflexivity].
  destruct (span f t) as [a b]. simpl in *. congruence.
Qed.

Lemma span_all f t : forallb f (fst (span f t)) = true.
Proof.
  induction t as [|c t IH]; simpl; [reflexivity|].
  destruct (f c) eqn:E; [|reflexivity].
  destruct (span f t) as [a b]. simpl in *. rewrite E. exact IH.
Qed.

Lemma span_stop f t :
  match snd (span f t) with c :: _ => f c = false | [] => True end.
Proof.
  induction t as [|c t IH]; simpl; [exact I|].
  destruct (f c) eqn:E; [|exact E].
  destruct (span f t) as [a b]. exact IH.
Qed.

(** The longest prefix in the class is determined by where it stops. *)
Lemma span_unique f a b :
  forallb f a = true ->
  match b with c :: _ => f c = false | [] => True end ->
  span f (a ++ b) = (a, b).
Proof.
  intros Ha Hb. induction a as [|c a IH]; simpl.
  - destruct b as [|c b]; [reflexivity|]. simpl. rewrite Hb. reflexivity.
  - simpl in Ha. apply andb_prop in Ha as [-> Ha]. rewrite (IH Ha). reflexivity.
Qed.

Lemma digit_not_space c : is_digit c = true -> is_space c = false.
Proof.
  unfold is_digit, is_space. generalize (nat_of_ascii c). intros n Hd.
  apply andb_prop in Hd as [H1 H2].
  apply Nat.leb_le in H1. apply Nat.leb_le in H2.
  repeat (apply orb_false_intro); try apply andb_false_iff.
  - right. apply Nat.leb_gt. lia.
  - right. apply Nat.leb_gt. lia.
  - apply Nat.eqb_neq. lia.
  - apply Nat.eqb_neq. lia.
Qed.

Lemma starts_digit_stop r :
  starts_digit r = false <->
  match r with c :: _ => is_digit c = false | [] => True end.
Proof. destruct r; simpl; tauto. Qed.

(** One alternative, read back. *)
Lemma match_alt_Some kw t m r :
  match_alt kw t = Some (m, r) <->
  exists ws ds,
    t = m ++ r /\ m = kw ++ ws ++ ds
    /\ ws <> [] /\ forallb is_space ws = true
    /\ ds <> [] /\ forallb is_digit ds = true
    /\ starts_digit r = false.
Proof.
  unfold match_alt. split.
  - destruct (strip_prefix kw t) as [r0|] eqn:E0; [|discriminate].
    apply strip_prefix_Some in E0.
    pose proof (span_app_eq is_space r0) as E1.
    pose proof (span_all is_space r0) as A1.
    destruct (span is_space r0) as [ws r1]. simpl in E1, A1.
    pose proof (span_app_eq is_digit r1) as E2.
    pose proof (span_all is_digit r1) as A2.
    pose proof (span_stop is_digit r1) as S2.
    destruct (span is_digit r1) as [ds r2]. simpl in E2, A2, S2.
    destruct (truthy ws && truthy ds) eqn:T; [|discriminate].
    apply andb_prop in T as [T1 T2].
    apply truthy_true in T1. apply truthy_true in T2.
    intros [= <- <-]. exists ws, ds. repeat split; try assumption.
    + rewrite E0, E1, E2, <- !app_assoc. reflexivity.
    + apply starts_digit_stop. exact S2.
  - intros (ws & ds & -> & -> & Hws & Aws & Hds & Ads & Hr).
    rewrite <- !app_assoc.
    assert (E0 : strip_prefix kw (kw ++ ws ++ ds ++ r) = Some (ws ++ ds ++ r))
      by (apply strip_prefix_Some; reflexivity).
    rewrite E0.
    rewrite (span_unique is_space ws (ds ++ r) Aws).
    + rewrite (span_unique is_digit ds r Ads).
      * destruct ws; [congruence|]. destruct ds; [congruence|]. reflexivity.
      * apply starts_digit_stop. exact Hr.
    + destruct ds as [|c ds]; [congruence|]. simpl in *.
      apply andb_prop in Ads as [Hc _]. apply digit_not_space, Hc.
Qed.

(** Two keywords that both start the same text are the same keyword. *)
Lemma keywords_exclusive kw kw' r r' :
  In kw keywords -> In kw' keywords -> kw ++ r = kw' ++ r' -> kw = kw'.
Proof.
  unfold keywords. simpl.
  intros [<-|[<-|[<-|[<-|[]]]]] [<-|[<-|[<-|[<-|[]]]]] E;
    try reflexivity; exfalso; vm_compute in E; congruence.
Qed.

Lemma match_alts_Some kws t m r :
  match_alts kws t = Some (m, r) ->
  exists kw, In kw kws /\ match_alt kw t = Some (m, r).
Proof.
  induction kws as [|kw kws IH]; simpl; [discriminate|].
  destruct (match_alt kw t) as [[m' r']|] eqn:E.
  - intros [= <- <-]. exists kw. auto.
  - intros Hm. destruct (IH Hm) as (kw' & Hin & Ha). exists kw'. auto.
Qed.

Lemma match_alts_first kws kw t m r :
  In kw kws -> match_alt kw t = Some (m, r) ->
  (forall kw' m' r', In kw' kws -> match_alt kw' t = Some (m', r') ->
                     m' = m /\ r' = r) ->
  match_alts kws t = Some (m, r).
Proof.
  intros Hin Ha Huniq. induction kws as [|k kws IH]; [destruct Hin|].
  simpl. destruct (match_alt k t) as [[m' r']|] eqn:E.
  - destruct (Huniq k m' r' (or_introl eq_refl) E) as [-> ->]. reflexivity.
  - destruct Hin as [->|Hin]; [congruence|].
    apply IH; [exact Hin|]. intros kw' m' r' Hin'. apply Huniq. right. exact Hin'.
Qed.

(** Two readings of the same text as keyword, whitespace, digits and a
    rest that does not go on with a digit are the same reading. *)
Lemma match_alt_deterministic kw kw' t m r m' r' :
  In kw keywords -> In kw' keywords ->
  match_alt kw t = Some (m, r) -> match_alt kw' t = Some (m', r') ->
  m' = m /\ r' = r.
Proof.
  intros Hin Hin' Ha Ha'.
  assert (kw = kw') as <-.
  { apply match_alt_Some in Ha as (ws & ds & -> & -> & _).
    apply match_alt_Some in Ha' as (ws' & ds' & E & -> & _).
    rewrite <- !app_assoc in E.
    eapply keywords_exclusive; eauto. }
  rewrite Ha in Ha'. injection Ha' as <- <-. auto.
Qed.

(** The whole pattern, read back: the match is a marker followed by
    something that does not start with a digit. *)
Theorem match_pattern_Some t m r :
  match_pattern t = Some (m, r) <->
  t = m ++ r /\ marker m /\ starts_digit r = false.
Proof.
  unfold match_pattern. split.
  - intros Hm. apply match_alts_Some in Hm as (kw & Hin & Ha).
    apply match_alt_Some in Ha as (ws & ds & -> & -> & ? & ? & ? & ? & ?).
    repeat split; try assumption. exists kw, ws, ds. repeat split; assumption.
  - intros (-> & (kw & ws & ds & Hin & -> & ? & ? & ? & ?) & Hr).
    assert (Ha : match_alt kw ((kw ++ ws ++ ds) ++ r)
                 = Some (kw ++ ws ++ ds, r)).
    { apply match_alt_Some. exists ws, ds. repeat split; assumption. }
    apply (match_alts_first keywords kw _ _ _ Hin Ha).
    intros kw' m' r' Hin' Ha'.
    exact (match_alt_deterministic kw kw' _ _ _ _ _ Hin Hin' Ha Ha').
Qed.

Lemma span_app_all f a b :
  forallb f a = true ->
  span f (a ++ b) = (a ++ fst (span f b), snd (span f b)).
Proof.
  intros Ha. induction a as [|c a IH]; simpl.
  - destruct (span f b); reflexivity.
  - simpl in Ha. apply andb_prop in Ha as [-> Ha]. rewrite (IH Ha). reflexivity.
Qed.

(** The pattern fails exactly where no marker starts. *)
Theorem match_pattern_None t :
  match_pattern t = None <-> no_marker_at t.
Proof.
  split.
  - intros Hn m r -> (kw & ws & ds & Hin & -> & Hws & Aws & Hds & Ads).
    (* the digits may go on into [r] *)
    set (d2 := fst (span is_digit r)). set (r2 := snd (span is_digit r)).
    assert (Hs : match_pattern ((kw ++ ws ++ ds) ++ r)
                 = Some (kw ++ ws ++ ds ++ d2, r2)).
    { apply match_pattern_Some. repeat split.
      - rewrite (span_app_eq is_digit r) at 1. fold d2 r2.
        rewrite <- !app_assoc. reflexivity.
      - exists kw, ws, (ds ++ d2). repeat split; try assumption.
        + destruct ds; [congruence | discriminate].
        + rewrite forallb_app, Ads. apply span_all.
      - apply starts_digit_stop. apply span_stop. }
    congruence.
  - intros Hn. destruct (match_pattern t) as [[m r]|] eqn:E; [|reflexivity].
    apply match_pattern_Some in E as (-> & Hm & _).
    exfalso. exact (Hn m r eq_refl Hm).
Qed.

Lemma marker_nonempty m : marker m -> m <> [].
Proof.
  intros (kw & ws & ds & _ & -> & Hws & _). destruct kw; [|discriminate].
  destruct ws; [congruence | discriminate].
Qed.

Lemma marker_no_lead m : marker m -> no_lead m.
Proof.
  intros (kw & ws & ds & Hin & -> & _).
  unfold keywords in Hin. simpl in Hin.
  destruct Hin as [<-|[<-|[<-|[<-|[]]]]]; reflexivity.
Qed.

Lemma marker_no_trail m : marker m -> no_trail m.
Proof.
  intros (kw & ws & ds & _ & -> & _ & _ & Hds & Ads).
  rewrite app_assoc. apply no_trail_app_r; [exact Hds|].
  unfold no_trail.
  assert (Hall : forallb is_digit (rev ds) = true).
  { rewrite forallb_forall in *. intros x Hx. apply Ads, in_rev, Hx. }
  destruct (rev ds) as [|c u] eqn:E; [exact I|]. simpl in *.
  apply andb_prop in Hall as [Hc _]. apply digit_not_space, Hc.
Qed.

Lemma no_marker_at_nil : no_marker_at [].
Proof.
  intros m r E Hm. apply marker_nonempty in Hm.
  destruct m; [congruence | discriminate].
Qed.

Lemma no_marker_at_prefix a b : no_marker_at (a ++ b) -> no_marker_at a.
Proof.
  intros Hn m r -> Hm. apply (Hn m (r ++ b)); [|exact Hm].
  rewrite app_assoc. reflexivity.
Qed.

Lemma re_match_marker m : marker m -> re_match m = true.
Proof.
  intros Hm. unfold re_match.
  assert (E : match_pattern m = Some (m, [])).
  { apply match_pattern_Some. rewrite app_nil_r. auto. }
  rewrite E. reflexivity.
Qed.

Lemma re_match_no_marker g : no_marker_at g -> re_match g = false.
Proof.
  intros Hn. unfold re_match.
  apply match_pattern_None in Hn. rewrite Hn. reflexivity.
Qed.

(** A match consumes at least one character. *)
Lemma match_pattern_shorter t m r :
  match_pattern t = Some (m, r) -> length r < length t.
Proof.
  intros Hm. apply match_pattern_Some in Hm as (-> & Hm & _).
  apply marker_nonempty in Hm. rewrite length_app.
  destruct m; [congruence|]. simpl. lia.
Qed.

(** [re_split_from] finds the decomposition, whatever fuel above the
    length of the text it is given. *)
Lemma re_split_from_splits fuel : forall gap t,
  length t < fuel ->
  (forall a b, gap = a ++ b -> b <> [] -> no_marker_at (b ++ t)) ->
  exists g0 ms,
    splits (gap ++ t) g0 ms /\ re_split_from fuel gap t = pieces g0 ms.
Proof.
  induction fuel as [|fuel IH]; intros gap t Hlen Hinv; [lia|].
  destruct t as [|c t]; simpl.
  - exists gap, []. split; [|reflexivity].
    rewrite app_nil_r. apply splits_end.
    intros a b E Hb. specialize (Hinv a b E Hb).
    rewrite app_nil_r in Hinv. exact Hinv.
  - destruct (match_pattern (c :: t)) as [[m rest]|] eqn:E.
    + pose proof (match_pattern_shorter _ _ _ E) as Hshort.
      apply match_pattern_Some in E as (Et & Hm & Hr).
      destruct (IH [] rest) as (g1 & ms & Hs & Hp).
      * simpl in *. lia.
      * intros a b Hab Hb. destruct a; destruct b; simpl in Hab; congruence.
      * exists gap, ((m, g1) :: ms). split.
        -- rewrite Et. apply splits_marker; try assumption.
           intros a b Hab Hb. rewrite <- Et. apply (Hinv a b Hab Hb).
        -- rewrite Hp. reflexivity.
    + destruct (IH (gap ++ [c]) t) as (g0 & ms & Hs & Hp).
      * simpl in Hlen. lia.
      * intros a b Hab Hb.
        destruct (exists_last Hb) as (b' & x & ->).
        rewrite app_assoc in Hab. apply app_inj_tail in Hab as [-> <-].
        rewrite <- app_assoc. simpl.
        destruct b' as [|y b'].
        -- simpl. apply match_pattern_None. exact E.
        -- apply (Hinv a (y :: b') eq_refl). discriminate.
      * exists g0, ms. split; [|exact Hp].
        rewrite <- app_assoc in Hs. exact Hs.
Qed.

Theorem re_split_splits txt :
  exists g0 ms, splits txt g0 ms /\ re_split txt = pieces g0 ms.
Proof.
  unfold re_split.
  destruct (re_split_from_splits (S (length txt)) [] txt) as (g0 & ms & Hs & Hp).
  - lia.
  - intros a b Hab Hb. destruct a; destruct b; simpl in Hab; congruence.
  - exists g0, ms. auto.
Qed.

(** What a decomposition says about each piece. *)
Lemma splits_pieces t g0 ms :
  splits t g0 ms ->
  no_marker_at g0
  /\ Forall (fun '(m, g) => marker m /\ no_marker_at g) ms
  /\ t = g0 ++ concat (map (fun '(m, g) => m ++ g) ms).
Proof.
  induction 1 as [g Hg | g0 m rest g1 ms Hg Hm Hr Hs (IH1 & IH2 & IH3)].
  - repeat split.
    + destruct g as [|c g]; [apply no_marker_at_nil|].
      apply (Hg [] (c :: g) eq_refl). discriminate.
    + constructor.
    + simpl. rewrite app_nil_r. reflexivity.
  - repeat split.
    + destruct g0 as [|c g0]; [apply no_marker_at_nil|].
      apply (no_marker_at_prefix _ (m ++ rest)).
      apply (Hg [] (c :: g0) eq_refl). discriminate.
    + constructor; [split; assumption | exact IH2].
    + simpl. rewrite <- app_assoc, <- IH3. reflexivity.
Qed.

End SplitFacts.

(** ** [_split_by_sections] *)

Module SectionFacts.
Import Py LegalChunker Markers StripFacts SplitFacts Packing.

Lemma lstrip_app_space x c :
  is_space c = true ->
  lstrip (x ++ [c]) = match lstrip x with [] => [] | _ => lstrip x ++ [c] end.
Proof.
  intros Hc. induction x as [|y x IH]; simpl.
  - rewrite Hc. reflexivity.
  - destruct (is_space y); [exact IH | reflexivity].
Qed.

Lemma strip_cons_space c t : is_space c = true -> strip (c :: t) = strip t.
Proof.
  intros Hc. unfold strip, rstrip. simpl.
  rewrite (lstrip_app_space _ _ Hc).
  destruct (lstrip (rev t)) as [|y u] eqn:E; [reflexivity|].
  rewrite rev_app_distr. simpl. rewrite Hc. reflexivity.
Qed.

Lemma emit_cons_space c t : is_space c = true -> emit (c :: t) = emit t.
Proof. intros Hc. unfold emit. rewrite (strip_cons_space _ _ Hc). reflexivity. Qed.

(** A marker with what follows it, as a section: the marker stays in
    front. *)
Lemma strip_marker m x : marker m -> strip (m ++ x) = m ++ rstrip x.
Proof.
  intros Hm. unfold strip.
  rewrite (rstrip_app_visible _ _ (marker_no_trail _ Hm)).
  apply lstrip_id. apply no_lead_app_l.
  - apply marker_nonempty, Hm.
  - apply marker_no_lead, Hm.
Qed.

Lemma emit_marker m x : marker m -> emit (m ++ x) = [m ++ rstrip x].
Proof.
  intros Hm. unfold emit. rewrite (strip_marker _ _ Hm).
  pose proof (marker_nonempty _ Hm). destruct m; [congruence | reflexivity].
Qed.

Lemma split_loop_sections sections buffer :
  (if truthy (strip buffer) then sections ++ [strip buffer] else sections)
  = sections ++ emit buffer.
Proof. unfold emit. destruct (truthy (strip buffer)); [|rewrite app_nil_r]; reflexivity. Qed.

(** The loop over the pieces after the leading one. *)
Lemma split_loop_flat ms : forall sections buffer,
  Forall (fun '(m, g) => marker m /\ no_marker_at g) ms ->
  let '(sections', buffer') :=
    split_loop (concat (map (fun '(m, g) => [m; g]) ms)) sections buffer in
  sections' ++ emit buffer'
  = sections ++ emit buffer
    ++ map (fun '(m, g) => m ++ rstrip (NL :: g)) ms.
Proof.
  induction ms as [|[m g] ms IH]; intros sections buffer Hall; simpl.
  - rewrite app_nil_r. reflexivity.
  - apply Forall_cons in Hall as [[Hm Hg] Hall].
    rewrite (re_match_marker _ Hm), (re_match_no_marker _ Hg).
    rewrite split_loop_sections.
    specialize (IH (sections ++ emit buffer) (m ++ NL :: g) Hall).
    destruct (split_loop _ (sections ++ emit buffer) (m ++ NL :: g))
      as [s' b'].
    rewrite IH, (emit_marker _ _ Hm), <- !app_assoc. reflexivity.
Qed.

Lemma NL_is_space : is_space NL = true.
Proof. reflexivity. Qed.

(** C6 (as amended).  [_split_by_sections] cuts the text at the leftmost,
    longest substrings made of one of the four keywords exactly as
    written ([SECTION], [Section], [CLAUSE], [Clause]: these two casings
    only, and no word boundary is asked for), some whitespace and some
    digits.  The text is the leading piece followed by the markers, each
    with the text after it; the leading piece gives a section when it is
    not blank, and every marker gives a section that starts with the
    marker itself, then a newline and the text after it, stripped. *)
Theorem split_by_sections_at_markers txt :
  exists g0 ms,
    splits txt g0 ms
    /\ txt = g0 ++ concat (map (fun '(m, g) => m ++ g) ms)
    /\ Forall (fun '(m, _) => marker m) ms
    /\ _split_by_sections txt
       = emit g0 ++ map (fun '(m, g) => m ++ rstrip (NL :: g)) ms.
Proof.
  destruct (re_split_splits txt) as (g0 & ms & Hs & Hp).
  exists g0, ms.
  destruct (splits_pieces _ _ _ Hs) as (Hg0 & Hall & Htxt).
  repeat split; try assumption.
  - eapply Forall_impl; [exact Hall|]. intros [m g] [Hm _]. exact Hm.
  - unfold _split_by_sections. rewrite Hp. unfold pieces. simpl.
    rewrite (re_match_no_marker _ Hg0).
    pose proof (split_loop_flat ms [] (NL :: g0) Hall) as Hl.
    simpl in Hl. destruct (split_loop _ [] (NL :: g0)) as [s' b'].
    rewrite split_loop_sections, Hl.
    rewrite (emit_cons_space _ _ NL_is_space). reflexivity.
Qed.

(** C6 (as stated) fails: lower-case markers are not matched, and a
    keyword inside a longer word is. *)
Lemma split_by_sections_not_case_insensitive :
  _split_by_sections (s "section 1 rent section 2 term")
  = [s "section 1 rent section 2 term"]
  /\ SectionSpec.split_by_sections (s "section 1 rent section 2 term")
     = [s "section 1" ++ [NL] ++ s " rent"; s "section 2" ++ [NL] ++ s " term"]
  /\ _split_by_sections (s "SUBSECTION 1 rent")
     = [s "SUB"; s "SECTION 1" ++ [NL] ++ s " rent"]
  /\ SectionSpec.split_by_sections (s "SUBSECTION 1 rent")
     = [s "SUBSECTION 1 rent"].
Proof. vm_compute. repeat split; reflexivity. Qed.

(** Every section is non-empty and already stripped. *)
Lemma emit_clean buffer : Forall clean (emit buffer).
Proof.
  unfold emit. destruct (truthy (strip buffer)) eqn:E; constructor; [|constructor].
  split; [apply truthy_true, E | apply strip_idem].
Qed.

Lemma split_loop_clean splits : forall sections buffer,
  Forall clean sections -> Forall clean (fst (split_loop splits sections buffer)).
Proof.
  induction splits as [|part rest IH]; intros sections buffer Hs; simpl.
  - exact Hs.
  - destruct (re_match part); apply IH; [|exact Hs].
    rewrite split_loop_sections. apply Forall_app. split; [exact Hs | apply emit_clean].
Qed.

Theorem split_by_sections_clean txt : Forall clean (_split_by_sections txt).
Proof.
  unfold _split_by_sections.
  pose proof (split_loop_clean (re_split txt) [] [] (Forall_nil_2 _)) as Hc.
  destruct (split_loop (re_split txt) [] []) as [sections buffer]. simpl in Hc.
  rewrite split_loop_sections. apply Forall_app. split; [exact Hc | apply emit_clean].
Qed.

End SectionFacts.

(** ** The packing loop *)

Module PackFacts.
Import Py LegalChunker StripFacts Packing.

Lemma pack_finish self md secs :
  pack self md secs = finish md (fold_left (pack_step self md) secs pack_init).
Proof. reflexivity. Qed.

Lemma clean_iff x : clean x <-> x <> [] /\ no_lead x /\ no_trail x.
Proof.
  unfold clean. split.
  - intros [Hx E]. destruct (strip_fixed _ E). auto.
  - intros (Hx & Hl & Ht). split; [exact Hx | apply strip_id; assumption].
Qed.

Lemma pack_step_oversized self md st x :
  (chunk_size self < Z.of_nat (_count_tokens self x))%Z ->
  pack_step self md st x
  = mk_pack (finish md st) x (_count_tokens self x).
Proof.
  intros Hbig. unfold pack_step.
  destruct (Z.leb_spec (Z.of_nat (current_tokens st + _count_tokens self x))
              (chunk_size self)); [lia | reflexivity].
Qed.

Lemma pack_step_first self md x :
  pack_step self md pack_init x = mk_pack [] x (_count_tokens self x).
Proof.
  unfold pack_step, pack_init. simpl.
  destruct (Z.of_nat (_count_tokens self x) <=? chunk_size self)%Z; reflexivity.
Qed.

(** Chunks already completed are never touched again. *)
Lemma pack_step_prefix self md done st x :
  pack_step self md
    (mk_pack (done ++ chunks st) (current_chunk st) (current_tokens st)) x
  = let st' := pack_step self md st x in
    mk_pack (done ++ chunks st') (current_chunk st') (current_tokens st').
Proof.
  unfold pack_step. simpl.
  destruct (Z.of_nat (current_tokens st + _count_tokens self x)
            <=? chunk_size self)%Z; simpl; [reflexivity|].
  destruct (truthy (strip (current_chunk st))); simpl;
    rewrite <- ?app_assoc; reflexivity.
Qed.

Lemma fold_pack_prefix self md done secs : forall st,
  fold_left (pack_step self md) secs
    (mk_pack (done ++ chunks st) (current_chunk st) (current_tokens st))
  = let st' := fold_left (pack_step self md) secs st in
    mk_pack (done ++ chunks st') (current_chunk st') (current_tokens st').
Proof.
  induction secs as [|x secs IH]; intros st; simpl; [reflexivity|].
  rewrite pack_step_prefix. simpl. apply IH.
Qed.

Lemma finish_prefix md done st :
  finish md (mk_pack (done ++ chunks st) (current_chunk st) (current_tokens st))
  = done ++ finish md st.
Proof.
  unfold finish. simpl. destruct (truthy (strip (current_chunk st)));
    rewrite <- ?app_assoc; reflexivity.
Qed.

(** The sections before an oversized one, that section alone, and the
    sections after it are packed independently. *)
Theorem pack_oversized self md pre x post :
  clean x ->
  (chunk_size self < Z.of_nat (_count_tokens self x))%Z ->
  pack self md (pre ++ x :: post)
  = pack self md pre ++ [ChunkDict.mk x (Some md)] ++ pack self md post.
Proof.
  intros [Hne Hstrip] Hbig. rewrite !pack_finish.
  rewrite fold_left_app. simpl.
  rewrite (pack_step_oversized _ _ _ _ Hbig).
  set (P := finish md (fold_left (pack_step self md) pre pack_init)).
  assert (Hx : finish md (mk_pack [] x (_count_tokens self x))
               = [ChunkDict.mk x (Some md)]).
  { unfold finish. simpl. rewrite Hstrip. destruct x; [congruence | reflexivity]. }
  destruct post as [|y post]; simpl.
  - pose proof (finish_prefix md P (mk_pack [] x (_count_tokens self x))) as Hp.
    simpl in Hp. rewrite app_nil_r in Hp. rewrite Hp, Hx. reflexivity.
  - rewrite pack_step_first.
    assert (Hstep : pack_step self md (mk_pack P x (_count_tokens self x)) y
                    = mk_pack (P ++ [ChunkDict.mk x (Some md)]) y
                        (_count_tokens self y)).
    { unfold pack_step. simpl.
      destruct (Z.leb_spec
                  (Z.of_nat (_count_tokens self x + _count_tokens self y))
                  (chunk_size self)); [lia|].
      rewrite Hstrip. destruct x; [congruence | reflexivity]. }
    rewrite Hstep.
    pose proof (fold_pack_prefix self md (P ++ [ChunkDict.mk x (Some md)]) post
                  (mk_pack [] y (_count_tokens self y))) as Hp.
    simpl in Hp. rewrite app_nil_r in Hp. rewrite Hp.
    rewrite finish_prefix, <- app_assoc. reflexivity.
Qed.

(** *** The sections of each chunk *)

Lemma join_snoc g x : g <> [] -> join (g ++ [x]) = join g ++ [NL; NL] ++ x.
Proof.
  induction g as [|y g IH]; [congruence|]. intros _.
  destruct g as [|z g]; [reflexivity|].
  change (join ((y :: z :: g) ++ [x])) with (y ++ [NL; NL] ++ join ((z :: g) ++ [x])).
  rewrite IH by discriminate.
  change (join (y :: z :: g)) with (y ++ [NL; NL] ++ join (z :: g)).
  rewrite <- !app_assoc. reflexivity.
Qed.

Lemma join_clean g : g <> [] -> Forall clean g -> clean (join g).
Proof.
  induction g as [|y g IH]; [congruence|]. intros _ Hall.
  apply Forall_cons in Hall as [Hy Hg].
  destruct g as [|z g]; [exact Hy|].
  change (join (y :: z :: g)) with (y ++ [NL; NL] ++ join (z :: g)).
  specialize (IH ltac:(discriminate) Hg).
  apply clean_iff in Hy as (Hy & Hl & _).
  apply clean_iff in IH as (Hj & _ & Ht).
  apply clean_iff. repeat split.
  - destruct y; [congruence | discriminate].
  - apply no_lead_app_l; assumption.
  - rewrite app_assoc. apply no_trail_app_r; assumption.
Qed.

Lemma tokens_snoc self g x :
  tokens self (g ++ [x]) = tokens self g + _count_tokens self x.
Proof. unfold tokens. rewrite map_app, list_sum_app. simpl. lia. Qed.

(** The state of the loop and the bookkeeping agree. *)
Lemma fold_pack_groups self md secs : forall st done current,
  Forall clean secs -> Forall clean current ->
  chunks st = map (fun g => ChunkDict.mk (join g) (Some md)) done ->
  current_chunk st = join current ->
  current_tokens st = tokens self current ->
  finish md (fold_left (pack_step self md) secs st)
  = map (fun g => ChunkDict.mk (join g) (Some md))
      (groups_from self secs done current).
Proof.
  assert (Hflush : forall st done current,
    Forall clean current ->
    chunks st = map (fun g => ChunkDict.mk (join g) (Some md)) done ->
    current_chunk st = join current ->
    finish md st
    = map (fun g => ChunkDict.mk (join g) (Some md)) (flush done current)).
  { intros st done current Hc Hch Hcur. unfold finish. rewrite Hcur, Hch.
    destruct current as [|y g]; [reflexivity|].
    destruct (join_clean (y :: g) ltac:(discriminate) Hc) as [Hne Hst].
    unfold flush. rewrite map_app. cbn [map].
    rewrite Hst, (proj2 (truthy_true _) Hne). reflexivity. }
  induction secs as [|x secs IH]; intros st done current Hs Hc Hch Hcur Htok.
  - simpl. apply Hflush; assumption.
  - apply Forall_cons in Hs as [Hx Hs]. simpl.
    destruct (Z.of_nat (tokens self current + _count_tokens self x)
              <=? chunk_size self)%Z eqn:E.
    + apply IH; try assumption.
      * apply Forall_app. split; [exact Hc | constructor; [exact Hx|constructor]].
      * unfold pack_step. rewrite Htok, E. exact Hch.
      * unfold pack_step. rewrite Htok, E. simpl.
        rewrite Hcur. destruct current as [|y g]; [reflexivity|].
        rewrite join_snoc by discriminate.
        destruct (join_clean (y :: g) ltac:(discriminate) Hc) as [Hne _].
        rewrite (proj2 (truthy_true _) Hne). reflexivity.
      * unfold pack_step. rewrite Htok, E. simpl. symmetry. apply tokens_snoc.
    + apply IH; try assumption.
      * constructor; [exact Hx | constructor].
      * unfold pack_step. rewrite Htok, E. simpl.
        apply (Hflush st done current); assumption.
      * unfold pack_step. rewrite Htok, E. reflexivity.
      * unfold pack_step. rewrite Htok, E. unfold tokens. simpl. lia.
Qed.

Theorem pack_groups self md secs :
  Forall clean secs ->
  pack self md secs
  = map (fun g => ChunkDict.mk (join g) (Some md)) (groups self secs).
Proof.
  intros Hs. rewrite pack_finish. unfold groups.
  apply (fold_pack_groups self md secs pack_init [] []); auto.
Qed.

Lemma concat_flush done current :
  concat (flush done current) = concat done ++ current.
Proof.
  destruct current; simpl; [rewrite app_nil_r; reflexivity|].
  rewrite concat_app. simpl. rewrite app_nil_r. reflexivity.
Qed.

(** The groups are the sections, in order, cut into runs. *)
Lemma groups_from_concat self secs : forall done current,
  concat (groups_from self secs done current) = concat done ++ current ++ secs.
Proof.
  induction secs as [|x secs IH]; intros done current; simpl.
  - rewrite app_nil_r. apply concat_flush.
  - destruct (_ <=? _)%Z; rewrite IH.
    + rewrite <- app_assoc. reflexivity.
    + rewrite concat_flush, <- app_assoc. reflexivity.
Qed.

Lemma groups_from_budget self secs : forall done current,
  Forall (within_budget self) done ->
  (2 <= length current ->
   (Z.of_nat (tokens self current) <= chunk_size self)%Z) ->
  Forall (within_budget self) (groups_from self secs done current).
Proof.
  assert (Hflush : forall done current,
    Forall (within_budget self) done ->
    (2 <= length current ->
     (Z.of_nat (tokens self current) <= chunk_size self)%Z) ->
    Forall (within_budget self) (flush done current)).
  { intros done current Hd Hc. destruct current as [|y g]; [exact Hd|].
    apply Forall_app. split; [exact Hd|].
    constructor; [|constructor]. split; [discriminate | exact Hc]. }
  induction secs as [|x secs IH]; intros done current Hd Hc; simpl.
  - apply Hflush; assumption.
  - destruct (Z.leb_spec (Z.of_nat (tokens self current + _count_tokens self x))
                (chunk_size self)) as [Hle|Hgt].
    + apply IH; [exact Hd|]. intros _. rewrite tokens_snoc. exact Hle.
    + apply IH; [apply Hflush; assumption|]. simpl. lia.
Qed.

End PackFacts.

(** ** The overlap loop *)

Module OverlapFacts.
Import Py LegalChunker StripFacts Packing.

Lemma last_snoc_default {A} (l : list A) (x d d' : A) :
  List.last (l ++ [x]) d = x /\ (l <> [] -> List.last l d = List.last l d').
Proof.
  split; [apply last_last|].
  induction l as [|y l IH]; [congruence|]. intros _.
  destruct l as [|z l]; [reflexivity|]. apply IH. discriminate.
Qed.

(** After the first iteration the loop only ever looks at the chunk it
    appended last. *)
Lemma overlap_loop_stitch self md cs : forall acc f i,
  i <> 0 ->
  overlap_loop self md (acc ++ [f]) i cs
  = acc ++ f :: stitch self md (ChunkDict.text f) cs.
Proof.
  induction cs as [|c cs IH]; intros acc f i Hi; simpl.
  - reflexivity.
  - unfold overlap_step. destruct (Nat.eqb_spec i 0) as [->|_]; [congruence|].
    rewrite (proj1 (last_snoc_default acc f c c)).
    rewrite (IH (acc ++ [f]) _ (S i)) by discriminate.
    rewrite <- app_assoc. reflexivity.
Qed.

Theorem chunk_text_stitch self txt md :
  chunk_text self txt md
  = match pack self md (_split_by_sections txt) with
    | [] => []
    | c :: cs => c :: stitch self md (ChunkDict.text c) cs
    end.
Proof.
  unfold chunk_text. destruct (pack self md (_split_by_sections txt)) as [|c cs];
    [reflexivity|].
  simpl. unfold overlap_step. simpl.
  apply (overlap_loop_stitch self md cs [] c 1). discriminate.
Qed.

Lemma stitch_length self md cs : forall prev,
  length (stitch self md prev cs) = length cs.
Proof. induction cs as [|c cs IH]; intros prev; simpl; [|rewrite IH]; reflexivity. Qed.

(** Each stitched chunk is built from the chunk emitted just before it. *)
Lemma stitch_lookup self md cs : forall f0 j c,
  cs !! j = Some c ->
  exists fprev f,
    (f0 :: stitch self md (ChunkDict.text f0) cs) !! j = Some fprev
    /\ stitch self md (ChunkDict.text f0) cs !! j = Some f
    /\ f = ChunkDict.mk
             (slice_from (- chunk_overlap self) (ChunkDict.text fprev)
              ++ [NL; NL] ++ ChunkDict.text c) (Some md).
Proof.
  induction cs as [|c1 cs IH]; intros f0 j c Hc; [discriminate|].
  destruct j as [|j]; simpl in *.
  - injection Hc as <-. eexists _, _. repeat split.
  - destruct (IH (ChunkDict.mk
                    (slice_from (- chunk_overlap self) (ChunkDict.text f0)
                     ++ NL :: NL :: ChunkDict.text c1) (Some md)) j c Hc)
      as (fprev & f & H1 & H2 & H3).
    exists fprev, f. auto.
Qed.

(** The last [n] characters of a text that ends with [b] are those of
    [b], as long as [b] has that many. *)
Lemma slice_from_tail (n : Z) (a b : str) :
  (0 < n <= Z.of_nat (length b))%Z ->
  slice_from (- n) (a ++ b) = slice_from (- n) b.
Proof.
  intros Hn. unfold slice_from.
  destruct (Z.ltb_spec (- n) 0); [|lia].
  rewrite Z.opp_involutive, length_app.
  replace (length a + length b - Z.to_nat n)
    with (length a + (length b - Z.to_nat n)) by lia.
  rewrite drop_app_add'; reflexivity.
Qed.

End OverlapFacts.

(** ** The chunker: claims *)

Module ChunkerClaims.
Import Py LegalChunker StripFacts Packing SectionFacts PackFacts OverlapFacts.
Import Examples.

(** C4 (as amended).  The chunker returns as many chunks as it packed;
    the first one is the first packed chunk, unchanged.  Every later
    chunk is the last [chunk_overlap] characters of the chunk emitted
    just before it (that chunk's final text, its own overlap prefix
    included), a blank line, and its own packed text.  Those characters
    are the tail of the preceding chunk's pre-overlap text for the second
    chunk, and for a later chunk whenever
    [0 < chunk_overlap <= ] the length of that pre-overlap text. *)
Theorem overlap_from_previous_emitted self txt md :
  let packed := pack self md (_split_by_sections txt) in
  let final := chunk_text self txt md in
  length final = length packed
  /\ final !! 0 = packed !! 0
  /\ forall j c,
       packed !! S j = Some c ->
       exists fprev f,
         final !! j = Some fprev
         /\ final !! S j = Some f
         /\ ChunkDict.text f
            = slice_from (- chunk_overlap self) (ChunkDict.text fprev)
              ++ [NL; NL] ++ ChunkDict.text c
         /\ forall p,
              packed !! j = Some p ->
              j = 0
              \/ (0 < chunk_overlap self
                  <= Z.of_nat (length (ChunkDict.text p)))%Z ->
              slice_from (- chunk_overlap self) (ChunkDict.text fprev)
              = slice_from (- chunk_overlap self) (ChunkDict.text p).
Proof.
  intros packed final. subst final. rewrite chunk_text_stitch. fold packed.
  destruct packed as [|c0 cs]; [repeat split; intros; discriminate|].
  split; [simpl; rewrite stitch_length; reflexivity|].
  split; [reflexivity|].
  intros j c Hc. simpl in Hc.
  destruct (stitch_lookup self md cs c0 j c Hc) as (fprev & f & H1 & H2 & ->).
  exists fprev. eexists.
  split; [exact H1|]. split; [exact H2|]. split; [reflexivity|].
  intros p Hp [->|Hco].
  - simpl in H1, Hp. congruence.
  - destruct j as [|j]; [simpl in H1, Hp; congruence|].
    simpl in H1, Hp.
    destruct (stitch_lookup self md cs c0 j p Hp) as (f' & f'' & _ & H2' & ->).
    rewrite H2' in H1. injection H1 as <-. cbn [ChunkDict.text].
    change (NL :: NL :: ChunkDict.text p) with ([NL; NL] ++ ChunkDict.text p).
    rewrite app_assoc. apply slice_from_tail. exact Hco.
Qed.

(** C4 (as stated) fails on three sections when the middle one is shorter
    than the overlap: the third chunk starts inside the second chunk's
    own overlap prefix, not with the second section. *)
Lemma overlap_law_fails :
  ~ overlap_law one_per_section
      (pack one_per_section 1 (_split_by_sections lease))
      (chunk_text one_per_section lease 1).
Proof.
  intros [_ Hlaw].
  destruct (Hlaw 1
              (ChunkDict.mk (s "SECTION 2" ++ [NL] ++ s " Ok.") (Some 1))
              (ChunkDict.mk
                 (s "hly." ++ [NL; NL] ++ s "SECTION 2" ++ [NL] ++ s " Ok."
                  ++ [NL; NL] ++ s "SECTION 3" ++ [NL] ++ s " No pets.")
                 (Some 1)))
    as [rest E]; [vm_compute; reflexivity | vm_compute; reflexivity |].
  vm_compute in E. discriminate E.
Qed.

(** What the emitted chunk at a position has to do with the packed chunk
    at that position. *)
Lemma final_ends_with_packed self txt md j c :
  pack self md (_split_by_sections txt) !! j = Some c ->
  exists f overlap,
    chunk_text self txt md !! j = Some f
    /\ ChunkDict.text f = overlap ++ ChunkDict.text c
    /\ (j = 0 -> overlap = []).
Proof.
  rewrite chunk_text_stitch.
  destruct (pack self md (_split_by_sections txt)) as [|c0 cs]; [discriminate|].
  destruct j as [|j]; simpl.
  - intros [= <-]. exists c0, []. auto.
  - intros Hc. destruct (stitch_lookup self md cs c0 j c Hc) as (fprev & f & _ & H2 & ->).
    eexists _, _. split; [exact H2|]. split; [|discriminate].
    cbn [ChunkDict.text]. rewrite (app_assoc _ [NL; NL]). reflexivity.
Qed.

(** C7.  A section with more tokens than [chunk_size] is packed alone:
    the sections before it are packed as if the text ended there (so the
    buffer is flushed), the section is a chunk of its own with its whole
    text, and the sections after it are packed as if the text started
    there.  In the chunks returned, the chunk at that position ends with
    the whole section, after nothing but the overlap prefix, and it is
    the section itself when it comes first. *)
Theorem oversized_section_own_chunk self txt md pre x post :
  _split_by_sections txt = pre ++ x :: post ->
  (chunk_size self < Z.of_nat (_count_tokens self x))%Z ->
  let before := pack self md pre in
  pack self md (_split_by_sections txt)
  = before ++ [ChunkDict.mk x (Some md)] ++ pack self md post
  /\ length (chunk_text self txt md)
     = length before + 1 + length (pack self md post)
  /\ exists f overlap,
       chunk_text self txt md !! length before = Some f
       /\ ChunkDict.text f = overlap ++ x
       /\ (before = [] -> overlap = []).
Proof.
  intros Hsplit Hbig before.
  assert (Hx : clean x).
  { pose proof (split_by_sections_clean txt) as Hc. rewrite Hsplit in Hc.
    apply Forall_app in Hc as [_ Hc]. apply Forall_cons in Hc as [Hx _]. exact Hx. }
  assert (Hpack : pack self md (_split_by_sections txt)
                  = before ++ [ChunkDict.mk x (Some md)] ++ pack self md post).
  { rewrite Hsplit. apply pack_oversized; assumption. }
  split; [exact Hpack|]. split.
  - rewrite chunk_text_stitch, Hpack.
    destruct before as [|c0 cs]; simpl; rewrite ?stitch_length;
      rewrite ?length_app; simpl; lia.
  - destruct (final_ends_with_packed self txt md (length before)
                (ChunkDict.mk x (Some md))) as (f & overlap & H1 & H2 & H3).
    + rewrite Hpack. rewrite lookup_app_r by lia.
      rewrite Nat.sub_diag. reflexivity.
    + exists f, overlap. repeat split; try assumption.
      intros ->. apply H3. reflexivity.
Qed.

Lemma oversized_section_witness :
  _split_by_sections statute
  = [s "SECTION 1" ++ [NL] ++ s " a"]
    ++ (s "SECTION 2" ++ [NL] ++ s " this one is long")
    :: [s "SECTION 3" ++ [NL] ++ s " b"]
  /\ (chunk_size budget14
      < Z.of_nat (_count_tokens budget14
                    (s "SECTION 2" ++ [NL] ++ s " this one is long")))%Z
  /\ pack budget14 1 (_split_by_sections statute)
     = pack budget14 1 [s "SECTION 1" ++ [NL] ++ s " a"]
       ++ [ChunkDict.mk (s "SECTION 2" ++ [NL] ++ s " this one is long")
             (Some 1)]
       ++ pack budget14 1 [s "SECTION 3" ++ [NL] ++ s " b"].
Proof.
  assert (H1 : _split_by_sections statute
               = [s "SECTION 1" ++ [NL] ++ s " a"]
                 ++ (s "SECTION 2" ++ [NL] ++ s " this one is long")
                 :: [s "SECTION 3" ++ [NL] ++ s " b"])
    by (vm_compute; reflexivity).
  assert (H2 : (chunk_size budget14
                < Z.of_nat (_count_tokens budget14
                              (s "SECTION 2" ++ [NL] ++ s " this one is long")))%Z)
    by (vm_compute; reflexivity).
  split; [exact H1|]. split; [exact H2|].
  exact (proj1 (oversized_section_own_chunk budget14 statute 1 _ _ _ H1 H2)).
Defined.

(** C9.  The chunks packed from a text are the joins of consecutive runs
    of its sections, and a run of two or more sections has a token sum of
    at most [chunk_size].  The blank lines put between the sections are
    not counted: with one token per character and a budget of 24, two
    sections of 12 tokens are packed into one chunk whose text has 26. *)
Theorem packed_sections_within_budget :
  (forall self txt md,
     exists gs,
       concat gs = _split_by_sections txt
       /\ pack self md (_split_by_sections txt)
          = map (fun g => ChunkDict.mk (join g) (Some md)) gs
       /\ Forall (within_budget self) gs)
  /\ exists g c,
       pack budget24 1 (_split_by_sections two_short) = [c]
       /\ ChunkDict.text c = join g
       /\ length g = 2
       /\ (Z.of_nat (tokens budget24 g) <= chunk_size budget24)%Z
       /\ (chunk_size budget24
           < Z.of_nat (_count_tokens budget24 (ChunkDict.text c)))%Z.
Proof.
  split.
  - intros self txt md. exists (groups self (_split_by_sections txt)).
    split; [|split].
    + unfold groups. rewrite groups_from_concat. reflexivity.
    + apply pack_groups, split_by_sections_clean.
    + unfold groups. apply groups_from_budget; [constructor | simpl; lia].
  - exists [s "SECTION 1" ++ [NL] ++ s " a"; s "SECTION 2" ++ [NL] ++ s " b"].
    eexists. split; [vm_compute; reflexivity|].
    vm_compute. repeat split; congruence.
Qed.

End ChunkerClaims.

(** ** The monad and the session *)

Module StoreFacts.
Section Facts.
Context `{Encoder}.
Import Models.

Lemma bind_run {A B} (m : M A) (k : A -> M B) w :
  (m ≫= k) w
  = match m w with
    | (w', Ok a) => k a w'
    | (w', Raise e) => (w', Raise e)
    end.
Proof. reflexivity. Qed.

Lemma set_session_session p (w : world) : session (set_session p w) = p.
Proof. reflexivity. Qed.

Lemma set_session_twice p q (w : world) :
  set_session p (set_session q w) = set_session p w.
Proof. reflexivity. Qed.

Lemma for_each_session_add rows : forall w : world,
  for_each rows session_add w = (set_session (session w ++ rows) w, Ok tt).
Proof.
  induction rows as [|r rows IH]; intros w; simpl.
  - rewrite app_nil_r. destruct w; reflexivity.
  - rewrite bind_run. unfold session_add at 1. rewrite IH. simpl.
    rewrite <- app_assoc. reflexivity.
Qed.

(** *** Flushing chunk rows *)

(** A flush of chunk rows that goes through leaves [documents] alone and
    appends the rows, in order, changed in nothing but their ids. *)
Lemma flush_chunks_Ok cs : forall docs cks next done docs' cks' next' done',
  flush (map RChunk cs) docs cks next done = Ok (docs', cks', next', done') ->
  docs' = docs
  /\ exists rows,
       cks' = cks ++ rows
       /\ map faiss_index_id rows = map faiss_index_id cs
       /\ map text rows = map text cs
       /\ map document_id rows = map document_id cs
       /\ map embedding rows = map embedding cs
       /\ map metadata_json rows = map metadata_json cs.
Proof.
  induction cs as [|c cs IH]; intros docs cks next done docs' cks' next' done'.
  - simpl. intros [= <- <- <- <-]. split; [reflexivity|].
    exists []. rewrite app_nil_r. repeat split.
  - simpl. destruct (id c) eqn:Eid.
    + destruct (check_chunk docs c); [|discriminate].
      intros Hf. destruct (IH _ _ _ _ _ _ _ _ Hf) as (-> & rows & -> & ? & ? & ? & ? & ?).
      split; [reflexivity|]. exists (c :: rows).
      rewrite <- app_assoc. simpl. repeat split; congruence.
    + destruct (check_chunk docs _); [|discriminate].
      intros Hf. destruct (IH _ _ _ _ _ _ _ _ Hf) as (-> & rows & -> & ? & ? & ? & ? & ?).
      split; [reflexivity|]. eexists (_ :: rows).
      rewrite <- app_assoc. split; [reflexivity|].
      simpl. repeat split; congruence.
Qed.

(** *** [FAISSVectorStore.add_document_chunks], step by step *)

Lemma faiss_add_run (cs : list chunk) (md : ref) (w : world) :
  FAISSVectorStore.add_document_chunks cs md w
  = match heap w !! md with
    | None => (set_session [] w, Raise KeyError)
    | Some dct =>
        let doc :=
          mkDocument (Some (uuid_next w)) (filename (new_document dct))
            (source_type (new_document dct)) (language (new_document dct))
            (jurisdiction (new_document dct)) in
        match check_document doc with
        | Raise e => (set_session [RDocument (new_document dct)] w, Raise e)
        | Ok _ =>
            let w3 :=
              set_session []
                (set_tables (documents w ++ [doc]) (chunks w) (S (uuid_next w))
                   w) in
            match index_add
                    (EmbeddingModel.embed_documents (map ChunkDict.text cs))
                    w3 with
            | (w4, Raise e) => (w4, Raise e)
            | (w4, Ok _) =>
                let recs :=
                  FAISSVectorStore.chunk_records doc
                    (ntotal (index (user_store w))) cs in
                match flush recs (documents w4) (chunks w4) (uuid_next w4) []
                with
                | Raise e => (set_session recs w4, Raise e)
                | Ok (docs, cks, next, _) =>
                    (set_session [] (set_tables docs cks next w4), Ok tt)
                end
            end
        end
    end.
Proof.
  unfold FAISSVectorStore.add_document_chunks.
  rewrite bind_run. unfold SessionLocal at 1.
  rewrite bind_run. unfold deref at 1. simpl heap.
  destruct (heap w !! md) as [dct|]; [|reflexivity].
  rewrite bind_run. unfold session_add at 1.
  rewrite bind_run. unfold session_commit at 1. simpl.
  destruct (check_document _) eqn:Ec; [|reflexivity].
  rewrite bind_run. simpl.
  rewrite bind_run. unfold get at 1.
  rewrite bind_run. simpl.
  destruct (index_add _ _) as [w4 [[]|e]] eqn:Ei; [|reflexivity].
  rewrite bind_run, for_each_session_add.
  rewrite bind_run. unfold session_commit at 1. simpl.
  assert (Hs : session w4 = []).
  { unfold index_add in Ei. simpl in Ei.
    destruct (EmbeddingModel.embed_documents _); [discriminate|].
    destruct (forallb _ _); [|discriminate].
    injection Ei as <-. reflexivity. }
  rewrite Hs. simpl.
  destruct (flush _ _ _ _ _) as [[[[docs cks] next] rows]|e]; reflexivity.
Qed.

Lemma index_add_inv embs (w w4 : world) r :
  index_add embs w = (w4, r) ->
  match r with
  | Ok _ =>
      documents w4 = documents w /\ chunks w4 = chunks w
      /\ uuid_next w4 = uuid_next w /\ heap w4 = heap w
      /\ xb (index (user_store w4)) = xb (index (user_store w)) ++ embs
  | Raise _ => w4 = w
  end.
Proof.
  unfold index_add. destruct embs as [|v embs]; [intros [= <- <-]; reflexivity|].
  destruct (forallb _ _); intros [= <- <-]; [|reflexivity].
  repeat split.
Qed.

Lemma chunk_records_rows doc start (cs : list chunk) :
  FAISSVectorStore.chunk_records doc start cs
  = map RChunk
      (imap (fun i c =>
               mkChunk None (doc_id doc) (ChunkDict.text c) None None
                 (Some (Z.of_nat (start + i)))) cs).
Proof.
  unfold FAISSVectorStore.chunk_records, enumerate.
  assert (Hgen : forall (f : nat -> nat),
    map (fun '(i, c) =>
           RChunk (mkChunk None (doc_id doc) (ChunkDict.text c) None None
                     (Some (Z.of_nat (start + i)))))
        (imap (fun i x => (f i, x)) cs)
    = map RChunk
        (imap (fun i c =>
                 mkChunk None (doc_id doc) (ChunkDict.text c) None None
                   (Some (Z.of_nat (start + f i)))) cs)).
  { induction cs as [|c cs IH]; intros f; [reflexivity|].
    simpl. f_equal. apply (IH (f ∘ S)). }
  apply (Hgen (fun i => i)).
Qed.

Lemma map_imap_index {A B} (g : nat -> B) (l : list A) :
  forall k, imap (fun i _ => g (k + i)) l = map g (seq k (length l)).
Proof.
  induction l as [|x l IH]; intros k; [reflexivity|].
  simpl. rewrite Nat.add_0_r. f_equal.
  rewrite <- (IH (S k)). apply imap_ext. intros i y _. simpl.
  f_equal. lia.
Qed.

Lemma map_imap {A B C} (g : B -> C) (f : nat -> A -> B) (l : list A) :
  map g (imap f l) = imap (fun i x => g (f i x)) l.
Proof.
  revert f. induction l as [|x l IH]; intros f; [reflexivity|].
  simpl. f_equal. apply IH.
Qed.

Lemma imap_no_index {A B} (g : A -> B) (l : list A) :
  imap (fun _ x => g x) l = map g l.
Proof. induction l as [|x l IH]; [reflexivity|]. simpl. f_equal. exact IH. Qed.

(** What one call of the ephemeral add does to the index and to the
    tables, by outcome. *)
Lemma faiss_add_outcome (cs : list chunk) (md : ref) (w w' : world) r :
  FAISSVectorStore.add_document_chunks cs md w = (w', r) ->
  let N := ntotal (index (user_store w)) in
  let embeddings := EmbeddingModel.embed_documents (map ChunkDict.text cs) in
  match r with
  | Ok _ =>
      exists doc rows,
        documents w' = documents w ++ [doc]
        /\ chunks w' = chunks w ++ rows
        /\ map faiss_index_id rows
           = map (fun i => Some (Z.of_nat (N + i))) (seq 0 (length cs))
        /\ map text rows = map ChunkDict.text cs
        /\ map document_id rows = map (fun _ => doc_id doc) cs
        /\ xb (index (user_store w')) = xb (index (user_store w)) ++ embeddings
  | Raise _ =>
      chunks w' = chunks w
      /\ (xb (index (user_store w')) = xb (index (user_store w))
          \/ xb (index (user_store w'))
             = xb (index (user_store w)) ++ embeddings)
  end.
Proof.
  rewrite faiss_add_run. intros Hrun N embeddings.
  destruct (heap w !! md) as [dct|].
  2:{ injection Hrun as <- <-. split; [reflexivity | left; reflexivity]. }
  cbv zeta in Hrun.
  destruct (check_document _).
  2:{ injection Hrun as <- <-. split; [reflexivity | left; reflexivity]. }
  destruct (index_add _ _) as [w4 [[]|e]] eqn:Ei.
  2:{ apply index_add_inv in Ei. subst w4. injection Hrun as <- <-.
      split; [reflexivity | left; reflexivity]. }
  apply index_add_inv in Ei as (Hd & Hc & Hn & _ & Hx). simpl in Hd, Hc, Hx.
  rewrite chunk_records_rows in Hrun.
  destruct (flush _ _ _ _ _) as [[[[docs cks] next] rows]|e] eqn:Ef.
  - injection Hrun as <- <-.
    apply flush_chunks_Ok in Ef as (-> & rows' & -> & Hf & Ht & Hdoc & _).
    eexists _, rows'. simpl. rewrite Hd, Hc.
    split; [reflexivity|]. split; [reflexivity|].
    rewrite map_imap in Hf. rewrite map_imap in Ht. rewrite map_imap in Hdoc.
    simpl in Hf, Ht, Hdoc.
    split; [|split; [|split]].
    + rewrite Hf.
      apply (map_imap_index (fun i => Some (Z.of_nat (N + i))) cs 0).
    + rewrite Ht. apply imap_no_index.
    + rewrite Hdoc. apply (imap_no_index (fun _ => _)).
    + exact Hx.
  - injection Hrun as <- <-. simpl. split; [exact Hc | right; exact Hx].
Qed.

End Facts.
End StoreFacts.

(** ** The ephemeral index: claims *)

Module EphemeralClaims.
Import Models StoreFacts.

Section General.
Context `{Encoder}.

(** C2.  A successful add reads the index's count [N] before it appends:
    the index grows by the number of chunks, and the row written for the
    chunk at offset [i] carries that chunk's text and position [N + i].
    From an empty index the positions are [0 .. n-1]; a second add of [m]
    chunks gets [n .. n+m-1]. *)
Theorem positions_follow_index_count (cs : list chunk) (md : ref)
  (w w' : world) :
  FAISSVectorStore.add_document_chunks cs md w = (w', Ok tt) ->
  let N := ntotal (index (user_store w)) in
  ntotal (index (user_store w')) = N + length cs
  /\ exists rows,
       chunks w' = chunks w ++ rows
       /\ map faiss_index_id rows
          = map (fun i => Some (Z.of_nat (N + i))) (seq 0 (length cs))
       /\ map text rows = map ChunkDict.text cs.
Proof.
  intros Hrun N.
  destruct (faiss_add_outcome cs md w w' (Ok tt) Hrun)
    as (doc & rows & _ & Hc & Hf & Ht & _ & Hx).
  split.
  - unfold ntotal, N. rewrite Hx, length_app. f_equal.
    unfold EmbeddingModel.embed_documents.
    destruct (map ChunkDict.text cs) eqn:E.
    + apply (f_equal (@length _)) in E. rewrite length_map in E.
      simpl in *. lia.
    + rewrite <- E, !length_map. reflexivity.
  - exists rows. auto.
Qed.

(** C5 (as amended).  The add takes effect as a whole only when it
    returns: then the vectors are in the index and every chunk has its
    row.  When it raises, none of its chunk rows is written, and the
    index is as before or still holds the appended vectors: nothing undoes
    the append and nothing retries the rows. *)
Theorem add_without_compensation (cs : list chunk) (md : ref)
  (w w' : world) r :
  FAISSVectorStore.add_document_chunks cs md w = (w', r) ->
  let embeddings := EmbeddingModel.embed_documents (map ChunkDict.text cs) in
  match r with
  | Ok _ =>
      xb (index (user_store w')) = xb (index (user_store w)) ++ embeddings
      /\ exists rows, chunks w' = chunks w ++ rows /\ length rows = length cs
  | Raise _ =>
      chunks w' = chunks w
      /\ (xb (index (user_store w')) = xb (index (user_store w))
          \/ xb (index (user_store w'))
             = xb (index (user_store w)) ++ embeddings)
  end.
Proof.
  intros Hrun embeddings.
  pose proof (faiss_add_outcome cs md w w' r Hrun) as Hout.
  destruct r as [[]|e]; [|exact Hout].
  destruct Hout as (doc & rows & _ & Hc & _ & Ht & _ & Hx).
  split; [exact Hx|]. exists rows. split; [exact Hc|].
  apply (f_equal (@length _)) in Ht. rewrite !length_map in Ht. exact Ht.
Qed.

Lemma collect_omap cks ids : forall results,
  FAISSVectorStore.collect cks ids results
  = results ++ omap (row_result cks) ids.
Proof.
  induction ids as [|idx ids IH]; intros results; simpl.
  - rewrite app_nil_r. reflexivity.
  - unfold row_result at 1.
    destruct (FAISSVectorStore.first_by_faiss_index_id cks idx).
    + rewrite IH, <- app_assoc. reflexivity.
    + apply IH.
Qed.

Lemma omap_shorter {A B} (f : A -> option B) l : length (omap f l) <= length l.
Proof.
  induction l as [|x l IH]; cbn; [lia|]. destruct (f x); cbn; lia.
Qed.

Lemma index_search_length ix q k ids :
  index_search ix q k = Ok ids -> length ids = Z.to_nat k.
Proof.
  unfold index_search. destruct (negb _); [discriminate|].
  destruct (k <=? 0)%Z; [discriminate|]. intros [= <-].
  rewrite length_app, length_replicate, !length_map, length_take. lia.
Qed.

(** C8.  With a positive [k] and a query of the index's dimension the
    ephemeral search does not raise.  It asks the index for [k] position
    ids and returns, in that order, the text and document id of the first
    row stored under each id; an id with no row contributes nothing.  So
    the result has at most [k] entries, and it is empty when no id has a
    row. *)
Theorem ephemeral_search_drops_unmatched (query : Py.str) (k : Z) (w : world) :
  (0 < k)%Z ->
  length (EmbeddingModel.embed_query query) = d (index (user_store w)) ->
  exists ids,
    index_search (index (user_store w)) (EmbeddingModel.embed_query query) k
    = Ok ids
    /\ length ids = Z.to_nat k
    /\ FAISSVectorStore.similarity_search query k w
       = (set_session [] w, Ok (omap (row_result (chunks w)) ids))
    /\ length (omap (row_result (chunks w)) ids) <= Z.to_nat k
    /\ (Forall (fun idx => row_result (chunks w) idx = None) ids ->
        omap (row_result (chunks w)) ids = []).
Proof.
  intros Hk Hd.
  destruct (index_search (index (user_store w))
              (EmbeddingModel.embed_query query) k) as [ids|e] eqn:E.
  2:{ unfold index_search in E. rewrite Hd, Nat.eqb_refl in E. simpl in E.
      destruct (Z.leb_spec k 0); [lia | discriminate]. }
  exists ids. pose proof (index_search_length _ _ _ _ E) as Hlen.
  split; [reflexivity|]. split; [exact Hlen|]. split; [|split].
  - unfold FAISSVectorStore.similarity_search.
    rewrite bind_run. unfold SessionLocal at 1.
    rewrite bind_run. unfold get at 1.
    rewrite bind_run. unfold lift at 1. simpl. rewrite E.
    rewrite bind_run. unfold session_close at 1. simpl.
    rewrite collect_omap. reflexivity.
  - rewrite <- Hlen. apply omap_shorter.
  - clear E Hlen. intros Hall.
    induction Hall as [|idx ids' Hn _ IH]; [reflexivity|].
    cbn. rewrite Hn. exact IH.
Qed.

End General.

Import Examples.

Lemma positions_witness :
  @FAISSVectorStore.add_document_chunks ZNum stub upload2 1 w1 = (w2, Ok tt)
  /\ ntotal (index (user_store w1)) = 2
  /\ (ntotal (index (user_store w2)) = ntotal (index (user_store w1)) + length upload2
      /\ exists rows,
           chunks w2 = chunks w1 ++ rows
           /\ map faiss_index_id rows
              = map (fun i => Some (Z.of_nat (ntotal (index (user_store w1)) + i)))
                  (seq 0 (length upload2))
           /\ map text rows = map ChunkDict.text upload2).
Proof.
  assert (Hrun : @FAISSVectorStore.add_document_chunks ZNum stub upload2 1 w1
                 = (w2, Ok tt)) by by_evaluation.
  split; [exact Hrun|]. split; [by_evaluation|].
  exact (@positions_follow_index_count ZNum stub upload2 1 w1 w2 Hrun).
Defined.

(** C5 (as stated) fails: a chunk text the [chunks] table refuses makes
    the second commit raise after the vector was appended; the index then
    holds one vector and the table no row. *)
Lemma add_is_not_atomic : ~ @add_is_atomic ZNum stub [nul_chunk] 1 w0.
Proof.
  unfold add_is_atomic. vm_compute.
  intros [[_ (rows & E & L)]|[E _]].
  - destruct rows; discriminate.
  - discriminate.
Qed.

Lemma add_without_compensation_witness :
  @FAISSVectorStore.add_document_chunks ZNum stub [nul_chunk] 1 w0
  = (w_nul, Raise ValueError)
  /\ chunks w_nul = chunks w0
  /\ (xb (index (user_store w_nul)) = xb (index (user_store w0))
      \/ xb (index (user_store w_nul))
         = xb (index (user_store w0))
           ++ @EmbeddingModel.embed_documents ZNum stub
                (map ChunkDict.text [nul_chunk])).
Proof.
  assert (Hrun : @FAISSVectorStore.add_document_chunks ZNum stub [nul_chunk] 1 w0
                 = (w_nul, Raise ValueError)) by by_evaluation.
  split; [exact Hrun|].
  exact (@add_without_compensation ZNum stub [nul_chunk] 1 w0 w_nul
           (Raise ValueError) Hrun).
Defined.

Lemma ephemeral_search_witness :
  (0 < 3)%Z
  /\ length (@EmbeddingModel.embed_query ZNum stub (Py.s "pets"))
     = d (index (user_store w_gap))
  /\ snd (@FAISSVectorStore.similarity_search ZNum stub (Py.s "pets") 3 w_gap)
     = Ok [UserResult (Py.s "No pets.") (Some 0)]
  /\ exists ids,
       index_search (index (user_store w_gap))
         (@EmbeddingModel.embed_query ZNum stub (Py.s "pets")) 3
       = Ok ids
       /\ length ids = Z.to_nat 3
       /\ @FAISSVectorStore.similarity_search ZNum stub (Py.s "pets") 3 w_gap
          = (set_session [] w_gap, Ok (omap (row_result (chunks w_gap)) ids))
       /\ length (omap (row_result (chunks w_gap)) ids) <= Z.to_nat 3
       /\ (Forall (fun idx => row_result (chunks w_gap) idx = None) ids ->
           omap (row_result (chunks w_gap)) ids = []).
Proof.
  assert (H1 : (0 < 3)%Z) by lia.
  assert (H2 : length (@EmbeddingModel.embed_query ZNum stub (Py.s "pets"))
               = d (index (user_store w_gap))) by by_evaluation.
  split; [exact H1|]. split; [exact H2|]. split; [by_evaluation|].
  exact (@ephemeral_search_drops_unmatched ZNum stub (Py.s "pets") 3 w_gap H1 H2).
Defined.

End EphemeralClaims.

(** ** The persistent store and the manager: claims *)

Module ManagerClaims.
Import Models StoreFacts EphemeralClaims.

Section General.
Context `{Encoder}.

Lemma faiss_search_run (query : Py.str) (k : Z) (w : world) :
  FAISSVectorStore.similarity_search query k w
  = (set_session [] w,
     match index_search (index (user_store w))
             (EmbeddingModel.embed_query query) k with
     | Ok ids => Ok (omap (row_result (chunks w)) ids)
     | Raise e => Raise e
     end).
Proof.
  unfold FAISSVectorStore.similarity_search.
  rewrite bind_run. unfold SessionLocal at 1.
  rewrite bind_run. unfold get at 1.
  rewrite bind_run. unfold lift at 1. simpl.
  destruct (index_search _ _ _) as [ids|e]; [|reflexivity].
  rewrite bind_run. unfold session_close at 1. simpl.
  rewrite collect_omap. reflexivity.
Qed.

Lemma postgres_search_run (q : vector) (k : Z) (w : world) :
  PostgresVectorStore.similarity_search q k w
  = (set_session [] w,
     if negb (length q =? D)%nat then Raise ValueError
     else if (k <? 0)%Z then Raise ProgrammingError
     else Ok (map (fun r => GeneralResult (text r) (default ∅ (metadata_json r)))
                (take (Z.to_nat k)
                   (sort_by (PostgresVectorStore.nearer q) (chunks w))))).
Proof.
  unfold PostgresVectorStore.similarity_search.
  rewrite bind_run. unfold SessionLocal at 1.
  unfold try_finally. rewrite bind_run. unfold get at 1.
  destruct (negb _); [reflexivity|].
  destruct (k <? 0)%Z; reflexivity.
Qed.

Lemma omap_row_result_user cks ids :
  Forall is_user_result (omap (row_result cks) ids).
Proof.
  induction ids as [|idx ids IH]; cbn; [constructor|].
  unfold row_result at 1.
  destruct (FAISSVectorStore.first_by_faiss_index_id cks idx); cbn;
    [constructor; [exact I | exact IH] | exact IH].
Qed.

(** C3.  When the hybrid search returns, its result is the ephemeral
    store's results followed by the persistent store's results, cut to
    [k]: all of the ephemeral results that fit come first, whatever the
    similarities, and persistent results only fill the places left.  In
    particular the first ephemeral result, if there is one, is the first
    result. *)
Theorem hybrid_search_user_first (query : Py.str) (k : Z) (w w' : world) res :
  VectorManager.search query k w = (w', Ok res) ->
  exists user_results general_results,
    FAISSVectorStore.similarity_search query k w
    = (set_session [] w, Ok user_results)
    /\ PostgresVectorStore.similarity_search
         (EmbeddingModel.embed_query query) k (set_session [] w)
       = (w', Ok general_results)
    /\ res = take (Z.to_nat k) (user_results ++ general_results)
    /\ res = take (Z.to_nat k) user_results
             ++ take (Z.to_nat k - length user_results) general_results
    /\ Forall is_user_result user_results
    /\ Forall is_general_result general_results
    /\ (forall u, head user_results = Some u -> head res = Some u)
    /\ length res <= Z.to_nat k.
Proof.
  unfold VectorManager.search. rewrite bind_run, faiss_search_run.
  destruct (index_search _ _ _) as [ids|e] eqn:Ei; [|discriminate].
  assert (Hk : (0 < k)%Z).
  { unfold index_search in Ei. destruct (negb _); [discriminate|].
    destruct (Z.leb_spec k 0); [discriminate | lia]. }
  rewrite bind_run, postgres_search_run.
  destruct (negb _); [discriminate|].
  destruct (Z.ltb_spec k 0); [lia|].
  intros [= <- <-].
  eexists _, _. split; [reflexivity|]. split; [reflexivity|].
  assert (Hslice : forall l : list result,
            Py.slice_to k l = take (Z.to_nat k) l).
  { intros l. unfold Py.slice_to. destruct (Z.ltb_spec k 0); [lia | reflexivity]. }
  rewrite Hslice. split; [reflexivity|]. split; [apply take_app|].
  split; [apply omap_row_result_user|]. split.
  - generalize (take (Z.to_nat k)
                  (sort_by (PostgresVectorStore.nearer
                              (EmbeddingModel.embed_query query))
                     (chunks (set_session [] w)))).
    intros l. induction l; constructor; [exact I | assumption].
  - split.
    + intros u Hu. destruct (omap _ ids) as [|u' us]; [discriminate|].
      injection Hu as ->.
      destruct (Z.to_nat k) eqn:En; [lia | reflexivity].
    + rewrite length_take. lia.
Qed.

End General.

Import Examples.

Lemma hybrid_search_witness :
  @VectorManager.search ZNum stub (Py.s "eviction") 2 w_hybrid
  = (set_session [] w_hybrid,
     Ok [UserResult (Py.s "A dog.") (Some 0);
         GeneralResult (Py.s "see the decree")
           (<["source"%string := PStr (Py.s "general")]> md0)])
  /\ (dot (stub_encode (Py.s "query: eviction"))
         (stub_encode (Py.s "passage: A dog."))
      < dot (stub_encode (Py.s "query: eviction"))
          (stub_encode (Py.s "passage: eviction needs notice")))%Z
  /\ exists user_results general_results,
       @FAISSVectorStore.similarity_search ZNum stub (Py.s "eviction") 2 w_hybrid
       = (set_session [] w_hybrid, Ok user_results)
       /\ @PostgresVectorStore.similarity_search ZNum
            (@EmbeddingModel.embed_query ZNum stub (Py.s "eviction")) 2
            (set_session [] w_hybrid)
          = (set_session [] w_hybrid, Ok general_results)
       /\ [UserResult (Py.s "A dog.") (Some 0);
           GeneralResult (Py.s "see the decree")
             (<["source"%string := PStr (Py.s "general")]> md0)]
          = take (Z.to_nat 2) (user_results ++ general_results)
       /\ [UserResult (Py.s "A dog.") (Some 0);
           GeneralResult (Py.s "see the decree")
             (<["source"%string := PStr (Py.s "general")]> md0)]
          = take (Z.to_nat 2) user_results
            ++ take (Z.to_nat 2 - length user_results) general_results
       /\ Forall is_user_result user_results
       /\ Forall is_general_result general_results
       /\ (forall u, head user_results = Some u ->
           head [UserResult (Py.s "A dog.") (Some 0);
                 GeneralResult (Py.s "see the decree")
                   (<["source"%string := PStr (Py.s "general")]> md0)]
           = Some u)
       /\ length [UserResult (Py.s "A dog.") (Some 0);
                  GeneralResult (Py.s "see the decree")
                    (<["source"%string := PStr (Py.s "general")]> md0)]
          <= Z.to_nat 2.
Proof.
  assert (Hrun : @VectorManager.search ZNum stub (Py.s "eviction") 2 w_hybrid
     = (set_session [] w_hybrid,
        Ok [UserResult (Py.s "A dog.") (Some 0);
            GeneralResult (Py.s "see the decree")
              (<["source"%string := PStr (Py.s "general")]> md0)]))
    by by_evaluation.
  split; [exact Hrun|]. split; [vm_compute; reflexivity|].
  exact (@hybrid_search_user_first ZNum stub (Py.s "eviction") 2 w_hybrid _ _ Hrun).
Defined.

(** C1 (the code at the failing input).  A persistent add with a vector
    of dimension 3 raises, and the [Document] row committed before the
    chunks stays in the table, with no chunk. *)
Lemma postgres_add_keeps_document_row :
  let run :=
    @PostgresVectorStore.add_document_chunks ZNum [Py.s "Rent is due."]
      [[1; 2; 3]%Z] 1 w0 in
  snd run = Raise ValueError
  /\ documents w0 = []
  /\ documents (fst run)
     = [mkDocument (Some 0) (Some (PStr (Py.s "lease.txt"))) None None
          (Some (PStr (Py.s "Unknown")))]
  /\ chunks (fst run) = [].
Proof. vm_compute. repeat split; reflexivity. Qed.

End ManagerClaims.

(** ** Metadata dictionaries are shared, not copied *)

Module MetadataClaims.
Import Models StoreFacts.

Section General.
Context `{Encoder}.

Lemma keeps_heap_ret {A} (a : A) : keeps_heap (mret a : M A).
Proof. intros w. reflexivity. Qed.

Lemma keeps_heap_raise {A} e : keeps_heap (raise e : M A).
Proof. intros w. reflexivity. Qed.

Lemma keeps_heap_bind {A B} (m : M A) (k : A -> M B) :
  keeps_heap m -> (forall a, keeps_heap (k a)) -> keeps_heap (m ≫= k).
Proof.
  intros Hm Hk w. rewrite bind_run. specialize (Hm w).
  destruct (m w) as [w1 [a|e]]; simpl in *; [|exact Hm].
  rewrite Hk. exact Hm.
Qed.

Lemma keeps_heap_try_except {A} (m : M A) (h : exn -> M A) :
  keeps_heap m -> (forall e, keeps_heap (h e)) -> keeps_heap (try_except m h).
Proof.
  intros Hm Hh w. unfold try_except. specialize (Hm w).
  destruct (m w) as [w1 [a|e]]; simpl in *; [exact Hm|].
  rewrite Hh. exact Hm.
Qed.

Lemma keeps_heap_try_finally {A} (m : M A) (fin : M unit) :
  keeps_heap m -> keeps_heap fin -> keeps_heap (try_finally m fin).
Proof.
  intros Hm Hf w. unfold try_finally. specialize (Hm w).
  destruct (m w) as [w1 r]. specialize (Hf w1).
  destruct (fin w1) as [w2 [[]|e]]; simpl in *; congruence.
Qed.

Lemma keeps_heap_for_each {A} (l : list A) (body : A -> M unit) :
  (forall x, keeps_heap (body x)) -> keeps_heap (for_each l body).
Proof.
  intros Hb. induction l as [|x l IH]; simpl.
  - apply (keeps_heap_ret tt).
  - apply keeps_heap_bind; [apply Hb | intros _; exact IH].
Qed.

Lemma keeps_heap_get : keeps_heap get.
Proof. intros w. reflexivity. Qed.

Lemma keeps_heap_lift {A} (r : outcome A) : keeps_heap (lift r).
Proof. intros w. reflexivity. Qed.

Lemma keeps_heap_deref r : keeps_heap (deref r).
Proof. intros w. unfold deref. destruct (heap w !! r); reflexivity. Qed.

Lemma keeps_heap_SessionLocal : keeps_heap SessionLocal.
Proof. intros w. reflexivity. Qed.

Lemma keeps_heap_session_add r : keeps_heap (session_add r).
Proof. intros w. reflexivity. Qed.

Lemma keeps_heap_session_rollback : keeps_heap session_rollback.
Proof. intros w. reflexivity. Qed.

Lemma keeps_heap_session_close : keeps_heap session_close.
Proof. intros w. reflexivity. Qed.

Lemma keeps_heap_session_commit : keeps_heap session_commit.
Proof.
  intros w. unfold session_commit.
  destruct (flush _ _ _ _ _) as [[[[docs cks] next] rows]|e]; reflexivity.
Qed.

Lemma keeps_heap_refreshed rows : keeps_heap (refreshed rows).
Proof. intros w. destruct rows as [|[doc|c] rows]; reflexivity. Qed.

Lemma keeps_heap_index_add embs : keeps_heap (index_add embs).
Proof.
  intros w. unfold index_add. destruct embs; [reflexivity|].
  destruct (forallb _ _); reflexivity.
Qed.

Lemma keeps_heap_set_files fs : keeps_heap (modify (set_files fs)).
Proof. intros w. reflexivity. Qed.

Create HintDb keeps discriminated.
#[local] Hint Resolve keeps_heap_raise keeps_heap_get keeps_heap_lift
  keeps_heap_deref keeps_heap_SessionLocal keeps_heap_session_add
  keeps_heap_session_rollback keeps_heap_session_close
  keeps_heap_session_commit keeps_heap_refreshed keeps_heap_index_add
  keeps_heap_set_files : keeps.

(** Walks through a monadic body, one bind at a time. *)
Ltac keeps :=
  repeat first
    [ apply keeps_heap_bind; [|intros ?]
    | apply keeps_heap_try_finally
    | apply keeps_heap_try_except; [|intros ?]
    | apply keeps_heap_for_each; intros ?
    | apply (keeps_heap_ret tt)
    | progress cbv zeta
    | solve [auto with keeps] ].

Lemma keeps_heap_faiss_add (cs : list chunk) (md : ref) :
  keeps_heap (FAISSVectorStore.add_document_chunks cs md).
Proof. unfold FAISSVectorStore.add_document_chunks. keeps. Qed.

Lemma keeps_heap_save_index path : keeps_heap (FAISSVectorStore.save_index path).
Proof.
  unfold FAISSVectorStore.save_index.
  apply keeps_heap_bind; [apply keeps_heap_get|]. intros w0 w.
  destruct path as [[|c p]|]; destruct (index_path (user_store w0)) as [[|c' p']|];
    reflexivity.
Qed.

Lemma keeps_heap_postgres_add texts embs (md : ref) :
  keeps_heap (PostgresVectorStore.add_document_chunks texts embs md).
Proof.
  unfold PostgresVectorStore.add_document_chunks. keeps.
  destruct x as [chunk_text emb]. auto with keeps.
Qed.

(** The write [metadata[key] = v], followed by anything that leaves the
    dictionaries alone. *)
Lemma setitem_then {A} (md : ref) key v (rest : M A) (w w' : world) r dct :
  heap w !! md = Some dct ->
  keeps_heap rest ->
  (dict_setitem md key v ≫= fun _ => rest) w = (w', r) ->
  heap w' = <[md := <[key := v]> dct]> (heap w).
Proof.
  intros Hmd Hrest. rewrite bind_run. unfold dict_setitem.
  rewrite bind_run. unfold deref. rewrite Hmd. unfold modify.
  intros Hrun. specialize (Hrest (set_heap (<[md:=<[key:=v]> dct]> (heap w)) w)).
  rewrite Hrun in Hrest. exact Hrest.
Qed.

(** Every chunk of [chunk_text] carries the caller's dictionary itself. *)
Lemma chunk_text_metadata self txt (md : ref) :
  Forall (fun c => ChunkDict.metadata c = Some md)
    (LegalChunker.chunk_text self txt md).
Proof.
  rewrite OverlapFacts.chunk_text_stitch.
  rewrite PackFacts.pack_groups by apply SectionFacts.split_by_sections_clean.
  destruct (Packing.groups self _) as [|g gs]; [constructor|].
  simpl. constructor; [reflexivity|].
  generalize (Packing.join g).
  induction gs as [|g' gs IH]; intros prev; simpl; constructor;
    [reflexivity | apply IH].
Qed.

(** C10.  [add_user_documents] and [add_general_documents] write the
    ["source"] key into the dictionary the caller passed, at its own
    address, before anything else and whatever the outcome of the add:
    afterwards the heap is the old heap with that one dictionary updated.
    The chunks made by [chunk_text] with that dictionary all point to it,
    so each of them shows the new key. *)
Theorem metadata_mutated_in_place self txt (md : ref) dct (w : world) :
  heap w !! md = Some dct ->
  Forall (fun c => ChunkDict.metadata c = Some md)
    (LegalChunker.chunk_text self txt md)
  /\ (forall cs w' r,
        VectorManager.add_user_documents cs md w = (w', r) ->
        heap w' = <[md := <["source"%string := PStr (Py.s "user")]> dct]> (heap w)
        /\ Forall (fun c =>
                     metadata_of w' c
                     = Some (<["source"%string := PStr (Py.s "user")]> dct))
             (LegalChunker.chunk_text self txt md))
  /\ (forall gs w' r,
        VectorManager.add_general_documents gs md w = (w', r) ->
        heap w'
        = <[md := <["source"%string := PStr (Py.s "general")]> dct]> (heap w)
        /\ Forall (fun c =>
                     metadata_of w' c
                     = Some (<["source"%string := PStr (Py.s "general")]> dct))
             (LegalChunker.chunk_text self txt md)).
Proof.
  intros Hmd. pose proof (chunk_text_metadata self txt md) as Hshare.
  assert (Hview : forall (w' : world) v,
    heap w' = <[md := v]> (heap w) ->
    Forall (fun c => metadata_of w' c = Some v)
      (LegalChunker.chunk_text self txt md)).
  { intros w' v Hh. eapply Forall_impl; [exact Hshare|].
    intros c Hc. unfold metadata_of. rewrite Hc, Hh. apply lookup_insert_eq. }
  split; [exact Hshare|]. split.
  - intros cs w' r Hrun.
    assert (Hh : heap w'
                 = <[md := <["source"%string := PStr (Py.s "user")]> dct]> (heap w)).
    { eapply (setitem_then md _ _ _ w w' r dct Hmd); [|exact Hrun].
      apply keeps_heap_bind; [apply keeps_heap_faiss_add|].
      intros _. apply keeps_heap_save_index. }
    split; [exact Hh | apply Hview, Hh].
  - intros gs w' r Hrun.
    assert (Hh : heap w'
                 = <[md := <["source"%string := PStr (Py.s "general")]> dct]>
                     (heap w)).
    { eapply (setitem_then md _ _ _ w w' r dct Hmd); [|exact Hrun].
      apply keeps_heap_postgres_add. }
    split; [exact Hh | apply Hview, Hh].
Qed.

End General.

Import Examples.

Lemma metadata_mutated_witness :
  heap w0 !! 1 = Some md0
  /\ Forall (fun c => ChunkDict.metadata c = Some 1)
       (LegalChunker.chunk_text one_per_section lease 1)
  /\ (forall cs w' r,
        @VectorManager.add_user_documents ZNum stub cs 1 w0 = (w', r) ->
        heap w' = <[1 := <["source"%string := PStr (Py.s "user")]> md0]> (heap w0)
        /\ Forall (fun c =>
                     metadata_of w' c
                     = Some (<["source"%string := PStr (Py.s "user")]> md0))
             (LegalChunker.chunk_text one_per_section lease 1)).
Proof.
  assert (Hmd : heap w0 !! 1 = Some md0) by by_evaluation.
  split; [exact Hmd|].
  destruct (@metadata_mutated_in_place ZNum stub one_per_section lease 1 md0 w0 Hmd)
    as (H1 & H2 & _).
  split; [exact H1 | exact H2].
Defined.

End MetadataClaims.

(** ** The chunker on whole documents *)

Module ChunkerFacts.
Import Py LegalChunker Markers StripFacts SplitFacts SectionFacts Packing.
Import PackFacts OverlapFacts Pattern.

Lemma has_marker_suffix a b : has_marker (a ++ b) = false -> has_marker b = false.
Proof.
  induction a as [|c a IH]; simpl; [auto|].
  intros Hm. apply orb_false_elim in Hm as [_ Hm]. auto.
Qed.

Lemma has_marker_head t : has_marker t = false -> re_match t = false.
Proof.
  destruct t as [|c t]; [reflexivity|]. simpl.
  intros Hm. apply orb_false_elim in Hm as [Hm _]. exact Hm.
Qed.

(** A text in which the pattern matches nowhere is a single piece. *)
Lemma splits_no_marker txt g0 ms :
  has_marker txt = false -> splits txt g0 ms -> g0 = txt /\ ms = [].
Proof.
  intros Hm Hs. destruct Hs as [g Hg | g0 m rest g1 ms Hg Hmk Hr Hs]; [auto|].
  exfalso. apply has_marker_suffix, has_marker_head in Hm.
  unfold re_match in Hm.
  assert (E : match_pattern (m ++ rest) = Some (m, rest))
    by (apply match_pattern_Some; auto).
  rewrite E in Hm. discriminate.
Qed.

(** The sections, read off the pieces of the text. *)
Lemma split_by_sections_emit txt :
  exists g0 ms,
    splits txt g0 ms
    /\ _split_by_sections txt
       = emit g0 ++ map (fun '(m, g) => m ++ rstrip (NL :: g)) ms.
Proof.
  destruct (re_split_splits txt) as (g0 & ms & Hs & Hp).
  exists g0, ms. split; [exact Hs|].
  destruct (splits_pieces _ _ _ Hs) as (Hg0 & Hall & _).
  unfold _split_by_sections. rewrite Hp. unfold pieces. simpl.
  rewrite (re_match_no_marker _ Hg0).
  pose proof (split_loop_flat ms [] (NL :: g0) Hall) as Hl.
  simpl in Hl. destruct (split_loop _ [] (NL :: g0)) as [s' b'].
  rewrite split_loop_sections, Hl.
  rewrite (emit_cons_space _ _ NL_is_space). reflexivity.
Qed.

Lemma split_by_sections_no_marker txt :
  has_marker txt = false -> _split_by_sections txt = emit txt.
Proof.
  intros Hm. destruct (split_by_sections_emit txt) as (g0 & ms & Hs & ->).
  destruct (splits_no_marker _ _ _ Hm Hs) as [-> ->].
  simpl. apply app_nil_r.
Qed.

Lemma lstrip_blank t : forallb is_space t = true -> lstrip t = [].
Proof.
  induction t as [|c t IH]; simpl; [reflexivity|].
  intros Hb. apply andb_prop in Hb as [-> Hb]. auto.
Qed.

Lemma strip_blank t : forallb is_space t = true -> strip t = [].
Proof.
  intros Hb. unfold strip, rstrip. rewrite (lstrip_blank (rev t)); [reflexivity|].
  rewrite forallb_forall in *. intros x Hx. apply Hb, in_rev, Hx.
Qed.

Lemma re_match_lead_space c t : is_space c = true -> re_match (c :: t) = false.
Proof.
  intros Hc. apply re_match_no_marker. intros m r E Hm.
  pose proof (marker_nonempty _ Hm) as Hne.
  pose proof (marker_no_lead _ Hm) as Hl.
  destruct m as [|c' m]; [congruence|].
  injection E as <- _. simpl in Hl. congruence.
Qed.

Lemma blank_has_no_marker t : forallb is_space t = true -> has_marker t = false.
Proof.
  induction t as [|c t IH]; [reflexivity|]. simpl.
  intros Hb. apply andb_prop in Hb as [Hc Hb].
  rewrite (re_match_lead_space _ _ Hc). auto.
Qed.

Lemma pack_nil self md : pack self md [] = [].
Proof. reflexivity. Qed.

Lemma pack_single self md x :
  clean x -> pack self md [x] = [ChunkDict.mk x (Some md)].
Proof.
  intros [Hne Hs]. rewrite pack_finish. simpl. rewrite pack_step_first.
  unfold finish. simpl. rewrite Hs, (proj2 (truthy_true _) Hne). reflexivity.
Qed.

Lemma emit_visible t : strip t <> [] -> emit t = [strip t].
Proof. intros Hne. unfold emit. rewrite (proj2 (truthy_true _) Hne). reflexivity. Qed.

Lemma emit_blank t : strip t = [] -> emit t = [].
Proof. intros E. unfold emit. rewrite E. reflexivity. Qed.

Lemma chunk_text_blank self txt md :
  forallb is_space txt = true -> chunk_text self txt md = [].
Proof.
  intros Hb. unfold chunk_text.
  rewrite (split_by_sections_no_marker _ (blank_has_no_marker _ Hb)).
  rewrite (emit_blank _ (strip_blank _ Hb)). reflexivity.
Qed.

(** The text of a group holds each of its sections. *)
Lemma join_In g x : In x g -> exists a b, join g = a ++ x ++ b.
Proof.
  induction g as [|y g IH]; [intros []|].
  destruct g as [|z g].
  - intros [->|[]]. exists [], []. simpl. rewrite app_nil_r. reflexivity.
  - change (join (y :: z :: g)) with (y ++ [NL; NL] ++ join (z :: g)).
    intros [->|Hin].
    + exists [], ([NL; NL] ++ join (z :: g)). reflexivity.
    + destruct (IH Hin) as (a & b & ->).
      exists (y ++ [NL; NL] ++ a), b. rewrite <- !app_assoc. reflexivity.
Qed.

(** The groups of a text: what [pack] joins. *)
Lemma groups_of_text self txt md :
  let gs := groups self (_split_by_sections txt) in
  concat gs = _split_by_sections txt
  /\ pack self md (_split_by_sections txt)
     = map (fun g => ChunkDict.mk (join g) (Some md)) gs
  /\ Forall (fun g => g <> [] /\ Forall clean g) gs.
Proof.
  intros gs. subst gs.
  assert (Hc : concat (groups self (_split_by_sections txt))
               = _split_by_sections txt)
    by (unfold groups; rewrite groups_from_concat; reflexivity).
  split; [exact Hc|]. split; [apply pack_groups, split_by_sections_clean|].
  pose proof (groups_from_budget self (_split_by_sections txt) [] []
                (Forall_nil_2 _) ltac:(simpl; lia)) as Hb.
  pose proof (split_by_sections_clean txt) as Hcl. rewrite <- Hc in Hcl.
  fold (groups self (_split_by_sections txt)) in Hb. clear Hc.
  induction Hb as [|g gs [Hne _] _ IH]; constructor.
  - simpl in Hcl. apply Forall_app in Hcl as [Hg _]. auto.
  - apply IH. simpl in Hcl. apply Forall_app in Hcl as [_ Hgs]. exact Hgs.
Qed.

Lemma chunk_text_length self txt md :
  length (chunk_text self txt md) = length (pack self md (_split_by_sections txt)).
Proof.
  rewrite chunk_text_stitch.
  destruct (pack self md (_split_by_sections txt)) as [|c cs]; [reflexivity|].
  simpl. rewrite stitch_length. reflexivity.
Qed.

Lemma concat_nonempty_length {A} (gs : list (list A)) :
  Forall (fun g => g <> []) gs -> length gs <= length (concat gs).
Proof.
  induction 1 as [|g gs Hne _ IH]; simpl; [lia|].
  rewrite length_app. destruct g; [congruence|]. simpl. lia.
Qed.

(** Everything fits: one group. *)
Lemma groups_from_fits self secs : forall current,
  (Z.of_nat (tokens self (current ++ secs)) <= chunk_size self)%Z ->
  groups_from self secs [] current = Packing.flush [] (current ++ secs).
Proof.
  induction secs as [|x secs IH]; intros current Hfit; simpl.
  - rewrite app_nil_r. reflexivity.
  - assert (Htok : tokens self (current ++ x :: secs)
                   = tokens self current + _count_tokens self x
                     + tokens self secs).
    { unfold tokens. rewrite map_app, list_sum_app. simpl. lia. }
    destruct (Z.leb_spec (Z.of_nat (tokens self current + _count_tokens self x))
                (chunk_size self)) as [_|Hgt]; [|lia].
    rewrite IH; rewrite <- app_assoc; [reflexivity | exact Hfit].
Qed.

Lemma slice_from_neg_length (n : Z) (t : str) :
  (0 < n)%Z ->
  length (slice_from (- n) t) = Nat.min (Z.to_nat n) (length t)
  /\ exists a, t = a ++ slice_from (- n) t.
Proof.
  intros Hn. unfold slice_from. destruct (Z.ltb_spec (- n) 0); [|lia].
  rewrite Z.opp_involutive. split.
  - rewrite length_drop. lia.
  - exists (take (length t - Z.to_nat n) t). symmetry. apply take_drop.
Qed.

End ChunkerFacts.

(** ** The chunker: further properties *)

Module ChunkerProperties.
Import Py LegalChunker Markers StripFacts SplitFacts SectionFacts Packing.
Import PackFacts OverlapFacts Pattern ChunkerFacts.
Import Examples Cases.

(** X1.  A text made of whitespace only (the empty text included) has no
    section, and [chunk_text] returns no chunk for it. *)
Theorem blank_text_no_chunks self txt md :
  forallb is_space txt = true ->
  _split_by_sections txt = [] /\ chunk_text self txt md = [].
Proof.
  intros Hb.
  assert (Hs : _split_by_sections txt = []).
  { rewrite (split_by_sections_no_marker _ (blank_has_no_marker _ Hb)).
    apply emit_blank, strip_blank, Hb. }
  split; [exact Hs|]. unfold chunk_text. rewrite Hs. reflexivity.
Qed.

Lemma blank_text_witness :
  forallb is_space blank = true
  /\ _split_by_sections blank = [] /\ chunk_text budget14 blank 1 = [].
Proof.
  assert (Hb : forallb is_space blank = true) by reflexivity.
  split; [exact Hb|]. exact (blank_text_no_chunks budget14 blank 1 Hb).
Defined.

(** X2.  The token budget never cuts a text: when the pattern matches
    nowhere in a text that is not blank, the text is one section and
    [chunk_text] returns exactly one chunk, the stripped text, however
    many tokens it has. *)
Theorem unmarked_text_one_chunk self txt md :
  has_marker txt = false ->
  strip txt <> [] ->
  _split_by_sections txt = [strip txt]
  /\ chunk_text self txt md = [ChunkDict.mk (strip txt) (Some md)].
Proof.
  intros Hm Hne.
  assert (Hs : _split_by_sections txt = [strip txt]).
  { rewrite (split_by_sections_no_marker _ Hm). apply emit_visible, Hne. }
  split; [exact Hs|].
  rewrite chunk_text_stitch, Hs, pack_single; [reflexivity|].
  split; [exact Hne | apply strip_idem].
Qed.

Lemma unmarked_text_witness :
  has_marker prose = false
  /\ strip prose <> []
  /\ (chunk_size budget14 < Z.of_nat (_count_tokens budget14 (strip prose)))%Z
  /\ _split_by_sections prose = [strip prose]
  /\ chunk_text budget14 prose 1 = [ChunkDict.mk (strip prose) (Some 1)].
Proof.
  assert (Hm : has_marker prose = false) by reflexivity.
  assert (Hne : strip prose <> []) by (vm_compute; discriminate).
  split; [exact Hm|]. split; [exact Hne|]. split; [reflexivity|].
  exact (unmarked_text_one_chunk budget14 prose 1 Hm Hne).
Defined.

(** X3.  No section is ever cut: every section of the text is found
    whole, as one contiguous piece, in the text of one of the chunks
    returned. *)
Theorem sections_kept_whole self txt md :
  Forall (fun x =>
            exists f a b,
              In f (chunk_text self txt md)
              /\ ChunkDict.text f = a ++ x ++ b)
    (_split_by_sections txt).
Proof.
  destruct (groups_of_text self txt md) as (Hc & Hp & _).
  apply List.Forall_forall. intros x Hx.
  rewrite <- Hc in Hx. apply in_concat in Hx as (g & Hg & Hxg).
  apply list_elem_of_In, list_elem_of_lookup in Hg as [i Hi].
  destruct (join_In g x Hxg) as (a & b & Hj).
  destruct (ChunkerClaims.final_ends_with_packed self txt md i
              (ChunkDict.mk (join g) (Some md))) as (f & o & Hf & Ht & _).
  { rewrite Hp, list_lookup_fmap, Hi. reflexivity. }
  exists f, (o ++ a), b. split.
  - apply list_elem_of_In. eapply list_elem_of_lookup_2, Hf.
  - rewrite Ht. simpl. rewrite Hj, <- app_assoc. reflexivity.
Qed.

(** X4.  There are never more chunks than sections, no chunk has an
    empty text, and no chunk at all is returned exactly when the text has
    no section. *)
Theorem chunk_count_bounded self txt md :
  length (chunk_text self txt md) <= length (_split_by_sections txt)
  /\ Forall (fun f => ChunkDict.text f <> []) (chunk_text self txt md)
  /\ (chunk_text self txt md = [] <-> _split_by_sections txt = []).
Proof.
  destruct (groups_of_text self txt md) as (Hc & Hp & Hg).
  assert (Hlen : length (chunk_text self txt md)
                 = length (groups self (_split_by_sections txt))).
  { rewrite chunk_text_length, Hp, length_map. reflexivity. }
  split; [|split].
  - rewrite Hlen. rewrite <- Hc at 2. apply concat_nonempty_length.
    eapply Forall_impl; [exact Hg|]. intros g [Hne _]. exact Hne.
  - apply Forall_lookup. intros i f Hf.
    assert (Hi : i < length (groups self (_split_by_sections txt))).
    { rewrite <- Hlen. eapply lookup_lt_Some, Hf. }
    apply lookup_lt_is_Some in Hi as [g Hi].
    destruct (ChunkerClaims.final_ends_with_packed self txt md i
                (ChunkDict.mk (join g) (Some md))) as (f' & o & Hf' & Ht & _).
    { rewrite Hp, list_lookup_fmap, Hi. reflexivity. }
    rewrite Hf in Hf'. injection Hf' as <-. rewrite Ht. simpl.
    destruct (proj1 (Forall_lookup _ _) Hg i g Hi) as [Hne Hcl].
    destruct (join_clean g Hne Hcl) as [Hj _].
    intros E. apply app_eq_nil in E as [_ E]. exact (Hj E).
  - split.
    + intros E. rewrite E in Hlen. simpl in Hlen.
      destruct (groups self (_split_by_sections txt)); [|discriminate].
      symmetry. exact Hc.
    + intros E. unfold chunk_text. rewrite E. reflexivity.
Qed.

(** X5.  The overlap put in front of a chunk, by the sign of
    [chunk_overlap] (the slice [prev_text[-chunk_overlap:]]): for a
    positive value it is the end of the chunk emitted before, of
    [chunk_overlap] characters or that whole chunk if it is shorter; for
    zero it is not empty but the whole of the chunk emitted before; for a
    negative value it is that chunk without its first [-chunk_overlap]
    characters. *)
Theorem overlap_prefix_by_sign self txt md j c :
  pack self md (_split_by_sections txt) !! S j = Some c ->
  exists fprev f o,
    chunk_text self txt md !! j = Some fprev
    /\ chunk_text self txt md !! S j = Some f
    /\ ChunkDict.text f = o ++ [NL; NL] ++ ChunkDict.text c
    /\ ((0 < chunk_overlap self)%Z ->
        length o = Nat.min (Z.to_nat (chunk_overlap self))
                     (length (ChunkDict.text fprev))
        /\ exists a, ChunkDict.text fprev = a ++ o)
    /\ (chunk_overlap self = 0%Z -> o = ChunkDict.text fprev)
    /\ ((chunk_overlap self < 0)%Z ->
        o = drop (Z.to_nat (- chunk_overlap self)) (ChunkDict.text fprev)).
Proof.
  rewrite chunk_text_stitch.
  destruct (pack self md (_split_by_sections txt)) as [|c0 cs]; [discriminate|].
  simpl. intros Hc.
  destruct (stitch_lookup self md cs c0 j c Hc) as (fprev & f & H1 & H2 & ->).
  exists fprev. eexists. eexists.
  split; [exact H1|]. split; [exact H2|]. split; [reflexivity|].
  split; [|split].
  - intros Hpos. apply slice_from_neg_length, Hpos.
  - intros ->. reflexivity.
  - intros Hneg. unfold slice_from.
    destruct (Z.ltb_spec (- chunk_overlap self) 0); [lia | reflexivity].
Qed.

Lemma overlap_prefix_witness :
  pack no_overlap 1 (_split_by_sections lease) !! 1
  = Some (ChunkDict.mk (s "SECTION 2" ++ [NL] ++ s " Ok.") (Some 1))
  /\ chunk_text no_overlap lease 1 !! 1
     = Some (ChunkDict.mk
               (s "SECTION 1" ++ [NL] ++ s " Rent is due monthly."
                ++ [NL; NL] ++ s "SECTION 2" ++ [NL] ++ s " Ok.") (Some 1))
  /\ exists fprev f o,
       chunk_text no_overlap lease 1 !! 0 = Some fprev
       /\ chunk_text no_overlap lease 1 !! 1 = Some f
       /\ ChunkDict.text f
          = o ++ [NL; NL] ++ s "SECTION 2" ++ [NL] ++ s " Ok."
       /\ ((0 < chunk_overlap no_overlap)%Z ->
           length o = Nat.min (Z.to_nat (chunk_overlap no_overlap))
                        (length (ChunkDict.text fprev))
           /\ exists a, ChunkDict.text fprev = a ++ o)
       /\ (chunk_overlap no_overlap = 0%Z -> o = ChunkDict.text fprev)
       /\ ((chunk_overlap no_overlap < 0)%Z ->
           o = drop (Z.to_nat (- chunk_overlap no_overlap))
                 (ChunkDict.text fprev)).
Proof.
  assert (Hc : pack no_overlap 1 (_split_by_sections lease) !! 1
               = Some (ChunkDict.mk (s "SECTION 2" ++ [NL] ++ s " Ok.") (Some 1)))
    by reflexivity.
  split; [exact Hc|]. split; [reflexivity|].
  exact (overlap_prefix_by_sign no_overlap lease 1 0 _ Hc).
Defined.

(** X6.  A text whose sections together have at most [chunk_size] tokens
    comes back as a single chunk: all its sections, in order, with a
    blank line between them, and no overlap. *)
Theorem small_text_one_chunk self txt md :
  _split_by_sections txt <> [] ->
  (Z.of_nat (tokens self (_split_by_sections txt)) <= chunk_size self)%Z ->
  chunk_text self txt md
  = [ChunkDict.mk (join (_split_by_sections txt)) (Some md)].
Proof.
  intros Hne Hfit. rewrite chunk_text_stitch.
  rewrite pack_groups by apply split_by_sections_clean.
  unfold groups. rewrite (groups_from_fits self _ [] Hfit). simpl.
  destruct (_split_by_sections txt); [congruence | reflexivity].
Qed.

Lemma small_text_witness :
  _split_by_sections two_short <> []
  /\ (Z.of_nat (tokens budget24 (_split_by_sections two_short))
      <= chunk_size budget24)%Z
  /\ chunk_text budget24 two_short 1
     = [ChunkDict.mk (join (_split_by_sections two_short)) (Some 1)].
Proof.
  assert (Hne : _split_by_sections two_short <> [])
    by (vm_compute; discriminate).
  assert (Hfit : (Z.of_nat (tokens budget24 (_split_by_sections two_short))
                  <= chunk_size budget24)%Z) by (vm_compute; discriminate).
  split; [exact Hne|]. split; [exact Hfit|].
  exact (small_text_one_chunk budget24 two_short 1 Hne Hfit).
Defined.

(** X7.  When every section of the text has more tokens than
    [chunk_size] (any text, for a negative [chunk_size]), packing makes
    one chunk of each section, in order, and [chunk_text] returns as many
    chunks as the text has sections. *)
Theorem oversized_sections_one_each self txt md :
  Forall (fun x => (chunk_size self < Z.of_nat (_count_tokens self x))%Z)
    (_split_by_sections txt) ->
  pack self md (_split_by_sections txt)
  = map (fun x => ChunkDict.mk x (Some md)) (_split_by_sections txt)
  /\ length (chunk_text self txt md) = length (_split_by_sections txt).
Proof.
  intros Hbig.
  assert (Hp : pack self md (_split_by_sections txt)
               = map (fun x => ChunkDict.mk x (Some md)) (_split_by_sections txt)).
  { pose proof (split_by_sections_clean txt) as Hcl.
    induction Hbig as [|x secs Hx _ IH]; [reflexivity|].
    apply Forall_cons in Hcl as [Hcx Hcl].
    pose proof (pack_oversized self md [] x secs Hcx Hx) as Hp.
    simpl in Hp. rewrite Hp, (IH Hcl). reflexivity. }
  split; [exact Hp|].
  rewrite chunk_text_length, Hp, length_map. reflexivity.
Qed.

Lemma oversized_sections_witness :
  Forall (fun x => (chunk_size one_per_section
                    < Z.of_nat (_count_tokens one_per_section x))%Z)
    (_split_by_sections lease)
  /\ pack one_per_section 1 (_split_by_sections lease)
     = map (fun x => ChunkDict.mk x (Some 1)) (_split_by_sections lease)
  /\ length (chunk_text one_per_section lease 1)
     = length (_split_by_sections lease).
Proof.
  assert (Hbig : Forall (fun x => (chunk_size one_per_section
                                   < Z.of_nat (_count_tokens one_per_section x))%Z)
                   (_split_by_sections lease)).
  { vm_compute. repeat constructor. }
  split; [exact Hbig|].
  exact (oversized_sections_one_each one_per_section lease 1 Hbig).
Defined.

End ChunkerProperties.

(** ** The stores: further facts *)

Module StoreRuns.
Import Models StoreFacts Invariants.

Lemma insert_by_perm {A} (before : A -> A -> bool) x l :
  insert_by before x l ≡ₚ x :: l.
Proof.
  induction l as [|y l IH]; simpl; [reflexivity|].
  destruct (before y x); [|reflexivity].
  rewrite IH. apply Permutation_swap.
Qed.

(** Sorting only reorders. *)
Lemma sort_by_perm {A} (before : A -> A -> bool) l : sort_by before l ≡ₚ l.
Proof.
  induction l as [|x l IH]; [reflexivity|].
  change (sort_by before (x :: l)) with (insert_by before x (sort_by before l)).
  rewrite insert_by_perm, IH. reflexivity.
Qed.

Lemma sort_by_length {A} (before : A -> A -> bool) l :
  length (sort_by before l) = length l.
Proof. apply Permutation_length, sort_by_perm. Qed.

Lemma enumerate_fst {A} (l : list A) : map fst (enumerate l) = seq 0 (length l).
Proof.
  unfold enumerate.
  assert (Hgen : forall k, map fst (imap (fun i x => (k + i, x)) l)
                           = seq k (length l)).
  { induction l as [|x l IH]; intros k; [reflexivity|].
    simpl. rewrite Nat.add_0_r. f_equal. rewrite <- (IH (S k)).
    f_equal. apply imap_ext. intros i y _. simpl. f_equal. lia. }
  apply (Hgen 0).
Qed.

Lemma omap_all {A B} (f : A -> option B) l :
  Forall (fun x => f x <> None) l -> length (omap f l) = length l.
Proof.
  induction 1 as [|x l Hx _ IH]; [reflexivity|].
  cbn. destruct (f x); [|congruence]. cbn. rewrite IH. reflexivity.
Qed.

Lemma omap_none {A B} (f : A -> option B) l :
  Forall (fun x => f x = None) l -> omap f l = [].
Proof.
  induction 1 as [|x l Hx _ IH]; [reflexivity|]. cbn. rewrite Hx. exact IH.
Qed.

Section Facts.
Context `{Encoder}.

(** The positions the index returns are its positions, each once. *)
Lemma ranked_perm ix q : ranked ix q ≡ₚ seq 0 (ntotal ix).
Proof.
  unfold ranked, ntotal.
  etransitivity; [apply Permutation_map, sort_by_perm|].
  rewrite enumerate_fst, length_map. reflexivity.
Qed.

(** *** Looking a position up *)

Lemma row_result_None cks idx :
  Forall (fun r => faiss_index_id r <> Some idx) cks ->
  row_result cks idx = None.
Proof.
  unfold row_result, FAISSVectorStore.first_by_faiss_index_id.
  induction 1 as [|r cks Hr _ IH]; [reflexivity|]. simpl.
  rewrite bool_decide_eq_false_2 by exact Hr. exact IH.
Qed.

Lemma row_result_app_l cks rows idx :
  row_result cks idx <> None ->
  row_result (cks ++ rows) idx = row_result cks idx.
Proof.
  unfold row_result, FAISSVectorStore.first_by_faiss_index_id.
  induction cks as [|r cks IH]; simpl; [congruence|].
  destruct (bool_decide _); [reflexivity | exact IH].
Qed.

Lemma row_result_app_r cks rows idx :
  row_result cks idx = None ->
  row_result (cks ++ rows) idx = row_result rows idx.
Proof.
  unfold row_result, FAISSVectorStore.first_by_faiss_index_id.
  induction cks as [|r cks IH]; simpl; [reflexivity|].
  destruct (bool_decide _); [discriminate | exact IH].
Qed.

(** Rows numbered in order from [k]: the row of a position is the row at
    that offset. *)
Lemma row_result_at rows : forall k i r,
  map faiss_index_id rows
  = map (fun j => Some (Z.of_nat j)) (seq k (length rows)) ->
  rows !! i = Some r ->
  row_result rows (Z.of_nat (k + i))
  = Some (UserResult (text r) (document_id r)).
Proof.
  unfold row_result, FAISSVectorStore.first_by_faiss_index_id.
  induction rows as [|r0 rows IH]; intros k i r Hmap Hi; [discriminate|].
  simpl in Hmap. injection Hmap as Hr0 Hmap. simpl.
  destruct i as [|i]; simpl in Hi.
  - injection Hi as ->. rewrite Nat.add_0_r.
    rewrite bool_decide_eq_true_2 by exact Hr0. reflexivity.
  - rewrite bool_decide_eq_false_2 by (rewrite Hr0; intros [= E]; lia).
    replace (k + S i) with (S k + i) by lia. apply IH; assumption.
Qed.

(** *** Flushing chunk rows, row by row *)

Lemma flush_chunks_written cs : forall docs cks next done docs' cks' next' done',
  flush (map RChunk cs) docs cks next done = Ok (docs', cks', next', done') ->
  docs' = docs
  /\ exists rows,
       cks' = cks ++ rows
       /\ Forall2 (fun c r => written_as c r /\ check_chunk docs r = Ok tt)
            cs rows.
Proof.
  induction cs as [|c cs IH]; intros docs cks next done docs' cks' next' done'.
  - simpl. intros [= <- <- <- <-]. split; [reflexivity|].
    exists []. rewrite app_nil_r. split; [reflexivity | constructor].
  - simpl. destruct (id c) as [i|] eqn:Eid.
    + destruct (check_chunk docs c) as [[]|] eqn:Ec; [|discriminate].
      intros Hf. destruct (IH _ _ _ _ _ _ _ _ Hf) as (-> & rows & -> & Hall).
      split; [reflexivity|]. exists (c :: rows).
      rewrite <- app_assoc. split; [reflexivity|].
      constructor; [|exact Hall].
      split; [|exact Ec]. unfold written_as. rewrite Eid.
      repeat split; congruence.
    + destruct (check_chunk docs _) as [[]|] eqn:Ec; [|discriminate].
      intros Hf. destruct (IH _ _ _ _ _ _ _ _ Hf) as (-> & rows & -> & Hall).
      split; [reflexivity|]. eexists (_ :: rows).
      rewrite <- app_assoc. split; [reflexivity|].
      constructor; [|exact Hall].
      split; [|exact Ec]. unfold written_as. simpl.
      repeat split; congruence.
Qed.

Lemma check_document_id doc i :
  check_document
    (mkDocument i (filename doc) (source_type doc) (language doc)
       (jurisdiction doc))
  = check_document doc.
Proof. reflexivity. Qed.

(** The ["source"] key is not one the [Document] row reads. *)
Lemma new_document_source (dct : dict) v :
  new_document (<["source"%string := v]> dct) = new_document dct.
Proof.
  unfold new_document. rewrite !lookup_insert_ne by discriminate. reflexivity.
Qed.

Lemma index_add_Ok embs (w w4 : world) :
  index_add embs w = (w4, Ok tt) ->
  w4 = set_user_store
         (mk_faiss_store (embedding_dim (user_store w))
            (index_path (user_store w))
            (mk_index (d (index (user_store w)))
               (xb (index (user_store w)) ++ embs))) w
  /\ embs <> []
  /\ Forall (fun v => length v = d (index (user_store w))) embs.
Proof.
  unfold index_add. destruct embs as [|v embs]; [discriminate|].
  destruct (forallb _ _) eqn:E; [|discriminate].
  intros [= <-]. split; [reflexivity|]. split; [discriminate|].
  apply List.Forall_forall. intros x Hx.
  rewrite forallb_forall in E. apply Nat.eqb_eq, E, Hx.
Qed.

Lemma embed_documents_length (texts : list Py.str) :
  length (EmbeddingModel.embed_documents texts) = length texts.
Proof.
  unfold EmbeddingModel.embed_documents.
  destruct texts; [reflexivity|]. apply length_map.
Qed.

Lemma embed_documents_map (texts : list Py.str) :
  EmbeddingModel.embed_documents texts
  = map (fun t => encode (Py.s "passage: " ++ t)) texts.
Proof. destruct texts; reflexivity. Qed.

(** *** [PostgresVectorStore.add_document_chunks], step by step *)

Lemma for_each_pending {A} (f : A -> row) (body : A -> M unit) l :
  (forall x w, body x w = session_add (f x) w) ->
  forall w : world,
    for_each l body w = (set_session (session w ++ map f l) w, Ok tt).
Proof.
  intros Hb. induction l as [|x l IH]; intros w; simpl.
  - rewrite app_nil_r. destruct w; reflexivity.
  - rewrite bind_run, Hb. unfold session_add at 1. rewrite IH. simpl.
    rewrite <- app_assoc. reflexivity.
Qed.

Lemma postgres_add_run texts embs (md : ref) (w : world) :
  PostgresVectorStore.add_document_chunks texts embs md w
  = match heap w !! md with
    | None => (set_session [] w, Raise KeyError)
    | Some dct =>
        let doc :=
          mkDocument (Some (uuid_next w)) (filename (new_document dct))
            (source_type (new_document dct)) (language (new_document dct))
            (jurisdiction (new_document dct)) in
        match check_document doc with
        | Raise e => (set_session [] w, Raise e)
        | Ok _ =>
            let w3 :=
              set_session []
                (set_tables (documents w ++ [doc]) (chunks w) (S (uuid_next w))
                   w) in
            match flush (map RChunk (map (pending_chunk doc dct)
                                       (zip texts embs)))
                    (documents w3) (chunks w3) (uuid_next w3) []
            with
            | Raise e => (w3, Raise e)
            | Ok (docs, cks, next, _) =>
                (set_session [] (set_tables docs cks next w3), Ok tt)
            end
        end
    end.
Proof.
  unfold PostgresVectorStore.add_document_chunks.
  rewrite bind_run. unfold SessionLocal at 1.
  unfold try_finally, try_except.
  rewrite bind_run. unfold deref at 1. simpl heap.
  destruct (heap w !! md) as [dct|]; [|reflexivity].
  rewrite bind_run. unfold session_add at 1.
  rewrite bind_run. unfold session_commit at 1. simpl.
  destruct (check_document _) eqn:Ec; [|reflexivity].
  rewrite bind_run. simpl.
  rewrite bind_run.
  rewrite (for_each_pending
             (fun p => RChunk (pending_chunk
                                 (mkDocument (Some (uuid_next w))
                                    (dct !! "filename"%string)
                                    (dct !! "source_type"%string)
                                    (dct !! "language"%string)
                                    (Some (default (PStr (Py.s "Unknown"))
                                             (dct !! "jurisdiction"%string))))
                                 dct p)))
    by (intros [t e] w1; reflexivity).
  rewrite bind_run. unfold session_commit at 1. simpl.
  rewrite map_map.
  destruct (flush _ _ _ _ _) as [[[[docs cks] next] rows]|e]; reflexivity.
Qed.

Lemma dict_setitem_run (md : ref) key v (dct : dict) (w : world) :
  heap w !! md = Some dct ->
  dict_setitem md key v w
  = (set_heap (<[md := <[key := v]> dct]> (heap w)) w, Ok tt).
Proof.
  intros Hmd. unfold dict_setitem. rewrite bind_run. unfold deref.
  rewrite Hmd. reflexivity.
Qed.

Lemma dict_setitem_missing (md : ref) key v (w : world) :
  heap w !! md = None -> dict_setitem md key v w = (w, Raise KeyError).
Proof.
  intros Hmd. unfold dict_setitem. rewrite bind_run. unfold deref.
  rewrite Hmd. reflexivity.
Qed.

Lemma save_index_default_run (w : world) :
  FAISSVectorStore.save_index None w
  = (match index_path (user_store w) with
     | Some ""%string | None => w
     | Some p => set_files (<[p := index (user_store w)]> (files w)) w
     end, Ok tt).
Proof.
  unfold FAISSVectorStore.save_index. rewrite bind_run. unfold get.
  destruct (index_path (user_store w)) as [[|c p]|]; reflexivity.
Qed.

(** *** The ephemeral add when it returns *)

Lemma Forall2_imap_lookup {A B C} (P : B -> C -> Prop) (f : nat -> A -> B)
  (l : list A) (k : list C) :
  Forall2 P (imap f l) k ->
  length k = length l
  /\ forall i x, l !! i = Some x -> exists y, k !! i = Some y /\ P (f i x) y.
Proof.
  intros Hall. split.
  - rewrite <- (Forall2_length _ _ _ Hall), length_imap. reflexivity.
  - intros i x Hx.
    assert (Hi : imap f l !! i = Some (f i x))
      by (rewrite list_lookup_imap, Hx; reflexivity).
    destruct (Forall2_lookup_l _ _ _ _ _ Hall Hi) as (y & Hy & HP). eauto.
Qed.

Lemma faiss_add_Ok (cs : list chunk) (md : ref) (w w' : world) :
  FAISSVectorStore.add_document_chunks cs md w = (w', Ok tt) ->
  exists dct rows,
    heap w !! md = Some dct
    /\ check_document (new_document dct) = Ok tt
    /\ documents w' = documents w ++ [with_id (uuid_next w) (new_document dct)]
    /\ chunks w' = chunks w ++ rows
    /\ length rows = length cs
    /\ (forall i c,
          cs !! i = Some c ->
          exists r,
            rows !! i = Some r
            /\ text r = ChunkDict.text c
            /\ document_id r = Some (uuid_next w)
            /\ metadata_json r = None
            /\ embedding r = None
            /\ faiss_index_id r
               = Some (Z.of_nat (ntotal (index (user_store w)) + i)))
    /\ user_store w'
       = mk_faiss_store (embedding_dim (user_store w))
           (index_path (user_store w))
           (mk_index (d (index (user_store w)))
              (xb (index (user_store w))
               ++ EmbeddingModel.embed_documents (map ChunkDict.text cs)))
    /\ cs <> []
    /\ heap w' = heap w /\ files w' = files w /\ session w' = [].
Proof.
  rewrite faiss_add_run. intros Hrun.
  destruct (heap w !! md) as [dct|]; [|discriminate].
  cbv zeta in Hrun. rewrite check_document_id in Hrun.
  destruct (check_document (new_document dct)) as [[]|] eqn:Ec; [|discriminate].
  destruct (index_add _ _) as [w4 [[]|e]] eqn:Ei; [|discriminate].
  apply index_add_Ok in Ei as (-> & Hne & _).
  rewrite chunk_records_rows in Hrun.
  destruct (flush _ _ _ _ _) as [[[[docs cks] next] done]|e] eqn:Ef;
    [|discriminate].
  injection Hrun as <-.
  apply flush_chunks_written in Ef as (-> & rows & -> & Hall).
  apply Forall2_imap_lookup in Hall as [Hlen Hrows].
  exists dct, rows. simpl.
  split; [reflexivity|]. split; [exact Ec|]. split; [reflexivity|].
  split; [reflexivity|]. split; [exact Hlen|]. split.
  - intros i c Hc. destruct (Hrows i c Hc) as (r & Hr & Hw & _).
    destruct Hw as (_ & Hd & Ht & Hm & He & Hf). exists r. simpl in *.
    repeat split; assumption.
  - split; [reflexivity|]. split; [|auto].
    intros ->. apply Hne. reflexivity.
Qed.

(** What the ephemeral add leaves alone, whatever its outcome. *)
Lemma faiss_add_frame (cs : list chunk) (md : ref) (w : world) :
  let w' := fst (FAISSVectorStore.add_document_chunks cs md w) in
  heap w' = heap w /\ files w' = files w
  /\ embedding_dim (user_store w') = embedding_dim (user_store w)
  /\ index_path (user_store w') = index_path (user_store w)
  /\ d (index (user_store w')) = d (index (user_store w)).
Proof.
  rewrite faiss_add_run.
  destruct (heap w !! md) as [dct|]; [|simpl; auto].
  cbv zeta. destruct (check_document _); [|simpl; auto].
  destruct (index_add _ _) as [w4 [[]|e]] eqn:Ei.
  - apply index_add_Ok in Ei as (-> & _).
    destruct (flush _ _ _ _ _) as [[[[docs cks] next] done]|e]; simpl; auto.
  - apply index_add_inv in Ei. subst w4. simpl. auto.
Qed.

(** The rows a position list stands for. *)
Lemma positions_from (N n : nat) :
  map (fun i => Some (Z.of_nat (N + i))) (seq 0 n)
  = map (fun j => Some (Z.of_nat j)) (seq N n).
Proof.
  pose proof (fmap_add_seq N 0 n) as E. rewrite Nat.add_0_r in E.
  rewrite <- E.
  change (Nat.add N <$> seq 0 n) with (map (Nat.add N) (seq 0 n)).
  rewrite map_map. reflexivity.
Qed.

Lemma row_result_app_unindexed cks rows idx :
  Forall (fun r => faiss_index_id r = None) rows ->
  row_result (cks ++ rows) idx = row_result cks idx.
Proof.
  intros Hrows. destruct (row_result cks idx) as [res|] eqn:E.
  - rewrite row_result_app_l; [exact E | congruence].
  - rewrite row_result_app_r by exact E. apply row_result_None.
    eapply Forall_impl; [exact Hrows|]. intros r ->. discriminate.
Qed.

(** *** The persistent add, by outcome *)

Lemma postgres_add_cases texts embs (md : ref) (w w' : world) r :
  PostgresVectorStore.add_document_chunks texts embs md w = (w', r) ->
  session w' = [] /\ heap w' = heap w /\ files w' = files w
  /\ user_store w' = user_store w
  /\ match r with
     | Ok _ =>
         exists dct rows,
           heap w !! md = Some dct
           /\ check_document (new_document dct) = Ok tt
           /\ documents w'
              = documents w ++ [with_id (uuid_next w) (new_document dct)]
           /\ chunks w' = chunks w ++ rows
           /\ Forall2
                (fun p row =>
                   written_as
                     (pending_chunk (with_id (uuid_next w) (new_document dct))
                        dct p) row
                   /\ check_chunk (documents w') row = Ok tt)
                (zip texts embs) rows
     | Raise _ =>
         chunks w' = chunks w
         /\ match heap w !! md with
            | Some dct =>
                match check_document (new_document dct) with
                | Ok _ =>
                    documents w'
                    = documents w ++ [with_id (uuid_next w) (new_document dct)]
                | Raise _ => documents w' = documents w
                end
            | None => documents w' = documents w
            end
     end.
Proof.
  rewrite postgres_add_run.
  destruct (heap w !! md) as [dct|].
  2:{ intros [= <- <-]. simpl. repeat split; reflexivity. }
  cbv zeta. rewrite check_document_id.
  destruct (check_document (new_document dct)) as [[]|e0] eqn:Ec.
  2:{ intros [= <- <-]. simpl. repeat split; reflexivity. }
  destruct (flush _ _ _ _ _) as [[[[docs cks] next] done]|e] eqn:Ef.
  - intros [= <- <-]. simpl.
    apply flush_chunks_written in Ef as (-> & rows & -> & Hall).
    rewrite Forall2_fmap_l in Hall.
    repeat (split; [reflexivity|]).
    exists dct, rows. split; [reflexivity|]. split; [exact Ec|].
    repeat (split; [reflexivity|]). exact Hall.
  - intros [= <- <-]. simpl. repeat split; reflexivity.
Qed.

End Facts.
End StoreRuns.

(** ** The stores: further properties *)

Module StoreProperties.
Import Models StoreFacts StoreRuns Invariants.

Section General.
Context `{Encoder}.

Lemma check_document_no_filename (dct : dict) :
  dct !! "filename"%string = None ->
  check_document (new_document dct) = Raise IntegrityError.
Proof. intros Hfn. unfold check_document, new_document. simpl. rewrite Hfn. reflexivity. Qed.

(** X8.  An add whose metadata has no ["filename"] is refused with an
    [IntegrityError] before anything is stored, on both paths of the
    manager: no [Document] row, no chunk row, no vector, no snapshot. *)
Theorem upload_without_filename_refused (cs : list chunk)
  (gs : list (chunk + Py.str)) (md : ref) (dct : dict) (w : world) :
  heap w !! md = Some dct ->
  dct !! "filename"%string = None ->
  let u := VectorManager.add_user_documents cs md w in
  let g := VectorManager.add_general_documents gs md w in
  (snd u = Raise IntegrityError
   /\ documents (fst u) = documents w /\ chunks (fst u) = chunks w
   /\ user_store (fst u) = user_store w /\ files (fst u) = files w)
  /\ (snd g = Raise IntegrityError
      /\ documents (fst g) = documents w /\ chunks (fst g) = chunks w
      /\ user_store (fst g) = user_store w /\ files (fst g) = files w).
Proof.
  intros Hmd Hfn u g. subst u g. split.
  - unfold VectorManager.add_user_documents.
    rewrite bind_run, (dict_setitem_run _ _ _ _ _ Hmd).
    rewrite bind_run, faiss_add_run. simpl heap. rewrite lookup_insert_eq.
    cbv zeta. rewrite check_document_id, new_document_source.
    rewrite (check_document_no_filename _ Hfn). simpl.
    repeat split; reflexivity.
  - unfold VectorManager.add_general_documents.
    rewrite bind_run, (dict_setitem_run _ _ _ _ _ Hmd).
    rewrite postgres_add_run. simpl heap. rewrite lookup_insert_eq.
    cbv zeta. rewrite check_document_id, new_document_source.
    rewrite (check_document_no_filename _ Hfn). simpl.
    repeat split; reflexivity.
Qed.

(** X9.  A blank document goes wrong differently on the two paths.  The
    chunker returns no chunk for it.  [add_user_documents] then commits
    the [Document] row and raises [ValueError] from the index, leaving
    the row behind with no chunk, the index and the snapshot untouched;
    [add_general_documents] returns normally and leaves a [Document] row
    with no chunk. *)
Theorem blank_upload_leaves_empty_document self txt (md : ref) (dct : dict)
  (w : world) :
  forallb Py.is_space txt = true ->
  heap w !! md = Some dct ->
  check_document (new_document dct) = Ok tt ->
  let cs := LegalChunker.chunk_text self txt md in
  let doc := with_id (uuid_next w) (new_document dct) in
  let u := VectorManager.add_user_documents cs md w in
  let g := VectorManager.add_general_documents (map inl cs) md w in
  cs = []
  /\ (snd u = Raise ValueError
      /\ documents (fst u) = documents w ++ [doc] /\ chunks (fst u) = chunks w
      /\ user_store (fst u) = user_store w /\ files (fst u) = files w)
  /\ (snd g = Ok tt
      /\ documents (fst g) = documents w ++ [doc] /\ chunks (fst g) = chunks w).
Proof.
  intros Hb Hmd Hdoc cs doc u g. subst cs doc u g.
  rewrite (ChunkerFacts.chunk_text_blank self txt md Hb).
  split; [reflexivity|]. split.
  - unfold VectorManager.add_user_documents.
    rewrite bind_run, (dict_setitem_run _ _ _ _ _ Hmd).
    rewrite bind_run, faiss_add_run. simpl heap. rewrite lookup_insert_eq.
    cbv zeta. rewrite check_document_id, !new_document_source, Hdoc. simpl.
    repeat split; reflexivity.
  - unfold VectorManager.add_general_documents.
    rewrite bind_run, (dict_setitem_run _ _ _ _ _ Hmd).
    rewrite postgres_add_run. simpl heap. rewrite lookup_insert_eq.
    cbv zeta. rewrite check_document_id, !new_document_source, Hdoc. simpl.
    repeat split; reflexivity.
Qed.

Lemma row_result_numbered rows : forall k,
  (forall j r, rows !! j = Some r ->
               faiss_index_id r = Some (Z.of_nat (k + j))) ->
  forall i r, rows !! i = Some r ->
    row_result rows (Z.of_nat (k + i))
    = Some (UserResult (text r) (document_id r)).
Proof.
  unfold row_result, FAISSVectorStore.first_by_faiss_index_id.
  induction rows as [|r0 rows IH]; intros k Hnum i r Hi; [discriminate|].
  simpl. pose proof (Hnum 0 r0 eq_refl) as Hr0. rewrite Nat.add_0_r in Hr0.
  destruct i as [|i]; simpl in Hi.
  - injection Hi as ->. rewrite Nat.add_0_r.
    rewrite bool_decide_eq_true_2 by exact Hr0. reflexivity.
  - rewrite bool_decide_eq_false_2 by (rewrite Hr0; intros [= E]; lia).
    replace (k + S i) with (S k + i) by lia. apply IH; [|exact Hi].
    intros j r' Hj. rewrite (Hnum (S j) r' Hj). do 2 f_equal. lia.
Qed.

Lemma positions_below_None (w : world) (i : nat) :
  positions_in_range w ->
  ntotal (index (user_store w)) <= i ->
  row_result (chunks w) (Z.of_nat i) = None.
Proof.
  intros Hrange Hi. apply row_result_None.
  eapply Forall_impl; [exact Hrange|]. intros r Hr E. cbv beta in Hr. rewrite E in Hr. lia.
Qed.

(** The rows of a successful add, numbered. *)
Lemma faiss_add_numbered (cs : list chunk) (md : ref) (w w' : world) :
  FAISSVectorStore.add_document_chunks cs md w = (w', Ok tt) ->
  exists rows,
    chunks w' = chunks w ++ rows
    /\ length rows = length cs
    /\ ntotal (index (user_store w'))
       = ntotal (index (user_store w)) + length cs
    /\ (forall j r, rows !! j = Some r ->
          faiss_index_id r
          = Some (Z.of_nat (ntotal (index (user_store w)) + j))
          /\ document_id r = Some (uuid_next w)
          /\ metadata_json r = None
          /\ exists c, cs !! j = Some c /\ text r = ChunkDict.text c).
Proof.
  intros Hrun.
  destruct (faiss_add_Ok _ _ _ _ Hrun)
    as (dct & rows & _ & _ & _ & Hc & Hlen & Hrows & Hst & _).
  exists rows. split; [exact Hc|]. split; [exact Hlen|]. split.
  - rewrite Hst. unfold ntotal. simpl.
    rewrite length_app, embed_documents_length, length_map. reflexivity.
  - intros j r Hr.
    assert (Hj : j < length cs) by (rewrite <- Hlen; eapply lookup_lt_Some, Hr).
    apply lookup_lt_is_Some in Hj as [c Hcj].
    destruct (Hrows j c Hcj) as (r' & Hr' & Ht & Hd & Hm & _ & Hf).
    rewrite Hr in Hr'. injection Hr' as <-. eauto 10.
Qed.

(** X10.  Insert, then look up.  After an add that returns, on a table
    whose recorded positions all lie inside the index, the row found for
    position [N + i] ([N] the size of the index before the add) is the
    row of the chunk at offset [i]: its text, and the id of the
    [Document] row the add created. *)
Theorem uploaded_chunks_found_by_position (cs : list chunk) (md : ref)
  (w w' : world) :
  FAISSVectorStore.add_document_chunks cs md w = (w', Ok tt) ->
  positions_in_range w ->
  exists doc,
    documents w' = documents w ++ [doc]
    /\ forall i c,
         cs !! i = Some c ->
         row_result (chunks w') (Z.of_nat (ntotal (index (user_store w)) + i))
         = Some (UserResult (ChunkDict.text c) (doc_id doc)).
Proof.
  intros Hrun Hrange.
  destruct (faiss_add_Ok _ _ _ _ Hrun) as (dct & rows0 & _ & _ & Hd & Hc0 & _).
  destruct (faiss_add_numbered _ _ _ _ Hrun) as (rows & Hc & Hlen & _ & Hnum).
  eexists. split; [exact Hd|]. intros i c Hi.
  assert (Hlt : i < length rows) by (rewrite Hlen; eapply lookup_lt_Some, Hi).
  apply lookup_lt_is_Some in Hlt as [r Hr].
  destruct (Hnum i r Hr) as (_ & Hdoc & _ & c' & Hc' & Ht).
  rewrite Hi in Hc'. injection Hc' as <-.
  rewrite Hc, row_result_app_r by (apply positions_below_None; [exact Hrange | lia]).
  rewrite (row_result_numbered rows _ (fun j r' Hj => proj1 (Hnum j r' Hj)) i r Hr).
  rewrite Ht, Hdoc. reflexivity.
Qed.

(** X11.  An add that returns keeps the index and the table in step:
    if before it every recorded position was a position of the index and
    every position of the index had a row, the same holds after it. *)
Theorem in_step_preserved (cs : list chunk) (md : ref) (w w' : world) :
  in_step w ->
  FAISSVectorStore.add_document_chunks cs md w = (w', Ok tt) ->
  in_step w'.
Proof.
  intros [Hrange Hcov] Hrun.
  destruct (faiss_add_numbered _ _ _ _ Hrun) as (rows & Hc & Hlen & Hn & Hnum).
  split.
  - unfold positions_in_range. rewrite Hc, Hn. apply Forall_app. split.
    + eapply Forall_impl; [exact Hrange|]. intros r Hr. cbv beta in *.
      destruct (faiss_index_id r); [lia | exact I].
    + apply Forall_lookup. intros j r Hr.
      destruct (Hnum j r Hr) as (-> & _).
      apply lookup_lt_Some in Hr. lia.
  - intros i Hi. rewrite Hn in Hi. rewrite Hc.
    destruct (Nat.lt_ge_cases i (ntotal (index (user_store w)))) as [Hlt|Hge].
    + rewrite row_result_app_l; apply Hcov; exact Hlt.
    + rewrite row_result_app_r by (apply positions_below_None; assumption).
      assert (Hj : i - ntotal (index (user_store w)) < length rows) by lia.
      apply lookup_lt_is_Some in Hj as [r Hr].
      pose proof (row_result_numbered rows _
                    (fun j r' Hj => proj1 (Hnum j r' Hj)) _ r Hr) as E.
      replace (ntotal (index (user_store w))
               + (i - ntotal (index (user_store w)))) with i in E by lia.
      rewrite E. discriminate.
Qed.

(** X12.  While the index and the table are in step, the ephemeral
    search with a positive [k] and a query of the index's dimension
    returns exactly [min k ntotal] results: every position the index
    returns has its row, and the padding of a short answer has none. *)
Theorem in_step_search_complete (query : Py.str) (k : Z) (w : world) :
  in_step w ->
  (0 < k)%Z ->
  length (EmbeddingModel.embed_query query) = d (index (user_store w)) ->
  exists res,
    FAISSVectorStore.similarity_search query k w = (set_session [] w, Ok res)
    /\ length res = Nat.min (Z.to_nat k) (ntotal (index (user_store w))).
Proof.
  intros [Hrange Hcov] Hk Hd.
  rewrite ManagerClaims.faiss_search_run. unfold index_search.
  rewrite Hd, Nat.eqb_refl. simpl.
  destruct (Z.leb_spec k 0) as [|_]; [lia|].
  eexists. split; [reflexivity|].
  rewrite omap_app, length_app.
  rewrite omap_all, (omap_none _ (replicate _ _)).
  - rewrite length_map, length_take.
    rewrite (Permutation_length (ranked_perm _ _)), length_seq. simpl. lia.
  - apply Forall_replicate. apply row_result_None.
    eapply Forall_impl; [exact Hrange|]. intros r Hr E. cbv beta in Hr. rewrite E in Hr. lia.
  - apply Forall_fmap, Forall_forall. intros i Hi. simpl. apply Hcov.
    apply elem_of_take in Hi as (j & Hj & _).
    apply list_elem_of_lookup_2 in Hj.
    rewrite (ranked_perm _ _) in Hj. apply elem_of_seq in Hj. lia.
Qed.

Lemma slice_to_take {A} (k : Z) (l : list A) :
  (0 <= k)%Z -> Py.slice_to k l = take (Z.to_nat k) l.
Proof.
  intros Hk. unfold Py.slice_to. destruct (Z.ltb_spec k 0); [lia | reflexivity].
Qed.

(** X13.  The hybrid search changes neither table, nor the index, the
    dictionaries or the files, whatever its outcome.  It raises
    [AssertionError] when [top_k] is zero or negative or the query's
    embedding has not the index's dimension, [ValueError] when that
    embedding has not the 1024 components of the [embedding] column, and
    otherwise returns at most [top_k] results. *)
Theorem search_outcome (query : Py.str) (k : Z) (w : world) :
  let q := EmbeddingModel.embed_query query in
  let run := VectorManager.search query k w in
  fst run = set_session [] w
  /\ (length q <> d (index (user_store w)) \/ (k <= 0)%Z ->
      snd run = Raise AssertionError)
  /\ (length q = d (index (user_store w)) -> (0 < k)%Z -> length q <> D ->
      snd run = Raise ValueError)
  /\ (length q = d (index (user_store w)) -> (0 < k)%Z -> length q = D ->
      exists res, snd run = Ok res /\ length res <= Z.to_nat k).
Proof.
  intros q run. subst q run. unfold VectorManager.search.
  rewrite bind_run, ManagerClaims.faiss_search_run. unfold index_search.
  destruct (Nat.eqb_spec (length (EmbeddingModel.embed_query query))
              (d (index (user_store w)))) as [Hd|Hd]; simpl negb; cbv iota.
  2:{ split; [reflexivity|]. split; [reflexivity|]. split; intros; congruence. }
  destruct (Z.leb_spec k 0) as [Hk|Hk].
  { split; [reflexivity|]. split; [reflexivity|]. split; intros; lia. }
  rewrite bind_run, ManagerClaims.postgres_search_run.
  destruct (Nat.eqb_spec (length (EmbeddingModel.embed_query query)) D)
    as [HD|HD]; simpl negb; cbv iota.
  2:{ split; [reflexivity|]. split; [intros [?|?]; [congruence | lia]|].
      split; [reflexivity | intros; congruence]. }
  destruct (Z.ltb_spec k 0); [lia|].
  split; [reflexivity|]. split; [intros [?|?]; [congruence | lia]|].
  split; [intros; congruence|]. intros _ _ _.
  eexists. split; [reflexivity|].
  rewrite slice_to_take by lia. rewrite length_take. lia.
Qed.

(** X14.  The hybrid search has no relevance threshold: when it returns,
    its result is empty exactly when the [chunks] table has no row at
    all. *)
Theorem search_empty_iff_no_rows (query : Py.str) (k : Z) (w w' : world) res :
  VectorManager.search query k w = (w', Ok res) ->
  res = [] <-> chunks w = [].
Proof.
  unfold VectorManager.search.
  rewrite bind_run, ManagerClaims.faiss_search_run.
  destruct (index_search _ _ _) as [ids|e] eqn:Ei; [|discriminate].
  assert (Hk : (0 < k)%Z).
  { unfold index_search in Ei. destruct (negb _); [discriminate|].
    destruct (Z.leb_spec k 0); [discriminate | lia]. }
  rewrite bind_run, ManagerClaims.postgres_search_run.
  destruct (negb _); [discriminate|].
  destruct (Z.ltb_spec k 0); [lia|].
  intros [= <- <-]. rewrite slice_to_take by lia. simpl chunks.
  destruct (Z.to_nat k) as [|n] eqn:En; [lia|].
  split.
  - intros E.
    destruct (omap (row_result (chunks w)) ids); [|discriminate].
    simpl in E.
    pose proof (sort_by_length
                  (PostgresVectorStore.nearer (EmbeddingModel.embed_query query))
                  (chunks w)) as Hlen.
    destruct (sort_by _ (chunks w)); [|discriminate].
    destruct (chunks w); [reflexivity | discriminate].
  - intros ->. rewrite omap_none; [reflexivity|].
    apply List.Forall_forall. reflexivity.
Qed.

Lemma check_chunk_dimension docs (r : Chunk) v :
  check_chunk docs r = Ok tt -> embedding r = Some v -> length v = D.
Proof.
  unfold check_chunk. intros Hc Hv. rewrite Hv in Hc.
  destruct (Nat.eqb_spec (length v) D); [assumption | discriminate].
Qed.

(** X15.  Rows written by the ephemeral add show up in the persistent
    search.  After an add that returns, a persistent search that asks for
    at least as many results as the table has rows returns every row of
    the table, and among them every uploaded chunk, as a general result
    with empty metadata. *)
Theorem uploaded_chunks_in_general_results (cs : list chunk) (md : ref)
  (w w' : world) (q : vector) (k : Z) :
  FAISSVectorStore.add_document_chunks cs md w = (w', Ok tt) ->
  length q = D ->
  length (chunks w') <= Z.to_nat k ->
  exists res,
    PostgresVectorStore.similarity_search q k w' = (set_session [] w', Ok res)
    /\ length res = length (chunks w')
    /\ Forall (fun c => In (GeneralResult (ChunkDict.text c) ∅) res) cs.
Proof.
  intros Hrun Hq Hk.
  destruct (faiss_add_Ok _ _ _ _ Hrun)
    as (dct & rows & _ & _ & _ & Hc & Hlen & Hrows & _ & Hne & _).
  assert (Hpos : (0 <= k)%Z).
  { rewrite Hc, length_app, Hlen in Hk. destruct cs; [congruence|].
    simpl in Hk. lia. }
  rewrite ManagerClaims.postgres_search_run, Hq, Nat.eqb_refl. simpl negb.
  cbv iota. destruct (Z.ltb_spec k 0); [lia|].
  eexists. split; [reflexivity|].
  rewrite take_ge by (rewrite sort_by_length; exact Hk).
  split; [rewrite length_map; apply sort_by_length|].
  apply Forall_lookup. intros i c Hi.
  destruct (Hrows i c Hi) as (r & Hr & Ht & _ & Hm & _).
  assert (Hin : In r (sort_by (PostgresVectorStore.nearer q) (chunks w'))).
  { eapply Permutation_in; [symmetry; apply sort_by_perm|].
    rewrite Hc. apply in_or_app. right.
    apply list_elem_of_In. eapply list_elem_of_lookup_2, Hr. }
  apply (in_map (fun r => GeneralResult (text r) (default ∅ (metadata_json r))))
    in Hin.
  rewrite Ht, Hm in Hin. exact Hin.
Qed.

Lemma omap_ext_all {A B} (f g : A -> option B) (l : list A) :
  (forall x, f x = g x) -> omap f l = omap g l.
Proof.
  intros Hfg. induction l as [|x l IH]; [reflexivity|].
  cbn. rewrite Hfg, IH. reflexivity.
Qed.

(** X16.  The other direction is closed: nothing a persistent add
    writes, whether it returns or raises, is ever seen by the ephemeral
    search, whose outcome is the same before and after it. *)
Theorem general_add_invisible_to_user_search (gs : list (chunk + Py.str))
  (md : ref) (w : world) (query : Py.str) (k : Z) :
  let w' := fst (VectorManager.add_general_documents gs md w) in
  snd (FAISSVectorStore.similarity_search query k w')
  = snd (FAISSVectorStore.similarity_search query k w).
Proof.
  intros w'. rewrite !ManagerClaims.faiss_search_run. simpl snd.
  assert (Hw : user_store w' = user_store w
               /\ forall idx, row_result (chunks w') idx
                              = row_result (chunks w) idx).
  { subst w'. unfold VectorManager.add_general_documents. rewrite bind_run.
    destruct (heap w !! md) as [dct|] eqn:Hmd.
    2:{ rewrite (dict_setitem_missing _ _ _ _ Hmd). auto. }
    rewrite (dict_setitem_run _ _ _ _ _ Hmd).
    destruct (PostgresVectorStore.add_document_chunks _ _ _ _) as [w1 r] eqn:Hrun.
    apply postgres_add_cases in Hrun as (_ & _ & _ & Hst & Hr). simpl in *.
    split; [exact Hst|]. intros idx.
    destruct r as [[]|e].
    - destruct Hr as (dct' & rows & _ & _ & _ & -> & Hall).
      apply row_result_app_unindexed.
      apply Forall_lookup. intros i r Hi.
      destruct (Forall2_lookup_r _ _ _ _ _ Hall Hi) as (p & _ & Hw & _).
      destruct Hw as (_ & _ & _ & _ & _ & Hf). exact Hf.
    - destruct Hr as [-> _]. reflexivity. }
  destruct Hw as [-> Hrows].
  destruct (index_search _ _ _) as [ids|e]; [|reflexivity].
  rewrite (omap_ext_all _ _ ids Hrows). reflexivity.
Qed.

(** X17.  A persistent add that returns has written one [Document] row
    and one chunk row for each pair of a text and an embedding, in
    order: the row holds the text, the embedding, which has 1024
    components, the id of the new [Document] row, no position, and the
    content the metadata dictionary had when the add started.  Texts or
    embeddings beyond the shorter of the two lists are dropped without
    an error. *)
Theorem general_add_rows (texts : list Py.str) (embs : list vector)
  (md : ref) (w w' : world) :
  PostgresVectorStore.add_document_chunks texts embs md w = (w', Ok tt) ->
  exists dct doc rows,
    heap w !! md = Some dct
    /\ doc = with_id (uuid_next w) (new_document dct)
    /\ documents w' = documents w ++ [doc]
    /\ chunks w' = chunks w ++ rows
    /\ length rows = Nat.min (length texts) (length embs)
    /\ Forall2 (fun p r =>
                  text r = fst p
                  /\ embedding r = Some (snd p)
                  /\ length (snd p) = D
                  /\ metadata_json r = Some dct
                  /\ document_id r = doc_id doc
                  /\ faiss_index_id r = None)
         (zip texts embs) rows.
Proof.
  intros Hrun.
  apply postgres_add_cases in Hrun
    as (_ & _ & _ & _ & dct & rows & Hmd & _ & Hd & Hc & Hall).
  exists dct, (with_id (uuid_next w) (new_document dct)), rows.
  split; [exact Hmd|]. split; [reflexivity|].
  split; [exact Hd|]. split; [exact Hc|]. split.
  - rewrite <- (Forall2_length _ _ _ Hall). apply length_zip.
  - eapply Forall2_impl; [exact Hall|].
    intros p r [(_ & Hdoc & Ht & Hm & He & Hf) Hcheck]. simpl in *.
    repeat split; try assumption.
    eapply check_chunk_dimension; eassumption.
Qed.

(** X18.  A persistent add that raises has written no chunk row, has
    left the index, the dictionaries and the files alone and has closed
    its session; but the [Document] row stays behind whenever the row
    itself was acceptable, because it was committed before the chunks. *)
Theorem general_add_failure (texts : list Py.str) (embs : list vector)
  (md : ref) (w w' : world) e :
  PostgresVectorStore.add_document_chunks texts embs md w = (w', Raise e) ->
  chunks w' = chunks w
  /\ session w' = [] /\ user_store w' = user_store w
  /\ heap w' = heap w /\ files w' = files w
  /\ (documents w' = documents w
      \/ exists doc, documents w' = documents w ++ [doc])
  /\ (forall dct,
        heap w !! md = Some dct ->
        check_document (new_document dct) = Ok tt ->
        documents w' = documents w ++ [with_id (uuid_next w) (new_document dct)]).
Proof.
  intros Hrun.
  apply postgres_add_cases in Hrun as (Hs & Hh & Hf & Hst & Hc & Hd).
  repeat (split; [assumption|]). split.
  - destruct (heap w !! md) as [dct|]; [|left; exact Hd].
    destruct (check_document (new_document dct)); [right; eauto | left; exact Hd].
  - intros dct Hmd Hdoc. rewrite Hmd, Hdoc in Hd. exact Hd.
Qed.

(** X19.  The snapshot on disk follows the successful uploads only.
    When [add_user_documents] returns, the file at the store's path holds
    the index as it then is, and making the store again with the same
    arguments (a restart) gives the very same store.  When it raises,
    no file was written. *)
Theorem snapshot_follows_successful_upload (cs : list chunk) (md : ref)
  (w w' : world) r (p : string) :
  VectorManager.add_user_documents cs md w = (w', r) ->
  index_path (user_store w) = Some p ->
  p <> ""%string ->
  match r with
  | Ok _ =>
      snapshot_current w'
      /\ FAISSVectorStore.__init__ (embedding_dim (user_store w)) (Some p) w'
         = (w', Ok tt)
  | Raise _ => files w' = files w
  end.
Proof.
  unfold VectorManager.add_user_documents. rewrite bind_run.
  destruct (heap w !! md) as [dct|] eqn:Hmd.
  2:{ rewrite (dict_setitem_missing _ _ _ _ Hmd). intros [= <- <-]. reflexivity. }
  rewrite (dict_setitem_run _ _ _ _ _ Hmd), bind_run.
  pose proof (faiss_add_frame cs md
                (set_heap (<[md := <["source"%string := PStr (Py.s "user")]> dct]>
                             (heap w)) w)) as Hframe.
  destruct (FAISSVectorStore.add_document_chunks cs md _) as [w2 [[]|e]].
  - simpl in Hframe. destruct Hframe as (_ & _ & Hdim & Hpath & _).
    rewrite save_index_default_run. intros [= <- <-] Hp Hne.
    rewrite Hp in Hpath. rewrite Hpath.
    destruct p as [|c p]; [congruence|]. split.
    + unfold snapshot_current. simpl. rewrite Hpath. simpl.
      apply lookup_insert_eq.
    + unfold FAISSVectorStore.__init__. rewrite bind_run. unfold get. simpl.
      rewrite lookup_insert_eq. simpl. unfold modify. f_equal.
      destruct w2 as [docs cks nx ss hp [dim ip ix] fs]. simpl in *.
      subst. reflexivity.
  - intros [= <- <-] _ _. simpl in Hframe. apply Hframe.
Qed.

(** X20.  Save, then load.  Loading a path just saved to gives back the
    index that was saved and makes that path the store's own; loading a
    path that has no file changes nothing. *)
Theorem save_load_round_trip (p : string) (w : world) :
  p <> ""%string ->
  let w1 := fst (FAISSVectorStore.save_index (Some p) w) in
  FAISSVectorStore.load_index p w1
  = (set_user_store
       (mk_faiss_store (embedding_dim (user_store w)) (Some p)
          (index (user_store w))) w1, Ok tt)
  /\ files w1 = <[p := index (user_store w)]> (files w)
  /\ (FAISSVectorStore.read_index w p = None ->
      FAISSVectorStore.load_index p w = (w, Ok tt)).
Proof.
  intros Hne w1. subst w1.
  destruct p as [|c p]; [congruence|].
  unfold FAISSVectorStore.save_index, FAISSVectorStore.load_index.
  rewrite !bind_run. unfold get, modify. simpl.
  rewrite lookup_insert_eq. split; [reflexivity|]. split; [reflexivity|].
  intros ->. reflexivity.
Qed.

Lemma references_extend (w w' : world) extra rows :
  references_documents w ->
  documents w' = documents w ++ extra ->
  chunks w' = chunks w ++ rows ->
  Forall (fun r => match document_id r with
                   | Some i =>
                       exists doc, In doc (documents w') /\ doc_id doc = Some i
                   | None => True
                   end) rows ->
  references_documents w'.
Proof.
  intros Href Hd Hc Hrows. unfold references_documents.
  rewrite Hc. apply Forall_app. split; [|exact Hrows].
  eapply Forall_impl; [exact Href|]. intros r Hr. cbv beta in *.
  destruct (document_id r); [|exact I].
  destruct Hr as (doc & Hin & Hid). exists doc. split; [|exact Hid].
  rewrite Hd. apply in_or_app. left. exact Hin.
Qed.

Lemma faiss_add_Raise (cs : list chunk) (md : ref) (w w' : world) e :
  FAISSVectorStore.add_document_chunks cs md w = (w', Raise e) ->
  chunks w' = chunks w
  /\ exists extra, documents w' = documents w ++ extra.
Proof.
  rewrite faiss_add_run.
  destruct (heap w !! md) as [dct|].
  2:{ intros [= <- _]. split; [reflexivity|]. exists []. symmetry. apply app_nil_r. }
  cbv zeta. destruct (check_document _).
  2:{ intros [= <- _]. split; [reflexivity|]. exists []. symmetry. apply app_nil_r. }
  destruct (index_add _ _) as [w4 [[]|e1]] eqn:Ei.
  - apply index_add_Ok in Ei as (-> & _).
    destruct (flush _ _ _ _ _) as [[[[docs cks] next] done]|e2]; [discriminate|].
    intros [= <- _]. simpl. eauto.
  - apply index_add_inv in Ei. subst w4. intros [= <- _]. simpl. eauto.
Qed.

(** X21.  No chunk row is ever left without its document: if every chunk
    row points to a row of [documents], the same is true after an add on
    either store, whether the add returns or raises. *)
Theorem chunks_reference_documents (cs : list chunk) (texts : list Py.str)
  (embs : list vector) (md : ref) (w : world) :
  references_documents w ->
  references_documents (fst (FAISSVectorStore.add_document_chunks cs md w))
  /\ references_documents
       (fst (PostgresVectorStore.add_document_chunks texts embs md w)).
Proof.
  intros Href. split.
  - destruct (FAISSVectorStore.add_document_chunks cs md w) as [w' [[]|e]] eqn:Hrun;
      simpl.
    + destruct (faiss_add_Ok _ _ _ _ Hrun)
        as (dct & rows & _ & _ & Hd & Hc & Hlen & Hrows & _).
      apply (references_extend w w' _ rows Href Hd Hc).
      apply Forall_lookup. intros j r Hr.
      assert (Hj : j < length cs) by (rewrite <- Hlen; eapply lookup_lt_Some, Hr).
      apply lookup_lt_is_Some in Hj as [c Hcj].
      destruct (Hrows j c Hcj) as (r' & Hr' & _ & Hdoc & _).
      rewrite Hr in Hr'. injection Hr' as <-. rewrite Hdoc.
      exists (with_id (uuid_next w) (new_document dct)).
      split; [|reflexivity]. rewrite Hd. apply in_or_app. right.
      left. reflexivity.
    + destruct (faiss_add_Raise _ _ _ _ _ Hrun) as (Hc & extra & Hd).
      apply (references_extend w w' extra [] Href Hd);
        [rewrite app_nil_r; exact Hc | constructor].
  - destruct (PostgresVectorStore.add_document_chunks texts embs md w)
      as [w' r] eqn:Hrun. simpl.
    apply postgres_add_cases in Hrun as (_ & _ & _ & _ & Hr).
    destruct r as [[]|e].
    + destruct Hr as (dct & rows & _ & _ & Hd & Hc & Hall).
      apply (references_extend w w' _ rows Href Hd Hc).
      apply Forall_lookup. intros j r Hr.
      destruct (Forall2_lookup_r _ _ _ _ _ Hall Hr) as (p & _ & Hw & _).
      destruct Hw as (_ & Hdoc & _). rewrite Hdoc. simpl.
      exists (with_id (uuid_next w) (new_document dct)).
      split; [|reflexivity]. rewrite Hd. apply in_or_app. right.
      left. reflexivity.
    + destruct Hr as [Hc Hd].
      assert (Hex : exists extra, documents w' = documents w ++ extra).
      { destruct (heap w !! md) as [dct|];
          [|exists []; rewrite app_nil_r; exact Hd].
        destruct (check_document (new_document dct));
          [eauto | exists []; rewrite app_nil_r; exact Hd]. }
      destruct Hex as [extra Hd'].
      apply (references_extend w w' extra [] Href Hd');
        [rewrite app_nil_r; exact Hc | constructor].
Qed.

(** X24.  A restart undoes a half-done upload.  If the index and the
    table were in step and the file on disk held the index, then after
    an [add_user_documents] that raises (whether or not it had appended
    its vectors), making the store again from its path gives back the
    store as it was before the call, in step with the table again. *)
Theorem restart_undoes_failed_upload (cs : list chunk) (md : ref)
  (w w' : world) e (p : string) :
  VectorManager.add_user_documents cs md w = (w', Raise e) ->
  index_path (user_store w) = Some p ->
  snapshot_current w ->
  in_step w ->
  let w'' :=
    fst (FAISSVectorStore.__init__ (embedding_dim (user_store w)) (Some p) w')
  in
  user_store w'' = user_store w /\ chunks w'' = chunks w /\ in_step w''.
Proof.
  intros Hrun Hp Hsnap Hstep w''.
  assert (Hw' : chunks w' = chunks w /\ files w' = files w).
  { revert Hrun. unfold VectorManager.add_user_documents. rewrite bind_run.
    destruct (heap w !! md) as [dct|] eqn:Hmd.
    2:{ rewrite (dict_setitem_missing _ _ _ _ Hmd). intros [= <- _]. auto. }
    rewrite (dict_setitem_run _ _ _ _ _ Hmd), bind_run.
    pose proof (faiss_add_frame cs md
                  (set_heap
                     (<[md := <["source"%string := PStr (Py.s "user")]> dct]>
                        (heap w)) w)) as Hframe.
    destruct (FAISSVectorStore.add_document_chunks cs md _)
      as [w2 [[]|e2]] eqn:Hadd.
    - rewrite save_index_default_run. discriminate.
    - intros [= <- _]. apply faiss_add_Raise in Hadd as [Hc _].
      simpl in Hframe, Hc. split; [exact Hc | apply Hframe]. }
  destruct Hw' as [Hc Hf].
  unfold snapshot_current in Hsnap. rewrite Hp in Hsnap.
  assert (Hread : FAISSVectorStore.read_index w' p
                  = Some (index (user_store w))).
  { rewrite <- Hsnap. unfold FAISSVectorStore.read_index. rewrite Hf.
    reflexivity. }
  assert (Hst : user_store w'' = user_store w).
  { subst w''. unfold FAISSVectorStore.__init__. rewrite bind_run.
    unfold get, modify. simpl. rewrite Hread. simpl.
    rewrite <- Hp. destruct (user_store w). reflexivity. }
  assert (Hck : chunks w'' = chunks w).
  { subst w''. unfold FAISSVectorStore.__init__. rewrite bind_run.
    unfold get, modify. simpl. exact Hc. }
  split; [exact Hst|]. split; [exact Hck|].
  destruct Hstep as [Hrange Hcov]. unfold in_step, positions_in_range.
  rewrite Hst, Hck. split; assumption.
Qed.

(** X25.  The persistent search is a plain [LIMIT]: with a query of
    1024 components and a [top_k] that is not negative it changes
    nothing and returns exactly [min top_k rows] results, each the text
    and metadata of a row of the table; for [top_k = 0] that is the
    empty list, where the ephemeral search raises. *)
Theorem general_search_limit (q : vector) (k : Z) (w : world) :
  length q = D ->
  (0 <= k)%Z ->
  exists res,
    PostgresVectorStore.similarity_search q k w = (set_session [] w, Ok res)
    /\ length res = Nat.min (Z.to_nat k) (length (chunks w))
    /\ Forall (fun x =>
                 exists r,
                   In r (chunks w)
                   /\ x = GeneralResult (text r) (default ∅ (metadata_json r)))
         res
    /\ (k = 0%Z ->
        res = []
        /\ forall query,
             snd (FAISSVectorStore.similarity_search query k w)
             = Raise AssertionError).
Proof.
  intros Hq Hk.
  rewrite ManagerClaims.postgres_search_run, Hq, Nat.eqb_refl. simpl negb.
  cbv iota. destruct (Z.ltb_spec k 0); [lia|].
  eexists. split; [reflexivity|]. split; [|split].
  - rewrite length_map, length_take, sort_by_length. reflexivity.
  - apply List.Forall_forall. intros x Hx.
    apply in_map_iff in Hx as (r & <- & Hr). exists r. split; [|reflexivity].
    apply list_elem_of_In in Hr. apply elem_of_take in Hr as (i & Hi & _).
    apply list_elem_of_lookup_2, list_elem_of_In in Hi.
    eapply Permutation_in; [apply sort_by_perm | exact Hi].
  - intros ->. split; [reflexivity|]. intros query.
    rewrite ManagerClaims.faiss_search_run. simpl. unfold index_search.
    destruct (negb _); reflexivity.
Qed.

(** Checking a concrete state. *)
Lemma positions_in_range_check (w : world) :
  forallb (fun r => match faiss_index_id r with
                    | Some z =>
                        (0 <=? z)%Z
                        && (z <? Z.of_nat (ntotal (index (user_store w))))%Z
                    | None => true
                    end) (chunks w) = true ->
  positions_in_range w.
Proof.
  intros Hb. apply List.Forall_forall. intros r Hr.
  rewrite forallb_forall in Hb. specialize (Hb r Hr).
  destruct (faiss_index_id r); [|exact I].
  apply andb_prop in Hb as [H1 H2]. lia.
Qed.

Lemma in_step_check (w : world) :
  forallb (fun r => match faiss_index_id r with
                    | Some z =>
                        (0 <=? z)%Z
                        && (z <? Z.of_nat (ntotal (index (user_store w))))%Z
                    | None => true
                    end) (chunks w) = true ->
  forallb (fun i => match row_result (chunks w) (Z.of_nat i) with
                    | Some _ => true
                    | None => false
                    end) (seq 0 (ntotal (index (user_store w)))) = true ->
  in_step w.
Proof.
  intros Hb Hc. split; [apply positions_in_range_check, Hb|].
  intros i Hi. rewrite forallb_forall in Hc.
  specialize (Hc i ltac:(apply in_seq; lia)).
  destruct (row_result _ _); [discriminate | discriminate].
Qed.

Lemma references_check (w : world) :
  forallb (fun r => match document_id r with
                    | Some i =>
                        existsb (fun doc => bool_decide (doc_id doc = Some i))
                          (documents w)
                    | None => true
                    end) (chunks w) = true ->
  references_documents w.
Proof.
  intros Hb. apply List.Forall_forall. intros r Hr.
  rewrite forallb_forall in Hb. specialize (Hb r Hr).
  destruct (document_id r); [|exact I].
  apply existsb_exists in Hb as (doc & Hin & Hd).
  apply bool_decide_eq_true in Hd. eauto.
Qed.

End General.

Import Examples Cases.

Lemma upload_without_filename_witness :
  heap w_anon !! 1 = Some (∅ : dict)
  /\ (∅ : dict) !! "filename"%string = None
  /\ snd (@VectorManager.add_user_documents ZNum stub upload1 1 w_anon)
     = Raise IntegrityError
  /\ documents (fst (@VectorManager.add_user_documents ZNum stub upload1 1 w_anon))
     = documents w_anon
  /\ snd (@VectorManager.add_general_documents ZNum stub
            [inr (Py.s "Rent is due.")] 1 w_anon)
     = Raise IntegrityError.
Proof.
  assert (H1 : heap w_anon !! 1 = Some (∅ : dict)) by by_evaluation.
  assert (H2 : (∅ : dict) !! "filename"%string = None) by reflexivity.
  split; [exact H1|]. split; [exact H2|].
  destruct (@upload_without_filename_refused ZNum stub upload1
              [inr (Py.s "Rent is due.")] 1 ∅ w_anon H1 H2)
    as [(Hu & Hd & _) (Hg & _)].
  split; [exact Hu|]. split; [exact Hd | exact Hg].
Defined.

Lemma blank_upload_witness :
  forallb Py.is_space blank = true
  /\ heap w0 !! 1 = Some md0
  /\ check_document (new_document md0) = Ok tt
  /\ LegalChunker.chunk_text budget14 blank 1 = []
  /\ snd (@VectorManager.add_user_documents ZNum stub
            (LegalChunker.chunk_text budget14 blank 1) 1 w0)
     = Raise ValueError
  /\ snd (@VectorManager.add_general_documents ZNum stub
            (map inl (LegalChunker.chunk_text budget14 blank 1)) 1 w0)
     = Ok tt.
Proof.
  assert (H1 : forallb Py.is_space blank = true) by reflexivity.
  assert (H2 : heap w0 !! 1 = Some md0) by by_evaluation.
  assert (H3 : check_document (new_document md0) = Ok tt) by by_evaluation.
  split; [exact H1|]. split; [exact H2|]. split; [exact H3|].
  destruct (@blank_upload_leaves_empty_document ZNum stub budget14 blank 1 md0
              w0 H1 H2 H3) as (Hcs & (Hu & _) & (Hg & _)).
  split; [exact Hcs|]. split; [exact Hu | exact Hg].
Defined.

Lemma uploaded_chunks_witness :
  @FAISSVectorStore.add_document_chunks ZNum stub upload2 1 w1 = (w2, Ok tt)
  /\ positions_in_range w1
  /\ exists doc,
       documents w2 = documents w1 ++ [doc]
       /\ forall i c,
            upload2 !! i = Some c ->
            row_result (chunks w2)
              (Z.of_nat (ntotal (index (user_store w1)) + i))
            = Some (UserResult (ChunkDict.text c) (doc_id doc)).
Proof.
  assert (Hrun : @FAISSVectorStore.add_document_chunks ZNum stub upload2 1 w1
                 = (w2, Ok tt)) by by_evaluation.
  assert (Hr : positions_in_range w1)
    by (apply positions_in_range_check; by_evaluation).
  split; [exact Hrun|]. split; [exact Hr|].
  exact (@uploaded_chunks_found_by_position ZNum stub upload2 1 w1 w2 Hrun Hr).
Defined.

Lemma in_step_witness :
  in_step w1
  /\ @FAISSVectorStore.add_document_chunks ZNum stub upload2 1 w1 = (w2, Ok tt)
  /\ in_step w2.
Proof.
  assert (Hs : in_step w1) by (apply in_step_check; by_evaluation).
  assert (Hrun : @FAISSVectorStore.add_document_chunks ZNum stub upload2 1 w1
                 = (w2, Ok tt)) by by_evaluation.
  split; [exact Hs|]. split; [exact Hrun|].
  exact (@in_step_preserved ZNum stub upload2 1 w1 w2 Hs Hrun).
Defined.

Lemma in_step_search_witness :
  in_step w2
  /\ (0 < 3)%Z
  /\ length (@EmbeddingModel.embed_query ZNum stub (Py.s "pets"))
     = d (index (user_store w2))
  /\ exists res,
       @FAISSVectorStore.similarity_search ZNum stub (Py.s "pets") 3 w2
       = (set_session [] w2, Ok res)
       /\ length res = Nat.min (Z.to_nat 3) (ntotal (index (user_store w2))).
Proof.
  assert (Hs : in_step w2) by (apply in_step_check; by_evaluation).
  assert (Hk : (0 < 3)%Z) by lia.
  assert (Hd : length (@EmbeddingModel.embed_query ZNum stub (Py.s "pets"))
               = d (index (user_store w2))) by by_evaluation.
  split; [exact Hs|]. split; [exact Hk|]. split; [exact Hd|].
  exact (@in_step_search_complete ZNum stub (Py.s "pets") 3 w2 Hs Hk Hd).
Defined.

Lemma search_empty_witness :
  @VectorManager.search ZNum stub (Py.s "eviction") 2 w_hybrid
  = (set_session [] w_hybrid,
     Ok [UserResult (Py.s "A dog.") (Some 0);
         GeneralResult (Py.s "see the decree")
           (<["source"%string := PStr (Py.s "general")]> md0)])
  /\ ([UserResult (Py.s "A dog.") (Some 0);
       GeneralResult (Py.s "see the decree")
         (<["source"%string := PStr (Py.s "general")]> md0)] = []
      <-> chunks w_hybrid = []).
Proof.
  assert (Hrun : @VectorManager.search ZNum stub (Py.s "eviction") 2 w_hybrid
     = (set_session [] w_hybrid,
        Ok [UserResult (Py.s "A dog.") (Some 0);
            GeneralResult (Py.s "see the decree")
              (<["source"%string := PStr (Py.s "general")]> md0)]))
    by by_evaluation.
  split; [exact Hrun|].
  exact (@search_empty_iff_no_rows ZNum stub (Py.s "eviction") 2 w_hybrid _ _ Hrun).
Defined.

Lemma general_results_witness :
  @FAISSVectorStore.add_document_chunks ZNum stub upload1 1 w0 = (w1, Ok tt)
  /\ length (stub_encode (Py.s "query: pets")) = D
  /\ length (chunks w1) <= Z.to_nat 5
  /\ exists res,
       @PostgresVectorStore.similarity_search ZNum
         (stub_encode (Py.s "query: pets")) 5 w1
       = (set_session [] w1, Ok res)
       /\ length res = length (chunks w1)
       /\ Forall (fun c => In (GeneralResult (ChunkDict.text c) ∅) res) upload1.
Proof.
  assert (Hrun : @FAISSVectorStore.add_document_chunks ZNum stub upload1 1 w0
                 = (w1, Ok tt)) by by_evaluation.
  assert (Hq : length (stub_encode (Py.s "query: pets")) = D) by by_evaluation.
  assert (Hk : length (chunks w1) <= Z.to_nat 5) by (vm_compute; lia).
  split; [exact Hrun|]. split; [exact Hq|]. split; [exact Hk|].
  exact (@uploaded_chunks_in_general_results ZNum stub upload1 1 w0 w1
           (stub_encode (Py.s "query: pets")) 5 Hrun Hq Hk).
Defined.

Lemma general_add_rows_witness :
  @PostgresVectorStore.add_document_chunks ZNum [Py.s "a"; Py.s "b"]
    [stub_encode (Py.s "passage: a")] 1 w0
  = (w_general, Ok tt)
  /\ exists dct doc rows,
       heap w0 !! 1 = Some dct
       /\ doc = with_id (uuid_next w0) (new_document dct)
       /\ documents w_general = documents w0 ++ [doc]
       /\ chunks w_general = chunks w0 ++ rows
       /\ length rows
          = Nat.min (length [Py.s "a"; Py.s "b"])
              (length [stub_encode (Py.s "passage: a")])
       /\ Forall2 (fun p r =>
                     text r = fst p
                     /\ embedding r = Some (snd p)
                     /\ length (snd p) = D
                     /\ metadata_json r = Some dct
                     /\ document_id r = doc_id doc
                     /\ faiss_index_id r = None)
            (zip [Py.s "a"; Py.s "b"]
               ([stub_encode (Py.s "passage: a")] : list (@vector ZNum))) rows.
Proof.
  assert (Hrun : @PostgresVectorStore.add_document_chunks ZNum
                   [Py.s "a"; Py.s "b"] [stub_encode (Py.s "passage: a")] 1 w0
                 = (w_general, Ok tt)) by by_evaluation.
  split; [exact Hrun|].
  exact (@general_add_rows ZNum _ _ 1 w0 w_general Hrun).
Defined.

Lemma general_add_failure_witness :
  @PostgresVectorStore.add_document_chunks ZNum [Py.s "Rent is due."]
    [[1; 2; 3]%Z] 1 w0
  = (w_failed, Raise ValueError)
  /\ chunks w_failed = chunks w0
  /\ session w_failed = []
  /\ (documents w_failed = documents w0
      \/ exists doc, documents w_failed = documents w0 ++ [doc]).
Proof.
  assert (Hrun : @PostgresVectorStore.add_document_chunks ZNum
                   [Py.s "Rent is due."] [[1; 2; 3]%Z] 1 w0
                 = (w_failed, Raise ValueError)) by by_evaluation.
  split; [exact Hrun|].
  destruct (@general_add_failure ZNum _ _ 1 w0 w_failed ValueError Hrun)
    as (Hc & Hs & _ & _ & _ & Hd & _).
  split; [exact Hc|]. split; [exact Hs | exact Hd].
Defined.

Lemma snapshot_witness :
  @VectorManager.add_user_documents ZNum stub upload1 1 w0 = (w_saved, Ok tt)
  /\ index_path (user_store w0) = Some "data/indexes/faiss_user.index"%string
  /\ "data/indexes/faiss_user.index"%string <> ""%string
  /\ snapshot_current w_saved
  /\ @VectorManager.__init__ ZNum w_saved = (w_saved, Ok tt).
Proof.
  assert (Hrun : @VectorManager.add_user_documents ZNum stub upload1 1 w0
                 = (w_saved, Ok tt)) by by_evaluation.
  assert (Hp : index_path (user_store w0)
               = Some "data/indexes/faiss_user.index"%string) by reflexivity.
  assert (Hne : "data/indexes/faiss_user.index"%string <> ""%string)
    by discriminate.
  split; [exact Hrun|]. split; [exact Hp|]. split; [exact Hne|].
  exact (@snapshot_follows_successful_upload ZNum stub upload1 1 w0 w_saved
           (Ok tt) _ Hrun Hp Hne).
Defined.

Lemma save_load_witness :
  "backup.index"%string <> ""%string
  /\ @FAISSVectorStore.load_index ZNum "backup.index"
       (fst (@FAISSVectorStore.save_index ZNum (Some "backup.index"%string) w1))
     = (set_user_store
          (mk_faiss_store (embedding_dim (user_store w1))
             (Some "backup.index"%string) (index (user_store w1)))
          (fst (@FAISSVectorStore.save_index ZNum (Some "backup.index"%string) w1)),
        Ok tt).
Proof.
  assert (Hne : "backup.index"%string <> ""%string) by discriminate.
  split; [exact Hne|].
  exact (proj1 (@save_load_round_trip ZNum "backup.index" w1 Hne)).
Defined.

Lemma restart_witness :
  @VectorManager.add_user_documents ZNum stub [nul_chunk] 1 w_saved
  = (w_broken, Raise ValueError)
  /\ index_path (user_store w_saved)
     = Some "data/indexes/faiss_user.index"%string
  /\ snapshot_current w_saved
  /\ in_step w_saved
  /\ ntotal (index (user_store w_broken)) = 3
  /\ length (chunks w_broken) = 2
  /\ user_store
       (fst (@FAISSVectorStore.__init__ ZNum (embedding_dim (user_store w_saved))
               (Some "data/indexes/faiss_user.index"%string) w_broken))
     = user_store w_saved
  /\ in_step
       (fst (@FAISSVectorStore.__init__ ZNum (embedding_dim (user_store w_saved))
               (Some "data/indexes/faiss_user.index"%string) w_broken)).
Proof.
  assert (Hrun : @VectorManager.add_user_documents ZNum stub [nul_chunk] 1 w_saved
                 = (w_broken, Raise ValueError)) by by_evaluation.
  assert (Hp : index_path (user_store w_saved)
               = Some "data/indexes/faiss_user.index"%string) by reflexivity.
  assert (Hsnap : snapshot_current w_saved).
  { change (FAISSVectorStore.read_index w_saved "data/indexes/faiss_user.index"
            = Some (index (user_store w_saved))).
    by_evaluation. }
  assert (Hstep : in_step w_saved) by (apply in_step_check; by_evaluation).
  split; [exact Hrun|]. split; [exact Hp|]. split; [exact Hsnap|].
  split; [exact Hstep|]. split; [by_evaluation|]. split; [by_evaluation|].
  destruct (@restart_undoes_failed_upload ZNum stub [nul_chunk] 1 w_saved
              w_broken ValueError _ Hrun Hp Hsnap Hstep) as (H1 & _ & H3).
  split; [exact H1 | exact H3].
Defined.

Lemma general_search_witness :
  length (stub_encode (Py.s "query: pets")) = D
  /\ (0 <= 1)%Z
  /\ exists res,
       @PostgresVectorStore.similarity_search ZNum
         (stub_encode (Py.s "query: pets")) 1 w_hybrid
       = (set_session [] w_hybrid, Ok res)
       /\ length res = Nat.min (Z.to_nat 1) (length (chunks w_hybrid)).
Proof.
  assert (Hq : length (stub_encode (Py.s "query: pets")) = D) by by_evaluation.
  assert (Hk : (0 <= 1)%Z) by lia.
  split; [exact Hq|]. split; [exact Hk|].
  destruct (@general_search_limit ZNum stub (stub_encode (Py.s "query: pets"))
              1 w_hybrid Hq Hk) as (res & Hrun & Hlen & _).
  exists res. split; [exact Hrun | exact Hlen].
Defined.

Lemma chunks_reference_witness :
  references_documents w1
  /\ references_documents
       (fst (@FAISSVectorStore.add_document_chunks ZNum stub upload2 1 w1))
  /\ references_documents
       (fst (@PostgresVectorStore.add_document_chunks ZNum [Py.s "Rent is due."]
               [[1; 2; 3]%Z] 1 w1)).
Proof.
  assert (Href : references_documents w1)
    by (apply references_check; by_evaluation).
  split; [exact Href|].
  exact (@chunks_reference_documents ZNum stub upload2 [Py.s "Rent is due."]
           [[1; 2; 3]%Z] 1 w1 Href).
Defined.

End StoreProperties.

(** ** The question-answering pipeline *)

Module PipelineProperties.
Import Models StoreFacts StoreRuns Invariants LegalRAGPipeline.

Section General.
Context `{Encoder}.


(** The hybrid search when nothing is wrong with its arguments. *)
Lemma search_returns (query : Py.str) (k : Z) (w : world) :
  length (EmbeddingModel.embed_query query) = d (index (user_store w)) ->
  length (EmbeddingModel.embed_query query) = D ->
  (0 < k)%Z ->
  exists res,
    VectorManager.search query k w = (set_session [] w, Ok res)
    /\ (res = [] <-> chunks w = []).
Proof.
  intros Hd HD Hk. unfold VectorManager.search.
  rewrite bind_run, ManagerClaims.faiss_search_run. unfold index_search.
  rewrite Hd, Nat.eqb_refl. simpl negb. cbv iota.
  destruct (Z.leb_spec k 0); [lia|].
  rewrite bind_run, ManagerClaims.postgres_search_run.
  rewrite HD, Nat.eqb_refl. simpl negb. cbv iota.
  destruct (Z.ltb_spec k 0); [lia|].
  eexists. split; [reflexivity|].
  rewrite StoreProperties.slice_to_take by lia. simpl chunks.
  destruct (Z.to_nat k) as [|n] eqn:En; [lia|].
  split.
  - intros E. destruct (chunks w) as [|r cks]; [reflexivity|]. exfalso.
    apply (f_equal (@length _)) in E. rewrite length_take, length_app in E.
    set (general := map _ (take (S n) (sort_by _ (r :: cks)))) in E.
    assert (Hg : 1 <= length general).
    { subst general. rewrite length_map, length_take, sort_by_length.
      simpl. lia. }
    change (@length result []) with 0 in E. lia.
  - intros ->. rewrite omap_none; [reflexivity|].
    apply List.Forall_forall. reflexivity.
Qed.

(** X22.  A question put to an empty store is not logged.  When the
    [chunks] table has no row (and the query's embedding fits the index
    and the column), [answer_query] returns the fixed sentence without
    calling the model and writes no [QueryLog] row. *)
Theorem empty_store_query_not_logged (self : LegalRAGPipeline.t)
  (query language : Py.str) (st : state) :
  chunks (stores st) = [] ->
  length (EmbeddingModel.embed_query query)
  = d (index (user_store (stores st))) ->
  length (EmbeddingModel.embed_query query) = D ->
  answer_query self query language st
  = (mk_state (set_session [] (stores st)) (query_logs st),
     Ok (Py.s "No relevant legal information found.")).
Proof.
  intros Hc Hd HD.
  destruct (search_returns query 5 (stores st) Hd HD ltac:(lia))
    as (res & Hrun & Hres).
  unfold answer_query. rewrite Hrun, (proj2 Hres Hc). reflexivity.
Qed.


End General.

Import Examples Cases.

Lemma empty_store_query_witness :
  chunks (stores (mk_state w0 [])) = []
  /\ length (@EmbeddingModel.embed_query ZNum stub (Py.s "eviction"))
     = d (index (user_store (stores (mk_state w0 []))))
  /\ length (@EmbeddingModel.embed_query ZNum stub (Py.s "eviction")) = D
  /\ @answer_query ZNum stub rag (Py.s "eviction") (Py.s "en") (mk_state w0 [])
     = (mk_state (set_session [] w0) [],
        Ok (Py.s "No relevant legal information found.")).
Proof.
  assert (H1 : chunks (stores (mk_state w0 [])) = []) by reflexivity.
  assert (H2 : length (@EmbeddingModel.embed_query ZNum stub (Py.s "eviction"))
               = d (index (user_store (stores (mk_state w0 [])))))
    by by_evaluation.
  assert (H3 : length (@EmbeddingModel.embed_query ZNum stub (Py.s "eviction"))
               = D) by by_evaluation.
  split; [exact H1|]. split; [exact H2|]. split; [exact H3|].
  exact (@empty_store_query_not_logged ZNum stub rag (Py.s "eviction")
           (Py.s "en") (mk_state w0 []) H1 H2 H3).
Defined.


End PipelineProperties.
